(** * whatsapp-cli: the local daemon and its control protocol

    A shallow embedding of the daemon side (state file, request handler,
    line-buffering loop, shutdown) and of the client side (IPC proxy,
    date revival, connection strategy) of the repository, with the
    properties its specification states about them.

    JavaScript strings are sequences of UTF-16 code units; they are
    modelled as [list N].  Asynchronous functions are modelled by what
    their promise settles to ([Return] for a fulfilled promise, [Throw]
    for a rejected one). *)

From Stdlib Require Import String Ascii.
From Stdlib Require Import List NArith ZArith Lia Bool Permutation Sorted.
From Stdlib Require DecimalFacts DecimalPos DecimalN.
Import ListNotations.
Open Scope list_scope.

Set Implicit Arguments.

(* ================================================================== *)
(** * Part I.  Definitions                                             *)
(* ================================================================== *)

(** ** JavaScript strings *)

Definition jsstring := list N.

(** [js "abc"] is the JavaScript string with the same (ASCII) characters. *)
Definition js (s : string) : jsstring := map N_of_ascii (list_ascii_of_string s).

(** JSON texts are full of double quotes; [jsq] reads an apostrophe as a
    double quote, so that [jsq "{'id':'1'}"] is the text {"id":"1"}. *)
Definition jsq (s : string) : jsstring :=
  map (fun c => if N.eqb c 39 then 34%N else c) (js s).

Definition LF : N := 10%N.
Definition QUOTE : N := 34%N.
Definition BACKSLASH : N := 92%N.

Fixpoint jsstring_eqb (a b : jsstring) : bool :=
  match a, b with
  | [], [] => true
  | x :: a', y :: b' => N.eqb x y && jsstring_eqb a' b'
  | _, _ => false
  end.

(** What a call evaluates to: a value, or an exception. For an [async]
    function, what its promise settles to. *)
Inductive completion (E A : Type) : Type :=
| Return (a : A)
| Throw (e : E).
Arguments Return {E A} a.
Arguments Throw {E A} e.

Definition bind {E A B : Type} (c : completion E A) (k : A -> completion E B)
  : completion E B :=
  match c with
  | Return a => k a
  | Throw e => Throw e
  end.

(** [try { body } catch { handler }] *)
Definition try_catch {E A : Type} (body : completion E A) (handler : E -> completion E A)
  : completion E A :=
  match body with
  | Return a => Return a
  | Throw e => handler e
  end.

Notation "x <- c ;; k" := (bind c (fun x => k))
  (at level 61, c at next level, right associativity).

(** What a promise comes to: it settles, or it stays pending for ever. *)
Inductive promise (E A : Type) : Type :=
| Settled (c : completion E A)
| Pending.
Arguments Settled {E A} c.
Arguments Pending {E A}.

(** *** String.prototype.split('\n') *)

Fixpoint split_nl (s : jsstring) : list jsstring :=
  match s with
  | [] => [[]]
  | c :: r =>
      if N.eqb c LF then [] :: split_nl r
      else match split_nl r with
           | [] => [[c]]
           | l :: ls => (c :: l) :: ls
           end
  end.

(** *** Array.prototype.pop: the array without its last element, and that
    element ([None] is [undefined], for an empty array). *)
Fixpoint pop {A : Type} (l : list A) : list A * option A :=
  match l with
  | [] => ([], None)
  | [x] => ([], Some x)
  | x :: r => let (r', o) := pop r in (x :: r', o)
  end.

(** *** String.prototype.trim: WhiteSpace and LineTerminator of ECMAScript. *)
Definition is_js_space (c : N) : bool :=
  let eq := N.eqb c in
  (eq 9 || eq 10 || eq 11 || eq 12 || eq 13 || eq 32 || eq 160 || eq 5760
   || ((8192 <=? c) && (c <=? 8202)) || eq 8232 || eq 8233 || eq 8239
   || eq 8287 || eq 12288 || eq 65279)%N.

Fixpoint trim_start (s : jsstring) : jsstring :=
  match s with
  | c :: r => if is_js_space c then trim_start r else s
  | [] => []
  end.

Definition trim (s : jsstring) : jsstring := rev (trim_start (rev (trim_start s))).

(** [!s] for a string [s]. *)
Definition is_empty (s : jsstring) : bool :=
  match s with [] => true | _ => false end.

(** ** Buffers: [Buffer.from(string)] is the UTF-8 encoding. *)

Definition is_high_surrogate (c : N) : bool := ((55296 <=? c) && (c <=? 56319))%N.
Definition is_low_surrogate (c : N) : bool := ((56320 <=? c) && (c <=? 57343))%N.

Definition utf8_2 (c : N) : list N :=
  [N.lor 192 (N.shiftr c 6); N.lor 128 (N.land c 63)].
Definition utf8_3 (c : N) : list N :=
  [N.lor 224 (N.shiftr c 12); N.lor 128 (N.land (N.shiftr c 6) 63); N.lor 128 (N.land c 63)].
Definition utf8_4 (c : N) : list N :=
  [N.lor 240 (N.shiftr c 18); N.lor 128 (N.land (N.shiftr c 12) 63);
   N.lor 128 (N.land (N.shiftr c 6) 63); N.lor 128 (N.land c 63)].

(** The code point of a surrogate pair. *)
Definition pair_code_point (hi lo : N) : N :=
  (65536 + N.shiftl (hi - 55296) 10 + (lo - 56320))%N.

(** U+FFFD, which replaces a surrogate that has no partner. *)
Definition utf8_replacement : list N := [239; 191; 189]%N.

Fixpoint Buffer_from (s : jsstring) : list N :=
  match s with
  | [] => []
  | c :: r =>
      if (c <? 128)%N then c :: Buffer_from r
      else if (c <? 2048)%N then utf8_2 c ++ Buffer_from r
      else if is_high_surrogate c then
        match r with
        | d :: r' =>
            if is_low_surrogate d then utf8_4 (pair_code_point c d) ++ Buffer_from r'
            else utf8_replacement ++ Buffer_from r
        | [] => utf8_replacement
        end
      else if is_low_surrogate c then utf8_replacement ++ Buffer_from r
      else utf8_3 c ++ Buffer_from r
  end.

(** ** Exceptions *)

(** An [Error] instance (name, Node error code if any, message) or any
    other thrown value, given by what [String(...)] makes of it. *)
Inductive exn : Type :=
| ErrorObj (name : jsstring) (code : option jsstring) (message : jsstring)
| Thrown (text : jsstring).

(** [err.message], for an [Error] instance. *)
Definition message_of (e : exn) : jsstring :=
  match e with ErrorObj _ _ m => m | Thrown t => t end.

(** [String(err)]. For an [Error] it is [Error.prototype.toString]: the
    name and the message; the code of an error of Node is a property
    that is not printed. (An error whose own [toString] shows a code is,
    in this model, the [ErrorObj] whose name holds that code.) *)
Definition String_of_exn (e : exn) : jsstring :=
  match e with
  | ErrorObj n _ m =>
      if is_empty n then m else if is_empty m then n else n ++ js ": " ++ m
  | Thrown t => t
  end.

(** [err instanceof Error ? err.message : String(err)] *)
Definition message_or_string (e : exn) : jsstring :=
  match e with ErrorObj _ _ m => m | Thrown t => t end.

Definition new_Error (m : jsstring) : exn := ErrorObj (js "Error") None m.

Definition TypeError (m : jsstring) : exn := ErrorObj (js "TypeError") None m.

(** ** Numbers

    A number is kept as the exact decimal it was written as: an integer,
    or [m / 10^e] with [m] not a multiple of ten. Rounding to binary64,
    infinities and the sign of zero are not represented. *)

Inductive number : Type :=
| NInt (z : Z)
| NDec (m : Z) (e : positive).

Fixpoint reduce_decimal (k : nat) (m : Z) : number :=
  match k with
  | O => NInt m
  | S k' => if (m mod 10 =? 0)%Z then reduce_decimal k' (m / 10)%Z
            else NDec m (Pos.of_nat k)
  end.

(** The number [m * 10^x]. *)
Definition mk_number (m x : Z) : number :=
  if (0 <=? x)%Z then NInt (m * 10 ^ x)%Z else reduce_decimal (Z.to_nat (- x)) m.

Fixpoint chars_of_uint (u : Decimal.uint) : jsstring :=
  match u with
  | Decimal.Nil => []
  | Decimal.D0 u => 48%N :: chars_of_uint u
  | Decimal.D1 u => 49%N :: chars_of_uint u
  | Decimal.D2 u => 50%N :: chars_of_uint u
  | Decimal.D3 u => 51%N :: chars_of_uint u
  | Decimal.D4 u => 52%N :: chars_of_uint u
  | Decimal.D5 u => 53%N :: chars_of_uint u
  | Decimal.D6 u => 54%N :: chars_of_uint u
  | Decimal.D7 u => 55%N :: chars_of_uint u
  | Decimal.D8 u => 56%N :: chars_of_uint u
  | Decimal.D9 u => 57%N :: chars_of_uint u
  end.

Definition digit_of_char (c : N) : option (Decimal.uint -> Decimal.uint) :=
  if N.eqb c 48 then Some Decimal.D0 else
  if N.eqb c 49 then Some Decimal.D1 else
  if N.eqb c 50 then Some Decimal.D2 else
  if N.eqb c 51 then Some Decimal.D3 else
  if N.eqb c 52 then Some Decimal.D4 else
  if N.eqb c 53 then Some Decimal.D5 else
  if N.eqb c 54 then Some Decimal.D6 else
  if N.eqb c 55 then Some Decimal.D7 else
  if N.eqb c 56 then Some Decimal.D8 else
  if N.eqb c 57 then Some Decimal.D9 else None.

(** The longest prefix of decimal digits, and what follows it. *)
Fixpoint take_uint (s : jsstring) : Decimal.uint * jsstring :=
  match s with
  | [] => (Decimal.Nil, [])
  | c :: r =>
      match digit_of_char c with
      | Some d => let (u, rest) := take_uint r in (d u, rest)
      | None => (Decimal.Nil, s)
      end
  end.

Definition digits_of_N (n : N) : jsstring := chars_of_uint (N.to_uint n).

Definition strip_trailing_zeros (ds : jsstring) : jsstring :=
  rev ((fix strip (l : jsstring) : jsstring :=
          match l with
          | c :: r => if N.eqb c 48 then strip r else l
          | [] => []
          end) (rev ds)).

(** Scientific notation of Number::toString: digits [ds], decimal point
    after the first, exponent [n - 1]. *)
Definition exponent_form (ds : jsstring) (n : Z) : jsstring :=
  match ds with
  | [] => []
  | [d] => [d]
  | d :: rest => d :: 46%N :: rest
  end ++ js "e" ++ (if (0 <=? n - 1)%Z then js "+" else js "-")
      ++ digits_of_N (Z.abs_N (n - 1)).

Definition sign_of (z : Z) : jsstring := if (z <? 0)%Z then js "-" else [].

(** Number::toString (radix 10). *)
Definition Number_toString (x : number) : jsstring :=
  match x with
  | NInt z =>
      let ds := digits_of_N (Z.abs_N z) in
      sign_of z ++
        (if (Z.abs z <? 10 ^ 21)%Z then ds
         else exponent_form (strip_trailing_zeros ds) (Z.of_nat (length ds)))
  | NDec m e =>
      let ds := digits_of_N (Z.abs_N m) in
      let n := (Z.of_nat (length ds) - Z.pos e)%Z in
      sign_of m ++
        (if ((0 <? n) && (n <=? 21))%Z then
           firstn (Z.to_nat n) ds ++ js "." ++ skipn (Z.to_nat n) ds
         else if ((-6 <? n) && (n <=? 0))%Z then
           js "0." ++ repeat 48%N (Z.to_nat (- n)) ++ ds
         else exponent_form ds n)
  end.

(** ** JSON *)

Unset Elimination Schemes.
Inductive json : Type :=
| JNull
| JBool (b : bool)
| JNum (n : number)
| JStr (s : jsstring)
| JArr (l : list json)
| JObj (l : list (jsstring * json)).
Set Elimination Schemes.

(** An object is the list of its own properties, in creation order. *)
Definition object := list (jsstring * json).

Fixpoint lookup {A : Type} (k : jsstring) (o : list (jsstring * A)) : option A :=
  match o with
  | [] => None
  | (k', v) :: r => if jsstring_eqb k k' then Some v else lookup k r
  end.

(** Defining an own property: a new key goes last, an existing key keeps
    its place and takes the new value. *)
Fixpoint define {A : Type} (o : list (jsstring * A)) (k : jsstring) (v : A)
  : list (jsstring * A) :=
  match o with
  | [] => [(k, v)]
  | (k', v') :: r => if jsstring_eqb k k' then (k', v) :: r else (k', v') :: define r k v
  end.

(** [value[key]] for a JSON-decoded value and a key that no prototype
    defines: the own property of an object, [undefined] ([None]) otherwise. *)
Definition get (v : json) (k : jsstring) : option json :=
  match v with
  | JObj o => lookup k o
  | _ => None
  end.

(** The decimals [m / 10^e] that are zero as JavaScript numbers: those
    that the nearest binary64 number rounds to zero, which are the
    decimals up to [2^-1075] (half of the least positive number; the
    tie goes to zero). *)
Definition rounds_to_zero (m : Z) (e : positive) : bool :=
  (Z.abs m * 2 ^ 1075 <=? 10 ^ Z.pos e)%Z.

(** Truthiness of a possibly undefined JSON-decoded value. *)
Definition truthy (v : option json) : bool :=
  match v with
  | None => false
  | Some JNull => false
  | Some (JBool b) => b
  | Some (JNum (NInt z)) => negb (z =? 0)%Z
  | Some (JNum (NDec m e)) => negb (rounds_to_zero m e)
  | Some (JStr s) => negb (is_empty s)
  | Some (JArr _) => true
  | Some (JObj _) => true
  end.

(** An object literal [{k1: v1, ...}] as [JSON.stringify] sees it: the
    properties whose value is [undefined] are left out. *)
Fixpoint literal (fields : list (jsstring * option json)) : object :=
  match fields with
  | [] => []
  | (k, Some v) :: r => (k, v) :: literal r
  | (_, None) :: r => literal r
  end.

Module JSON.

Definition hex_digit (n : N) : N := if (n <? 10)%N then (48 + n)%N else (87 + n)%N.

Definition unicode_escape (c : N) : jsstring :=
  [BACKSLASH; 117%N;
   hex_digit (N.land (N.shiftr c 12) 15); hex_digit (N.land (N.shiftr c 8) 15);
   hex_digit (N.land (N.shiftr c 4) 15); hex_digit (N.land c 15)].

(** QuoteJSONString, without the enclosing quotes. *)
Fixpoint quote_body (s : jsstring) : jsstring :=
  match s with
  | [] => []
  | c :: r =>
      if N.eqb c QUOTE then BACKSLASH :: QUOTE :: quote_body r
      else if N.eqb c BACKSLASH then BACKSLASH :: BACKSLASH :: quote_body r
      else if N.eqb c 8 then BACKSLASH :: 98%N :: quote_body r
      else if N.eqb c 9 then BACKSLASH :: 116%N :: quote_body r
      else if N.eqb c 10 then BACKSLASH :: 110%N :: quote_body r
      else if N.eqb c 12 then BACKSLASH :: 102%N :: quote_body r
      else if N.eqb c 13 then BACKSLASH :: 114%N :: quote_body r
      else if (c <? 32)%N then unicode_escape c ++ quote_body r
      else if is_high_surrogate c then
        match r with
        | d :: r' =>
            if is_low_surrogate d then c :: d :: quote_body r'
            else unicode_escape c ++ quote_body r
        | [] => unicode_escape c
        end
      else if is_low_surrogate c then unicode_escape c ++ quote_body r
      else c :: quote_body r
  end.

Definition quote (s : jsstring) : jsstring := QUOTE :: quote_body s ++ [QUOTE].

Fixpoint join (parts : list jsstring) : jsstring :=
  match parts with
  | [] => []
  | [p] => p
  | p :: r => p ++ 44%N :: join r
  end.

(** [JSON.stringify(v)] for a value that holds no [undefined], function
    or object with a [toJSON] method. *)
Fixpoint stringify (v : json) : jsstring :=
  match v with
  | JNull => js "null"
  | JBool true => js "true"
  | JBool false => js "false"
  | JNum n => Number_toString n
  | JStr s => quote s
  | JArr l => 91%N :: join (map stringify l) ++ [93%N]
  | JObj o =>
      123%N :: join (map (fun kv => quote (fst kv) ++ 58%N :: stringify (snd kv)) o)
        ++ [125%N]
  end.

(** *** The parser *)

Inductive parsed (A : Type) : Type :=
| Ok (a : A) (rest : jsstring)
| Bad
| NoFuel.
Arguments Ok {A} a rest.
Arguments Bad {A}.
Arguments NoFuel {A}.

Definition is_ws (c : N) : bool :=
  N.eqb c 32 || N.eqb c 9 || N.eqb c 10 || N.eqb c 13.

Fixpoint skip_ws (s : jsstring) : jsstring :=
  match s with
  | c :: r => if is_ws c then skip_ws r else s
  | [] => []
  end.

Definition hex_val (c : N) : option N :=
  if ((48 <=? c) && (c <=? 57))%N then Some (c - 48)%N
  else if ((97 <=? c) && (c <=? 102))%N then Some (c - 87)%N
  else if ((65 <=? c) && (c <=? 70))%N then Some (c - 55)%N
  else None.

Definition hex4 (a b c d : N) : option N :=
  match hex_val a, hex_val b, hex_val c, hex_val d with
  | Some x, Some y, Some z, Some w => Some (((x * 16 + y) * 16 + z) * 16 + w)%N
  | _, _, _, _ => None
  end.

Definition cons_char (c : N) (p : parsed jsstring) : parsed jsstring :=
  match p with
  | Ok s rest => Ok (c :: s) rest
  | e => e
  end.

(** A string, from just after its opening quote. *)
Fixpoint parse_string_body (s : jsstring) : parsed jsstring :=
  match s with
  | [] => Bad
  | c :: r =>
      if N.eqb c QUOTE then Ok [] r
      else if N.eqb c BACKSLASH then
        match r with
        | [] => Bad
        | e :: r1 =>
            if N.eqb e QUOTE then cons_char QUOTE (parse_string_body r1)
            else if N.eqb e BACKSLASH then cons_char BACKSLASH (parse_string_body r1)
            else if N.eqb e 47 then cons_char 47%N (parse_string_body r1)
            else if N.eqb e 98 then cons_char 8%N (parse_string_body r1)
            else if N.eqb e 102 then cons_char 12%N (parse_string_body r1)
            else if N.eqb e 110 then cons_char 10%N (parse_string_body r1)
            else if N.eqb e 114 then cons_char 13%N (parse_string_body r1)
            else if N.eqb e 116 then cons_char 9%N (parse_string_body r1)
            else if N.eqb e 117 then
              match r1 with
              | h1 :: h2 :: h3 :: h4 :: r2 =>
                  match hex4 h1 h2 h3 h4 with
                  | Some u => cons_char u (parse_string_body r2)
                  | None => Bad
                  end
              | _ => Bad
              end
            else Bad
        end
      else if (c <? 32)%N then Bad
      else cons_char c (parse_string_body r)
  end.

Definition leading_zero (u : Decimal.uint) : bool :=
  match u with
  | Decimal.D0 Decimal.Nil => false
  | Decimal.D0 _ => true
  | _ => false
  end.

Definition is_nil (u : Decimal.uint) : bool :=
  match u with Decimal.Nil => true | _ => false end.

(** The fraction of a number: its digits, [Nil] when there is none. *)
Definition parse_fraction (s : jsstring) : parsed Decimal.uint :=
  match s with
  | c :: r =>
      if N.eqb c 46 then
        let (f, rest) := take_uint r in
        if is_nil f then Bad else Ok f rest
      else Ok Decimal.Nil s
  | [] => Ok Decimal.Nil s
  end.

(** The exponent of a number, 0 when there is none. *)
Definition parse_exponent (s : jsstring) : parsed Z :=
  match s with
  | c :: r =>
      if N.eqb c 101 || N.eqb c 69 then
        let '(neg, r1) :=
          match r with
          | d :: r' => if N.eqb d 45 then (true, r')
                       else if N.eqb d 43 then (false, r') else (false, r)
          | [] => (false, r)
          end in
        let (u, rest) := take_uint r1 in
        if is_nil u then Bad
        else Ok (if neg then - Z.of_N (N.of_uint u) else Z.of_N (N.of_uint u))%Z rest
      else Ok 0%Z s
  | [] => Ok 0%Z s
  end.

(** The minus sign of a number, if it has one, and what follows it. *)
Definition split_sign (s : jsstring) : bool * jsstring :=
  match s with
  | c :: r => if N.eqb c 45 then (true, r) else (false, s)
  | [] => (false, s)
  end.

Definition parse_number (s : jsstring) : parsed number :=
  let (neg, s1) := split_sign s in
  let (u, s2) := take_uint s1 in
  if is_nil u || leading_zero u then Bad
  else
    match parse_fraction s2 with
    | Ok f s3 =>
        match parse_exponent s3 with
        | Ok e rest =>
            let m := Z.of_N (N.of_uint (Decimal.app u f)) in
            Ok (mk_number (if neg then - m else m)
                  (e - Z.of_nat (Decimal.nb_digits f))) rest
        | Bad => Bad
        | NoFuel => NoFuel
        end
    | Bad => Bad
    | NoFuel => NoFuel
    end.

(** [s] without the prefix [lit], when it has it. *)
Fixpoint expect (lit s : jsstring) : option jsstring :=
  match lit, s with
  | [], _ => Some s
  | a :: lit', b :: s' => if N.eqb a b then expect lit' s' else None
  | _ :: _, [] => None
  end.

Definition parse_literal (lit : jsstring) (v : json) (s : jsstring) : parsed json :=
  match expect lit s with
  | Some rest => Ok v rest
  | None => Bad
  end.

(** Values, the elements of an array after its opening bracket, and the
    members of an object after its opening brace. Every call takes one
    unit of fuel; [2 * length s + 1] units are enough for a text [s]. *)
Fixpoint parse_value (fuel : nat) (s : jsstring) {struct fuel} : parsed json :=
  match fuel with
  | O => NoFuel
  | S f =>
      match skip_ws s with
      | [] => Bad
      | c :: r =>
          if N.eqb c QUOTE then
            match parse_string_body r with
            | Ok str rest => Ok (JStr str) rest
            | Bad => Bad
            | NoFuel => NoFuel
            end
          else if N.eqb c 91 then
            match skip_ws r with
            | c' :: r' =>
                if N.eqb c' 93 then Ok (JArr []) r'
                else match parse_elements f r with
                     | Ok vs rest => Ok (JArr vs) rest
                     | Bad => Bad
                     | NoFuel => NoFuel
                     end
            | [] => Bad
            end
          else if N.eqb c 123 then
            match skip_ws r with
            | c' :: r' =>
                if N.eqb c' 125 then Ok (JObj []) r'
                else match parse_members f r with
                     | Ok ms rest =>
                         Ok (JObj (fold_left (fun o kv => define o (fst kv) (snd kv)) ms []))
                            rest
                     | Bad => Bad
                     | NoFuel => NoFuel
                     end
            | [] => Bad
            end
          else if N.eqb c 116 then parse_literal (js "true") (JBool true) (c :: r)
          else if N.eqb c 102 then parse_literal (js "false") (JBool false) (c :: r)
          else if N.eqb c 110 then parse_literal (js "null") JNull (c :: r)
          else
            match parse_number (c :: r) with
            | Ok n rest => Ok (JNum n) rest
            | Bad => Bad
            | NoFuel => NoFuel
            end
      end
  end
with parse_elements (fuel : nat) (s : jsstring) {struct fuel} : parsed (list json) :=
  match fuel with
  | O => NoFuel
  | S f =>
      match parse_value f s with
      | Ok v r1 =>
          match skip_ws r1 with
          | c :: r2 =>
              if N.eqb c 44 then
                match parse_elements f r2 with
                | Ok vs rest => Ok (v :: vs) rest
                | e => e
                end
              else if N.eqb c 93 then Ok [v] r2
              else Bad
          | [] => Bad
          end
      | Bad => Bad
      | NoFuel => NoFuel
      end
  end
with parse_members (fuel : nat) (s : jsstring) {struct fuel}
  : parsed (list (jsstring * json)) :=
  match fuel with
  | O => NoFuel
  | S f =>
      match skip_ws s with
      | c :: r =>
          if N.eqb c QUOTE then
            match parse_string_body r with
            | Ok k r1 =>
                match skip_ws r1 with
                | c1 :: r2 =>
                    if N.eqb c1 58 then
                      match parse_value f r2 with
                      | Ok v r3 =>
                          match skip_ws r3 with
                          | c3 :: r4 =>
                              if N.eqb c3 44 then
                                match parse_members f r4 with
                                | Ok ms rest => Ok ((k, v) :: ms) rest
                                | e => e
                                end
                              else if N.eqb c3 125 then Ok [(k, v)] r4
                              else Bad
                          | [] => Bad
                          end
                      | Bad => Bad
                      | NoFuel => NoFuel
                      end
                    else Bad
                | [] => Bad
                end
            | Bad => Bad
            | NoFuel => NoFuel
            end
          else Bad
      | [] => Bad
      end
  end.

Definition SyntaxError : exn :=
  ErrorObj (js "SyntaxError") None (js "Unexpected token in JSON").

(** [JSON.parse(text)] *)
Definition parse (text : jsstring) : completion exn json :=
  match parse_value (2 * length text + 1) text with
  | Ok v rest => if is_empty (skip_ws rest) then Return v else Throw SyntaxError
  | _ => Throw SyntaxError
  end.

End JSON.

(** ** Conversion to a string

    [String(v)] for a JSON-decoded value, as a template literal and
    [new Error(v)] apply it. An array is joined, its [null] elements as
    empty strings. An object goes through [toString] and [valueOf]: an
    own property [toString] of a decoded object is no function, and the
    inherited [valueOf] returns the object, so that the conversion
    throws; without such a property the inherited [toString] answers. *)

Definition cannot_convert : exn := TypeError (js "Cannot convert object to primitive value").

Fixpoint ToString (v : json) : completion exn jsstring :=
  match v with
  | JNull => Return (js "null")
  | JBool true => Return (js "true")
  | JBool false => Return (js "false")
  | JNum n => Return (Number_toString n)
  | JStr s => Return s
  | JArr l =>
      parts <- (fix elements (l : list json) : completion exn (list jsstring) :=
                  match l with
                  | [] => Return []
                  | x :: r =>
                      p <- match x with JNull => Return [] | _ => ToString x end ;;
                      ps <- elements r ;;
                      Return (p :: ps)
                  end) l ;;
      Return (JSON.join parts)
  | JObj o =>
      match lookup (js "toString") o with
      | Some _ => Throw cannot_convert
      | None => Return (js "[object Object]")
      end
  end.

(** The same for a value that may be [undefined]. *)
Definition String_of (v : option json) : completion exn jsstring :=
  match v with
  | Some j => ToString j
  | None => Return (js "undefined")
  end.

(** ** Dates *)

Definition is_digit (c : N) : bool := ((48 <=? c) && (c <=? 57))%N.

(** The patterns used on dates: a digit, or a given character. *)
Inductive pat : Type :=
| Digit
| Chr (c : N).

(** Does the text start with the pattern? ([^] anchors it, nothing ends it.) *)
Fixpoint starts_with (p : list pat) (s : jsstring) : bool :=
  match p, s with
  | [], _ => true
  | Digit :: p', c :: s' => is_digit c && starts_with p' s'
  | Chr a :: p', c :: s' => N.eqb a c && starts_with p' s'
  | _ :: _, [] => false
  end.

(** [YYYY-MM-DDTHH:mm:ss] *)
Definition date_time_shape : list pat :=
  [Digit; Digit; Digit; Digit; Chr 45; Digit; Digit; Chr 45; Digit; Digit; Chr 84;
   Digit; Digit; Chr 58; Digit; Digit; Chr 58; Digit; Digit]%N.

(** What of [Date] is the engine's own: the offset of local time, and the
    parsing of every text that is not a full date-time of the Date Time
    String Format. *)
Record host : Type := {
  LocalTZA : Z -> Z;
  other_date : jsstring -> option Z
}.

Record date_fields : Type := {
  year : Z; month : Z; day : Z;
  hour : Z; minute : Z; second : Z; millis : Z;
  utc : bool
}.

Definition num (ds : list N) : Z :=
  fold_left (fun a d => (10 * a + (Z.of_N d - 48))%Z) ds 0%Z.

(** [YYYY-MM-DDTHH:mm:ss], then [.sss] or nothing, then [Z] or nothing. *)
Definition date_time_fields (s : jsstring) : option date_fields :=
  if starts_with date_time_shape s then
    match s with
    | y1 :: y2 :: y3 :: y4 :: _ :: mo1 :: mo2 :: _ :: da1 :: da2 :: _
        :: h1 :: h2 :: _ :: mi1 :: mi2 :: _ :: s1 :: s2 :: rest =>
        let mk ms z :=
          Some {| year := num [y1; y2; y3; y4]; month := num [mo1; mo2];
                  day := num [da1; da2]; hour := num [h1; h2];
                  minute := num [mi1; mi2]; second := num [s1; s2];
                  millis := ms; utc := z |} in
        match rest with
        | [] => mk 0%Z false
        | [z] => if N.eqb z 90 then mk 0%Z true else None
        | p :: f1 :: f2 :: f3 :: rest' =>
            if N.eqb p 46 && is_digit f1 && is_digit f2 && is_digit f3 then
              match rest' with
              | [] => mk (num [f1; f2; f3]) false
              | [z] => if N.eqb z 90 then mk (num [f1; f2; f3]) true else None
              | _ => None
              end
            else None
        | _ => None
        end
    | _ => None
    end
  else None.

(** Element values the format allows; 24:00:00 is the end of the day. *)
Definition legal (f : date_fields) : bool :=
  ((1 <=? month f) && (month f <=? 12) && (1 <=? day f) && (day f <=? 31)
   && (minute f <=? 59) && (second f <=? 59)
   && ((hour f <=? 23)
       || ((hour f =? 24) && (minute f =? 0) && (second f =? 0) && (millis f =? 0))))%Z.

(** Days from 1970-01-01 to the first day of month [m] of year [y], plus [d - 1]. *)
Definition days_from_civil (y m d : Z) : Z :=
  (let y' := if m <=? 2 then y - 1 else y in
   let era := y' / 400 in
   let yoe := y' - era * 400 in
   let mp := if 2 <? m then m - 3 else m + 9 in
   let doy := (153 * mp + 2) / 5 + d - 1 in
   let doe := yoe * 365 + yoe / 4 - yoe / 100 + doy in
   era * 146097 + doe - 719468)%Z.

Definition time_of (f : date_fields) : Z :=
  (days_from_civil (year f) (month f) (day f) * 86400000
   + hour f * 3600000 + minute f * 60000 + second f * 1000 + millis f)%Z.

(** The time value of [new Date(text)]; [None] is NaN (an invalid date). *)
Definition Date_parse (h : host) (s : jsstring) : option Z :=
  match date_time_fields s with
  | Some f =>
      if legal f then
        Some (if utc f then time_of f else time_of f - LocalTZA h (time_of f))%Z
      else None
  | None => other_date h s
  end.

(** ** Values on the client: JSON-decoded values, [undefined], dates *)

Unset Elimination Schemes.
Inductive value : Type :=
| VUndefined
| VNull
| VBool (b : bool)
| VNum (n : number)
| VStr (s : jsstring)
| VDate (t : Z)
| VArr (l : list value)
| VObj (o : list (jsstring * value)).
Set Elimination Schemes.

Fixpoint value_of_json (j : json) : value :=
  match j with
  | JNull => VNull
  | JBool b => VBool b
  | JNum n => VNum n
  | JStr s => VStr s
  | JArr l => VArr (map value_of_json l)
  | JObj o => VObj (map (fun kv => (fst kv, value_of_json (snd kv))) o)
  end.

Definition value_of (v : option json) : value :=
  match v with
  | Some j => value_of_json j
  | None => VUndefined
  end.

(** ** The file system, as the state store sees it *)

Record file : Type := {
  content : jsstring;
  mode : N
}.

(** The file at [DAEMON_STATE_FILE], if any, and whether its directory
    can be made and written. *)
Record disk : Type := {
  daemon_json : option file;
  dir_writable : bool
}.

Definition EACCES : exn := ErrorObj (js "Error") (Some (js "EACCES")) (js "permission denied").
Definition ENOENT : exn := ErrorObj (js "Error") (Some (js "ENOENT")) (js "no such file or directory").

(** [fs.mkdir(dir, {recursive: true})] *)
Definition fs_mkdir (d : disk) : completion exn unit :=
  if dir_writable d then Return tt else Throw EACCES.

(** [fs.writeFile(path, data, {mode})]: the mode is that of an existing
    file, and [mode] for a new one. *)
Definition fs_writeFile (d : disk) (data : jsstring) (m : N) : completion exn unit * disk :=
  if dir_writable d then
    (Return tt,
     {| daemon_json :=
          Some {| content := data;
                  mode := match daemon_json d with Some f => mode f | None => m end |};
        dir_writable := true |})
  else (Throw EACCES, d).

Definition fs_readFile (d : disk) : completion exn jsstring :=
  match daemon_json d with
  | Some f => Return (content f)
  | None => Throw ENOENT
  end.

Definition fs_unlink (d : disk) : completion exn unit * disk :=
  match daemon_json d with
  | None => (Throw ENOENT, d)
  | Some _ =>
      if dir_writable d then (Return tt, {| daemon_json := None; dir_writable := true |})
      else (Throw EACCES, d)
  end.

(** ** [crypto.timingSafeEqual] on two buffers *)

Module crypto.

Definition ERR_CRYPTO_TIMING_SAFE_EQUAL_LENGTH : exn :=
  ErrorObj (js "RangeError") (Some (js "ERR_CRYPTO_TIMING_SAFE_EQUAL_LENGTH"))
    (js "Input buffers must have the same byte length").

(** The differences of all the bytes are accumulated; none ends the loop. *)
Definition timingSafeEqual (a b : list N) : completion exn bool :=
  if Nat.eqb (length a) (length b) then
    Return (N.eqb (fold_left (fun acc xy => N.lor acc (N.lxor (fst xy) (snd xy)))
                     (combine a b) 0%N) 0)
  else Throw ERR_CRYPTO_TIMING_SAFE_EQUAL_LENGTH.

End crypto.

(* ------------------------------------------------------------------ *)
(** ** daemon/state.ts                                                 *)
(* ------------------------------------------------------------------ *)

Module state.

Record DaemonState : Type := {
  pid : Z;
  port : Z;
  startedAt : jsstring;
  token : jsstring
}.

(** The object [{pid, port, startedAt, token}] that the daemon builds. *)
Definition object_of (state : DaemonState) : json :=
  JObj [(js "pid", JNum (NInt (pid state))); (js "port", JNum (NInt (port state)));
        (js "startedAt", JStr (startedAt state)); (js "token", JStr (token state))].

Definition is_hex (c : N) : bool :=
  is_digit c || ((97 <=? c) && (c <=? 102))%N.

(** A valid descriptor, in the words of the specification: [pid] an
    integer (one that a JavaScript number holds exactly), [port] an
    integer in (0, 65535], [startedAt] a string, [token] 64 hexadecimal
    characters. *)
Definition valid (v : json) : bool :=
  match get v (js "pid"), get v (js "port"), get v (js "startedAt"), get v (js "token") with
  | Some (JNum (NInt i)), Some (JNum (NInt p)), Some (JStr _), Some (JStr t) =>
      (Z.abs i <? 2 ^ 53)%Z && (0 <? p)%Z && (p <=? 65535)%Z
      && Nat.eqb (length t) 64 && forallb is_hex t
  | _, _, _, _ => false
  end.

Definition writeDaemonState (d : disk) (state : DaemonState) : completion exn unit * disk :=
  match fs_mkdir d with
  | Return _ => fs_writeFile d (JSON.stringify (object_of state)) 384%N
  | Throw e => (Throw e, d)
  end.

(** The error of [unlink] is swallowed. *)
Definition removeDaemonState (d : disk) : disk :=
  snd (fs_unlink d).

End state.

(* ------------------------------------------------------------------ *)
(** ** daemon/index.ts                                                 *)
(* ------------------------------------------------------------------ *)

Module daemon.

(** Constant-time string comparison to prevent timing attacks. *)
Definition timingSafeEqual (a b : jsstring) : completion exn bool :=
  if negb (Nat.eqb (length a) (length b)) then Return false
  else crypto.timingSafeEqual (Buffer_from a) (Buffer_from b).

(** *** JSON-RPC types *)

(** [type RpcRequest = {id: string; method: string; params?: unknown;
    token?: string}] is what the compiler takes a request for. The data
    handler passes [JSON.parse(line) as RpcRequest], a cast that nothing
    checks: a request is whatever value the line holds. *)
Definition RpcRequest : Type := json.

(** [req.id], [req.method], [req.params] and [req.token], for a request
    that is not [null]. *)
Definition id (req : RpcRequest) : option json := get req (js "id").
Definition method (req : RpcRequest) : option json := get req (js "method").
Definition params (req : RpcRequest) : option json := get req (js "params").
Definition token (req : RpcRequest) : option json := get req (js "token").

(** A response carries the [id] of its request, whatever that is. *)
Inductive RpcResponse : Type :=
| Result (id : option json) (result : option json)
| Error (id : option json) (error : jsstring).

Definition response_id (r : RpcResponse) : option json :=
  match r with Result i _ => i | Error i _ => i end.

(** The response object, as [JSON.stringify] sees it. *)
Definition object_of (r : RpcResponse) : json :=
  match r with
  | Result i v => JObj (literal [(js "id", i); (js "result", v)])
  | Error i e => JObj (literal [(js "id", i); (js "error", Some (JStr e))])
  end.

(** [JSON.stringify(resp) + '\n'] *)
Definition line_of (r : RpcResponse) : jsstring :=
  JSON.stringify (object_of r) ++ [LF].

(** *** The Session, from the handler's side *)

(** The operations of the Session that the handler invokes, with the
    arguments it passes ([None] is [undefined]). *)
Inductive session_call : Type :=
| getThreads
| searchThreads (query : json)
| findChatByName (name : option json)
| getMessages (chatId limit : option json)
| sendMessage (chatId text : option json)
| sendFile (chatId filePath : option json) (caption : json)
| replyToMessage (messageId text : option json).

Inductive task : Type :=
| Shutdown.   (* () => { void shutdown(client, server, logger); } *)

(** What an [async] function does, in order: it settles, or awaits an
    operation of the Session and goes on with what that settles to, or
    calls [setImmediate] and goes on, or reads [client.status] and goes on. *)
Inductive prog (A : Type) : Type :=
| Ret (c : completion exn A)
| Await (call : session_call) (k : completion exn (option json) -> prog A)
| SetImmediate (t : task) (k : prog A)
| GetStatus (k : jsstring -> prog A).
Arguments Ret {A} c.
Arguments Await {A} call k.
Arguments SetImmediate {A} t k.
Arguments GetStatus {A} k.

(** [v ?? d] *)
Definition nullish_or (d : json) (v : option json) : json :=
  match v with
  | None => d
  | Some JNull => d
  | Some x => x
  end.

(** [try { const r = await call; return {id, result: f(r)} }
     catch (err) { return {id, error: ...} }] *)
Definition awaiting (i : option json) (call : session_call)
    (f : option json -> option json) : prog RpcResponse :=
  Await call (fun r =>
    match r with
    | Return v => Ret (Return (Result i (f v)))
    | Throw err => Ret (Return (Error i (message_or_string err)))
    end).

(** [default: return {id, error: `Unknown RPC method: ${method}`}],
    inside the [try]: a method that cannot be made a string is answered
    with the message of that failure. *)
Definition unknown (i : option json) (m : option json) : prog RpcResponse :=
  match String_of m with
  | Return name => Ret (Return (Error i (js "Unknown RPC method: " ++ name)))
  | Throw err => Ret (Return (Error i (message_or_string err)))
  end.

Section Handler.

(** Random 32-byte hex token generated once at startup. *)
Variable SECRET_TOKEN : jsstring.

(** What [timingSafeEqual(a, SECRET_TOKEN)] evaluates to for a token
    [a] that is an array of as many elements as the secret has
    characters, or an object with a numeric property [length]: the
    comparison of the lengths, [Buffer.from(a)] and the comparison of
    the bytes are then the engine's and Node's own. *)
Variable array_token : json -> completion exn bool.

(** [timingSafeEqual(token, SECRET_TOKEN)] for the token of a request,
    which is any value that is not falsy. The lengths differ, and the
    answer is [false], for a number, for [true] and for an object
    without a property [length], whose [length] is [undefined], and for
    an array of another number of elements. *)
Definition token_matches (a : json) : completion exn bool :=
  match a with
  | JStr s => timingSafeEqual s SECRET_TOKEN
  | JArr l =>
      if negb (Nat.eqb (length l) (length SECRET_TOKEN)) then Return false
      else array_token a
  | JObj o =>
      match lookup (js "length") o with
      | Some (JNum _) => array_token a
      | _ => Return false
      end
  | _ => Return false
  end.

(** The [switch] over [method], inside the [try]. *)
Definition dispatch (req : RpcRequest) : prog RpcResponse :=
  let i := id req in
  let p := nullish_or (JObj []) (params req) in
  match method req with
  | Some (JStr m) =>
      if jsstring_eqb m (js "ping") then Ret (Return (Result i (Some (JStr (js "pong")))))
      else if jsstring_eqb m (js "getStatus") then
        GetStatus (fun st => Ret (Return (Result i (Some (JStr st)))))
      else if jsstring_eqb m (js "getThreads") then awaiting i getThreads (fun v => v)
      else if jsstring_eqb m (js "searchThreads") then
        awaiting i (searchThreads (nullish_or (JStr []) (get p (js "query")))) (fun v => v)
      else if jsstring_eqb m (js "findChatByName") then
        awaiting i (findChatByName (get p (js "name"))) (fun v => Some (nullish_or JNull v))
      else if jsstring_eqb m (js "getMessages") then
        awaiting i (getMessages (get p (js "chatId")) (get p (js "limit"))) (fun v => v)
      else if jsstring_eqb m (js "sendMessage") then
        awaiting i (sendMessage (get p (js "chatId")) (get p (js "text")))
          (fun _ => Some JNull)
      else if jsstring_eqb m (js "sendFile") then
        awaiting i (sendFile (get p (js "chatId")) (get p (js "filePath"))
                      (nullish_or (JStr []) (get p (js "caption"))))
          (fun _ => Some JNull)
      else if jsstring_eqb m (js "replyToMessage") then
        awaiting i (replyToMessage (get p (js "messageId")) (get p (js "text")))
          (fun _ => Some JNull)
      else if jsstring_eqb m (js "stop") then
        (* Respond first, then shut down asynchronously *)
        SetImmediate Shutdown (Ret (Return (Result i (Some (JStr (js "stopping"))))))
      else unknown i (Some (JStr m))
  | other => unknown i other
  end.

(** [const {id, method, params, token} = req] throws for a request
    that is [null], and the promise of the handler is rejected. *)
Definition cannot_destructure : exn :=
  TypeError (jsq "Cannot destructure property 'id' of 'req' as it is null.").

Definition handleRequest (req : RpcRequest) : prog RpcResponse :=
  match req with
  | JNull => Ret (Throw cannot_destructure)
  | _ =>
      (* Reject any caller that does not present the correct token. *)
      match token req with
      | None => Ret (Return (Error (id req) (js "Unauthorized")))
      | Some t =>
          if negb (truthy (Some t)) then Ret (Return (Error (id req) (js "Unauthorized")))
          else
            match token_matches t with
            | Throw err => Ret (Throw err)
            | Return false => Ret (Return (Error (id req) (js "Unauthorized")))
            | Return true => dispatch req
            end
      end
  end.

(** *** The process *)

Inductive action : Type :=
| Handle (req : RpcRequest)        (* handleRequest(client, server, req) *)
| Call (c : session_call)          (* client.<operation>(...) *)
| Immediate (t : task)             (* setImmediate(...) *)
| Write (line : jsstring)          (* socket.write(line) *)
| LogInfo                          (* log.info('Daemon shutting down...') *)
| ServerClose                      (* server.close() *)
| ClientDestroy                    (* client.destroy() *)
| RemoveDaemonState                (* removeDaemonState() *)
| ProcessExit (code : Z).          (* process.exit(code) *)

Definition continuation : Type := completion exn (option json) -> prog RpcResponse.

(** The daemon while it serves one connection: the Session and the
    listener, the file system, the callbacks that [setImmediate]
    queued, the connection's buffer and socket, the handlers that
    await the Session, and what the process has done so far. *)
Record process : Type := {
  status : jsstring;
  listening : bool;
  session_alive : bool;
  files : disk;
  exit_code : option Z;
  immediates : list task;
  buf : jsstring;
  destroyed : bool;
  pending : list (RpcRequest * continuation);
  journal : list action
}.

Definition log (a : list action) (s : process) : process :=
  {| status := status s; listening := listening s; session_alive := session_alive s;
     files := files s; exit_code := exit_code s; immediates := immediates s;
     buf := buf s; destroyed := destroyed s; pending := pending s;
     journal := journal s ++ a |}.

Definition set_buf (b : jsstring) (s : process) : process :=
  {| status := status s; listening := listening s; session_alive := session_alive s;
     files := files s; exit_code := exit_code s; immediates := immediates s;
     buf := b; destroyed := destroyed s; pending := pending s;
     journal := journal s |}.

Definition set_pending (p : list (RpcRequest * continuation)) (s : process) : process :=
  {| status := status s; listening := listening s; session_alive := session_alive s;
     files := files s; exit_code := exit_code s; immediates := immediates s;
     buf := buf s; destroyed := destroyed s; pending := p;
     journal := journal s |}.

Definition set_immediates (l : list task) (s : process) : process :=
  {| status := status s; listening := listening s; session_alive := session_alive s;
     files := files s; exit_code := exit_code s; immediates := l;
     buf := buf s; destroyed := destroyed s; pending := pending s;
     journal := journal s |}.

Definition set_destroyed (s : process) : process :=
  {| status := status s; listening := listening s; session_alive := session_alive s;
     files := files s; exit_code := exit_code s; immediates := immediates s;
     buf := buf s; destroyed := true; pending := pending s;
     journal := journal s |}.

(** [shutdown(client, server, log)]; its awaits are not interleaved
    with other events. *)
Definition shutdown (s : process) : process :=
  {| status := status s; listening := false; session_alive := false;
     files := state.removeDaemonState (files s); exit_code := Some 0%Z;
     immediates := immediates s; buf := buf s; destroyed := destroyed s;
     pending := pending s;
     journal := journal s ++ [LogInfo; ServerClose; ClientDestroy; RemoveDaemonState;
                              ProcessExit 0] |}.

(** A rejected promise that nothing handles ends the process with exit
    code 1, when the callbacks of the turn have run: the listener and
    the Session go with the process, nothing is closed or removed. *)
Definition unhandled_rejection (s : process) : process :=
  {| status := status s; listening := listening s; session_alive := session_alive s;
     files := files s; exit_code := Some 1%Z; immediates := immediates s;
     buf := buf s; destroyed := destroyed s; pending := pending s;
     journal := journal s |}.

(** A handler runs until it settles ([Some]) or awaits the Session
    ([None]): the operation is invoked, the rest of the handler waits. *)
Fixpoint run (req : RpcRequest) (p : prog RpcResponse) (s : process)
  : process * option (completion exn RpcResponse) :=
  match p with
  | Ret c => (s, Some c)
  | Await call k =>
      (set_pending (pending s ++ [(req, k)]) (log [Call call] s), None)
  | SetImmediate t k =>
      run req k (set_immediates (immediates s ++ [t]) (log [Immediate t] s))
  | GetStatus k => run req (k (status s)) s
  end.

(** What [.then(resp => ...)] and [.catch(err => ...)] of the data
    handler write, for a request that is not [null]. *)
Definition reply (req : RpcRequest) (c : completion exn RpcResponse) : RpcResponse :=
  match c with
  | Return resp => resp
  | Throw err => Error (id req) (String_of_exn err)
  end.

(** The two callbacks. In [catch], [req.id] throws for a request that
    is [null]: the rejection that this makes is handled by nothing. *)
Definition respond (req : RpcRequest) (c : completion exn RpcResponse) (s : process)
  : process :=
  if destroyed s then s
  else
    match req, c with
    | JNull, Throw _ => unhandled_rejection s
    | _, _ => log [Write (line_of (reply req c))] s
    end.

Definition is_fulfilled {A : Type} (c : completion exn A) : bool :=
  match c with Return _ => true | Throw _ => false end.

(** The body of the loop over the complete lines. [settled] collects
    the handlers that settled without awaiting: their callbacks run
    when the data handler has returned. *)
Definition on_line (acc : process * list (RpcRequest * completion exn RpcResponse))
    (line : jsstring) : process * list (RpcRequest * completion exn RpcResponse) :=
  let (s, settled) := acc in
  if is_empty (trim line) then acc
  else
    match JSON.parse line with
    | Throw _ =>
        (log [Write (line_of (Error (Some (JStr (js "?"))) (js "Invalid JSON")))] s,
         settled)
    | Return req =>
        match run req (handleRequest req) (log [Handle req] s) with
        | (s', Some c) => (s', settled ++ [(req, c)])
        | (s', None) => (s', settled)
        end
    end.

(** The callbacks of the settled handlers: those of the fulfilled
    promises first, a rejection reaches its [catch] one step later. *)
Definition drain (settled : list (RpcRequest * completion exn RpcResponse))
    (s : process) : process :=
  fold_left (fun s rc => respond (fst rc) (snd rc) s)
    (filter (fun rc => is_fulfilled (snd rc)) settled
     ++ filter (fun rc => negb (is_fulfilled (snd rc))) settled) s.

(** [socket.on('data', chunk => ...)] *)
Definition on_data (s : process) (chunk : jsstring) : process :=
  let (lines, last) := pop (split_nl (buf s ++ chunk)) in
  let s1 := set_buf (match last with Some l => l | None => [] end) s in
  let (s2, settled) := fold_left on_line lines (s1, []) in
  drain settled s2.

Fixpoint remove_nth {A : Type} (n : nat) (l : list A) : list A :=
  match n, l with
  | _, [] => []
  | O, _ :: r => r
  | S n', x :: r => x :: remove_nth n' r
  end.

(** What happens to the process. *)
Inductive input : Type :=
| Data (chunk : jsstring)          (* a chunk arrives on the connection *)
| Settle (n : nat) (r : completion exn (option json))
                                   (* the n-th awaited operation settles *)
| Check                            (* the setImmediate callbacks run *)
| Signal                           (* SIGTERM or SIGINT *)
| Close.                           (* the connection is gone *)

Definition step (s : process) (i : input) : process :=
  match exit_code s with
  | Some _ => s
  | None =>
      match i with
      | Data chunk => if destroyed s then s else on_data s chunk
      | Settle n r =>
          match nth_error (pending s) n with
          | Some (req, k) =>
              match run req (k r) (set_pending (remove_nth n (pending s)) s) with
              | (s', Some c) => respond req c s'
              | (s', None) => s'
              end
          | None => s
          end
      | Check =>
          match immediates s with
          | [] => s
          | Shutdown :: rest => shutdown (set_immediates rest s)
          end
      | Signal => shutdown s
      | Close => set_destroyed s
      end
  end.

Definition steps (s : process) (l : list input) : process := fold_left step l s.

(** The lines written on the connection, and the requests handled. *)
Fixpoint written (j : list action) : list jsstring :=
  match j with
  | [] => []
  | Write l :: r => l :: written r
  | _ :: r => written r
  end.

Fixpoint handled (j : list action) : list RpcRequest :=
  match j with
  | [] => []
  | Handle req :: r => req :: handled r
  | _ :: r => handled r
  end.

End Handler.

End daemon.

(* ------------------------------------------------------------------ *)
(** ** utils/ipc.ts                                                    *)
(* ------------------------------------------------------------------ *)

Module ipc.

(** *** State file helpers *)

(** The value read, cast to [DaemonState | null]. *)
Definition readDaemonState (d : disk) : completion exn json :=
  try_catch
    (raw <- fs_readFile d ;;
     JSON.parse raw)
    (fun _ => Return JNull).

(** *** Date revival *)

(** [/^\d{4}-\d{2}-\d{2}T\d{2}:\d{2}:\d{2}/] *)
Definition ISO_RE : list pat :=
  [Digit; Digit; Digit; Digit; Chr 45; Digit; Digit; Chr 45; Digit; Digit; Chr 84;
   Digit; Digit; Chr 58; Digit; Digit; Chr 58; Digit; Digit]%N.

Definition ISO_RE_test (s : jsstring) : bool := starts_with ISO_RE s.

(** [out[k] = v] on an object made by an object literal. The key
    [__proto__] reaches the setter of [Object.prototype], which makes no
    own property (the prototype it may change is not represented). *)
Definition assign (out : list (jsstring * value)) (k : jsstring) (v : value)
  : list (jsstring * value) :=
  if jsstring_eqb k (js "__proto__") then out else define out k v.

Section Client.

Variable h : host.

Fixpoint reviveDates (v : value) : value :=
  match v with
  | VStr s =>
      if ISO_RE_test s then
        match Date_parse h s with
        | Some d => VDate d
        | None => v
        end
      else v
  | VArr l => VArr (map reviveDates l)
  | VObj o =>
      VObj (fold_left (fun out kv => assign out (fst kv) (reviveDates (snd kv))) o [])
  | VDate _ => VObj []
  | _ => v
  end.

(** *** Low-level TCP call *)

(** What connecting to a port gives: an error, or a peer. The peer is
    given by the chunks that arrive after a request was written and
    before the time is up, and by whether the socket is then closed. *)
Inductive endpoint : Type :=
| Refused (err : exn)
| Connected (peer : jsstring -> Z -> list jsstring * bool).

(** The endpoint behind each value of [port]. *)
Variable net : option json -> endpoint.

(** [resp.id === id], inside the [try]: a response that is [null]
    throws and is skipped like one that does not parse. *)
Definition answers (id : jsstring) (line : jsstring) : option json :=
  if is_empty (trim line) then None
  else
    match JSON.parse line with
    | Return resp =>
        match get resp (js "id") with
        | Some (JStr i) => if jsstring_eqb i id then Some resp else None
        | _ => None
        end
    | Throw _ => None
    end.

(** The data handler over the chunks: the first line that answers. *)
Fixpoint scan (id : jsstring) (buf : jsstring) (chunks : list jsstring) : option json :=
  match chunks with
  | [] => None
  | chunk :: rest =>
      let (lines, last) := pop (split_nl (buf ++ chunk)) in
      match find (fun l => match answers id l with Some _ => true | None => false end)
              lines with
      | Some l => answers id l
      | None => scan id (match last with Some b => b | None => [] end) rest
      end
  end.

Definition digits_of_Z (z : Z) : jsstring := sign_of z ++ digits_of_N (Z.abs_N z).

(** [JSON.stringify({id, method, params, token}) + '\n'] *)
Definition request_line (id : jsstring) (token : option json) (method : jsstring)
    (params : option json) : jsstring :=
  JSON.stringify
    (JObj (literal [(js "id", Some (JStr id)); (js "method", Some (JStr method));
                    (js "params", params); (js "token", token)])) ++ [LF].

(** The answer settles the promise: [finish(() => { if (resp.error)
    reject(new Error(resp.error)); else resolve(reviveDates(resp.result)) })].
    [new Error(v)] makes a string of [v]. When that throws, the [catch]
    of the data handler swallows it; [finish] has then cleared the timer
    and lets no later event in, so that the promise stays pending. *)
Definition settle (resp : json) : promise exn value :=
  match get resp (js "error") with
  | Some e =>
      if truthy (Some e) then
        match ToString e with
        | Return message => Settled (Throw (new_Error message))
        | Throw _ => Pending
        end
      else Settled (Return (reviveDates (value_of (get resp (js "result")))))
  | None => Settled (Return (reviveDates (value_of (get resp (js "result")))))
  end.

Definition closed_early (method : jsstring) : exn :=
  new_Error (jsq "Socket closed before response for '" ++ method ++ jsq "'").

Definition timed_out (method : jsstring) (timeoutMs : Z) : exn :=
  new_Error (jsq "IPC call '" ++ method ++ jsq "' timed out after "
               ++ digits_of_Z timeoutMs ++ js " ms").

(** The request line that was written, if the socket connected, and
    what the promise comes to. [id] is the random id of the call. *)
Definition callPort (id : jsstring) (port token : option json) (method : jsstring)
    (params : option json) (timeoutMs : Z) : list jsstring * promise exn value :=
  match net port with
  | Refused err => ([], Settled (Throw err))
  | Connected peer =>
      let request := request_line id token method params in
      let (chunks, closed) := peer request timeoutMs in
      ([request],
       match scan id [] chunks with
       | Some resp => settle resp
       | None =>
           Settled (Throw (if closed then closed_early method
                           else timed_out method timeoutMs))
       end)
  end.

(** *** IpcClient: mirrors the WhatsAppClient public API *)

Record IpcClient : Type := {
  port : option json;
  token : option json
}.

Definition rpc (c : IpcClient) (id method : jsstring) (params : option json)
    (timeoutMs : option Z) : list jsstring * promise exn value :=
  callPort id (port c) (token c) method params
    (match timeoutMs with Some t => t | None => 30000%Z end).

Definition getThreads (c : IpcClient) (id : jsstring) :=
  rpc c id (js "getThreads") None (Some 60000%Z).

Definition searchThreads (c : IpcClient) (id : jsstring) (query : json) :=
  rpc c id (js "searchThreads") (Some (JObj [(js "query", query)])) None.

Definition findChatByName (c : IpcClient) (id : jsstring) (name : json) :=
  let (sent, r) := rpc c id (js "findChatByName") (Some (JObj [(js "name", name)])) None in
  (sent, match r with
         | Settled (Return VNull) => Settled (Return VUndefined)
         | other => other
         end).

Definition getMessages (c : IpcClient) (id : jsstring) (chatId : json)
    (limit : option json) :=
  rpc c id (js "getMessages")
    (Some (JObj (literal [(js "chatId", Some chatId); (js "limit", limit)])))
    (Some 60000%Z).

Definition discard (r : list jsstring * promise exn value) :=
  (fst r, match snd r with
          | Settled (Return _) => Settled (Return VUndefined)
          | other => other
          end).

Definition sendMessage (c : IpcClient) (id : jsstring) (chatId text : json) :=
  discard (rpc c id (js "sendMessage")
             (Some (JObj [(js "chatId", chatId); (js "text", text)])) None).

Definition sendFile (c : IpcClient) (id : jsstring) (chatId filePath caption : json) :=
  discard (rpc c id (js "sendFile")
             (Some (JObj [(js "chatId", chatId); (js "filePath", filePath);
                          (js "caption", caption)])) (Some 60000%Z)).

Definition replyToMessage (c : IpcClient) (id : jsstring) (messageId text : json) :=
  discard (rpc c id (js "replyToMessage")
             (Some (JObj [(js "messageId", messageId); (js "text", text)])) None).

(** No-op: the daemon connection is kept alive for reuse. *)
Definition destroy (c : IpcClient) : list jsstring * completion exn value :=
  ([], Return VUndefined).

(** *** Main export *)

Definition tryConnectDaemon (d : disk) (id : jsstring)
  : list jsstring * promise exn (option IpcClient) :=
  match readDaemonState d with
  | Throw err => ([], Settled (Throw err))
  | Return state =>
      if negb (truthy (Some state)) then ([], Settled (Return None))
      else
        let (sent, r) :=
          callPort id (get state (js "port")) (get state (js "token")) (js "ping")
            None 1500%Z in
        (sent,
         match r with
         | Settled (Return _) =>
             Settled (Return (Some {| port := get state (js "port");
                                      token := get state (js "token") |}))
         | Settled (Throw _) => Settled (Return None)
         | Pending => Pending
         end)
  end.

End Client.

End ipc.

(* ------------------------------------------------------------------ *)
(** ** utils/connect.ts                                                *)
(* ------------------------------------------------------------------ *)

Module connect.

(** Either a live WhatsAppClient (direct Puppeteer) or an IpcClient
    (proxy to the running daemon). *)
Inductive ClientHandle : Type :=
| Private                         (* the WhatsAppClient made by the slow path *)
| Proxy (c : ipc.IpcClient).

(** What the new Session does after [initialize()] is called, in order
    of time; [Timer] is the 90 s timer. *)
Inductive session_event : Type :=
| Qr
| Ready
| ErrorEvent (err : exn)
| InitializeRejected (err : exn)
| Timer
| Other.                          (* any event that nothing listens to *)

Definition timed_out : exn :=
  new_Error (js "Timed out waiting for WhatsApp (90 s). Is your phone connected?").

Definition not_logged_in : exn :=
  new_Error (js "Not logged in. Run:  whatsapp-cli auth login").

(** The promise of the slow path settles on the first of these; a
    Session that stays silent is ended by the timer. *)
Fixpoint boot (events : list session_event) : completion exn unit :=
  match events with
  | [] => Throw timed_out
  | Qr :: _ => Throw not_logged_in
  | Ready :: _ => Return tt
  | ErrorEvent err :: _ =>
      Throw (match err with
             | ErrorObj _ _ _ => err
             | Thrown t => new_Error t
             end)
  | InitializeRejected err :: _ => Throw err
  | Timer :: _ => Throw timed_out
  | Other :: rest => boot rest
  end.

Section Connect.

Variable h : host.
Variable net : option json -> ipc.endpoint.

Definition connectClient (d : disk) (id : jsstring) (session : list session_event)
  : promise exn ClientHandle :=
  (* Fast path: reuse an already-running daemon *)
  match snd (ipc.tryConnectDaemon h net d id) with
  | Pending => Pending
  | Settled (Throw err) => Settled (Throw err)
  | Settled (Return (Some c)) => Settled (Return (Proxy c))
  | Settled (Return None) =>
      (* Slow path: boot a fresh WhatsApp client *)
      Settled (_ <- boot session ;;
               Return Private)
  end.

End Connect.

End connect.

(* ------------------------------------------------------------------ *)
(** ** commands/chats.tsx: the cleanup of a command                    *)
(* ------------------------------------------------------------------ *)

Module chats.

(** [finally { client?.destroy().catch(() => {}) }]: the request lines
    that go to the daemon, and whether a Session of this process is
    destroyed. *)
Definition cleanup (client : option connect.ClientHandle) : list jsstring * bool :=
  match client with
  | None => ([], false)
  | Some connect.Private => ([], true)
  | Some (connect.Proxy c) => (fst (ipc.destroy c), false)
  end.

End chats.

(* ------------------------------------------------------------------ *)
(** ** The loopback connection between a client and the daemon         *)
(* ------------------------------------------------------------------ *)

Module loopback.

Section Loopback.

Variable SECRET_TOKEN : jsstring.
Variable array_token : json -> completion exn bool.

(** A new connection to the daemon: its own buffer and socket. *)
Definition accept (p : daemon.process) : daemon.process :=
  {| daemon.status := daemon.status p; daemon.listening := daemon.listening p;
     daemon.session_alive := daemon.session_alive p; daemon.files := daemon.files p;
     daemon.exit_code := daemon.exit_code p; daemon.immediates := daemon.immediates p;
     daemon.buf := []; daemon.destroyed := false; daemon.pending := daemon.pending p;
     daemon.journal := daemon.journal p |}.

(** The request lines of a client reach the daemon, each on a
    connection of its own. *)
Definition deliver (sent : list jsstring) (p : daemon.process) : daemon.process :=
  fold_left (fun p line => daemon.step SECRET_TOKEN array_token (accept p) (daemon.Data line))
    sent p.

(** The daemon as the peer of [callPort]: what it writes back in the
    turn in which the request arrives. *)
Definition peer_of (p : daemon.process) : ipc.endpoint :=
  ipc.Connected (fun request _ =>
    (skipn (length (daemon.written (daemon.journal p)))
       (daemon.written (daemon.journal (deliver [request] p))),
     false)).

(** The daemon listens on the port of its state file; nothing else
    listens anywhere. *)
Definition ECONNREFUSED : exn :=
  ErrorObj (js "Error") (Some (js "ECONNREFUSED")) (js "connect ECONNREFUSED").

Definition only (port : Z) (p : daemon.process) (v : option json) : ipc.endpoint :=
  match v with
  | Some (JNum (NInt q)) =>
      if (q =? port)%Z && daemon.listening p
         && match daemon.exit_code p with None => true | Some _ => false end
      then peer_of p else ipc.Refused ECONNREFUSED
  | _ => ipc.Refused ECONNREFUSED
  end.

End Loopback.

End loopback.

(* ------------------------------------------------------------------ *)
(** ** The vocabulary of the properties                                *)
(* ------------------------------------------------------------------ *)

Unset Implicit Arguments.

(** *** Texts and lines *)

(** The text of a sequence of lines, each ended by a line feed. *)
Definition stream_of (lines : list jsstring) : jsstring :=
  concat (map (fun l => l ++ [LF]) lines).

(** No line feed in a text. *)
Definition one_line (s : jsstring) : Prop := Forall (fun c => c <> LF) s.

(** A character that ends a number: not a digit, no [.], [e] or [E]. *)
Definition ends_number (rest : jsstring) : Prop :=
  match rest with
  | [] => True
  | c :: _ => digit_of_char c = None /\ c <> 46%N /\ c <> 101%N /\ c <> 69%N
  end.

(** *** The connection and the process *)

(** The listener, the Session, the state file and the exit code. *)
Definition vitals (s : daemon.process) : bool * bool * disk * option Z :=
  (daemon.listening s, daemon.session_alive s, daemon.files s, daemon.exit_code s).

(** No handler of a request that is [null] waits for the Session: such
    a handler settles at once, at the destructuring. *)
Definition no_null_pending (s : daemon.process) : Prop :=
  Forall (fun rk => fst rk <> JNull) (daemon.pending s).

(** A line of the wire that holds a request: no line feed inside, and
    the text of a JSON value other than [null]. *)
Definition request_line (line : jsstring) (req : daemon.RpcRequest) : Prop :=
  ~ In LF line /\ JSON.parse line = Return req /\ req <> JNull.

(** The chunks that a schedule delivers, in order. *)
Fixpoint chunks_of (evs : list daemon.input) : list jsstring :=
  match evs with
  | [] => []
  | daemon.Data chunk :: r => chunk :: chunks_of r
  | _ :: r => chunks_of r
  end.

(** A handler that answers with the id [i] however the Session settles:
    it returns a response with that id, or throws (and the data handler
    writes the error under the id of the request). *)
Inductive answering (i : option json) : daemon.prog daemon.RpcResponse -> Prop :=
| answering_return (r : daemon.RpcResponse) :
    daemon.response_id r = i -> answering i (daemon.Ret (Return r))
| answering_throw (e : exn) : answering i (daemon.Ret (Throw e))
| answering_await (call : daemon.session_call) (k : daemon.continuation) :
    (forall r, answering i (k r)) -> answering i (daemon.Await call k)
| answering_immediate (t : daemon.task) (k : daemon.prog daemon.RpcResponse) :
    answering i k -> answering i (daemon.SetImmediate t k)
| answering_status (k : jsstring -> daemon.prog daemon.RpcResponse) :
    (forall st, answering i (k st)) -> answering i (daemon.GetStatus k).

(** A request that waits for the Session, with a continuation that
    answers under its id. *)
Definition pending_ok (p : daemon.RpcRequest * daemon.continuation) : Prop :=
  fst p <> JNull /\ forall r, answering (daemon.id (fst p)) (snd p r).

(** The fields that a handler leaves alone while it runs. *)
Definition same_connection (s s' : daemon.process) : Prop :=
  daemon.written (daemon.journal s') = daemon.written (daemon.journal s)
  /\ daemon.handled (daemon.journal s') = daemon.handled (daemon.journal s)
  /\ daemon.buf s' = daemon.buf s
  /\ daemon.destroyed s' = daemon.destroyed s
  /\ daemon.exit_code s' = daemon.exit_code s.

(** The response written for a request carries the id of the request,
    whether the handler returned or threw. *)
Definition answered (rc : daemon.RpcRequest * completion exn daemon.RpcResponse) : Prop :=
  fst rc <> JNull
  /\ daemon.response_id (daemon.reply (fst rc) (snd rc)) = daemon.id (fst rc).

(** A request with the response that was written for it. *)
Definition linked (d : daemon.RpcRequest * daemon.RpcResponse) : Prop :=
  daemon.response_id (snd d) = daemon.id (fst d).

(** A request with the response that the data handler writes for the
    completion of its handler. *)
Definition replied (rc : daemon.RpcRequest * completion exn daemon.RpcResponse)
  : daemon.RpcRequest * daemon.RpcResponse :=
  (fst rc, daemon.reply (fst rc) (snd rc)).

(** *** The client *)

(** A key other than [__proto__], the one key that an assignment does
    not define. *)
Definition not_proto (kv : jsstring * value) : bool :=
  negb (jsstring_eqb (fst kv) (js "__proto__")).

(** The client that [tryConnectDaemon] makes from a parsed state. *)
Definition client_of (state : json) : ipc.IpcClient :=
  {| ipc.port := get state (js "port"); ipc.token := get state (js "token") |}.

(** The liveness probe: a [ping] to the stored port with the stored token. *)
Definition ping (h : host) (net : option json -> ipc.endpoint) (state : json)
    (id : jsstring) : promise exn value :=
  snd (ipc.callPort h net id (get state (js "port")) (get state (js "token"))
         (js "ping") None 1500%Z).

(** A host in UTC whose [Date] knows the ISO format only. *)
Definition utc_host : host := {| LocalTZA := fun _ => 0%Z; other_date := fun _ => None |}.

(** *** The processes, requests and files of the examples *)

(** A token as [crypto.randomBytes(32).toString('hex')] makes them:
    64 hexadecimal digits. *)
Definition example_secret : jsstring :=
  js "0123456789abcdef0123456789abcdef0123456789abcdef0123456789abcdef".

(** A Node on which no array and no array-like object compares equal to
    the secret. *)
Definition no_array_token (a : json) : completion exn bool := Return false.

(** A daemon that serves, with an empty buffer and nothing pending. *)
Definition example_process : daemon.process :=
  {| daemon.status := js "ready"; daemon.listening := true; daemon.session_alive := true;
     daemon.files := {| daemon_json := None; dir_writable := true |};
     daemon.exit_code := None; daemon.immediates := [];
     daemon.buf := []; daemon.destroyed := false; daemon.pending := [];
     daemon.journal := [] |}.

(** A daemon that listens on port 50123 with [example_secret], and the
    state file it wrote. *)
Definition example_state : state.DaemonState :=
  {| state.pid := 4242; state.port := 50123;
     state.startedAt := js "2024-01-01T00:00:00.000Z"; state.token := example_secret |}.

Definition example_disk : disk :=
  snd (state.writeDaemonState {| daemon_json := None; dir_writable := true |} example_state).

Definition example_daemon : daemon.process :=
  {| daemon.status := js "ready"; daemon.listening := true; daemon.session_alive := true;
     daemon.files := example_disk; daemon.exit_code := None; daemon.immediates := [];
     daemon.buf := []; daemon.destroyed := false; daemon.pending := [];
     daemon.journal := [] |}.

(** [é] and 63 times [a]: 64 code units, 65 bytes of UTF-8. *)
Definition odd_token : jsstring := 233%N :: repeat 97%N 63.

(** A [ping] that presents [odd_token], and its line on the wire. *)
Definition odd_request : daemon.RpcRequest :=
  JObj [(js "id", JStr (js "1")); (js "method", JStr (js "ping"));
        (js "token", JStr odd_token)].

Definition odd_line : jsstring :=
  jsq "{'id':'1','method':'ping','token':'" ++ odd_token ++ jsq "'}".

(** An authenticated [stop], as a line and as a request. *)
Definition stop_line : jsstring :=
  jsq "{'id':'7','method':'stop','token':'" ++ example_secret ++ jsq "'}".

Definition stop_request : daemon.RpcRequest :=
  JObj [(js "id", JStr (js "7")); (js "method", JStr (js "stop"));
        (js "token", JStr example_secret)].

(** Two requests, the first of which waits for the Session, cut into
    three chunks; the Session settles between the last two chunks. *)
Definition example_lines : list jsstring :=
  [jsq "{'id':'a','method':'getThreads','token':'" ++ example_secret ++ jsq "'}";
   jsq "{'id':'b','method':'ping','token':'" ++ example_secret ++ jsq "'}"].

Definition example_requests : list daemon.RpcRequest :=
  [JObj [(js "id", JStr (js "a")); (js "method", JStr (js "getThreads"));
         (js "token", JStr example_secret)];
   JObj [(js "id", JStr (js "b")); (js "method", JStr (js "ping"));
         (js "token", JStr example_secret)]].

Definition example_schedule : list daemon.input :=
  [daemon.Data (firstn 30 (stream_of example_lines));
   daemon.Data (firstn 150 (skipn 30 (stream_of example_lines)));
   daemon.Settle 0 (Return (Some (JArr [])));
   daemon.Data (skipn 180 (stream_of example_lines))].

(** *** The handler *)

(** The methods that [handleRequest] knows. *)
Definition methods : list jsstring :=
  [js "ping"; js "getStatus"; js "getThreads"; js "searchThreads"; js "findChatByName";
   js "getMessages"; js "sendMessage"; js "sendFile"; js "replyToMessage"; js "stop"].

(** What an [async] function can settle to, over all that the Session
    may answer and every status it may have. *)
Inductive outcome {A : Type} : daemon.prog A -> completion exn A -> Prop :=
| outcome_ret (c : completion exn A) : outcome (daemon.Ret c) c
| outcome_await (call : daemon.session_call)
    (k : completion exn (option json) -> daemon.prog A)
    (r : completion exn (option json)) (c : completion exn A) :
    outcome (k r) c -> outcome (daemon.Await call k) c
| outcome_immediate (t : daemon.task) (k : daemon.prog A) (c : completion exn A) :
    outcome k c -> outcome (daemon.SetImmediate t k) c
| outcome_status (k : jsstring -> daemon.prog A) (st : jsstring) (c : completion exn A) :
    outcome (k st) c -> outcome (daemon.GetStatus k) c.

(** The line that answers a line that is no JSON. *)
Definition invalid_json_line : jsstring :=
  jsq "{'id':'?','error':'Invalid JSON'}" ++ [LF].

(** A line that the data handler cannot read as a request: blank, or
    not a JSON text. *)
Definition garbage (line : jsstring) : Prop :=
  ~ In LF line
  /\ (is_empty (trim line) = true \/ exists e, JSON.parse line = Throw e).

(** [line.trim()] is not empty. *)
Definition not_blank (line : jsstring) : bool := negb (is_empty (trim line)).

(** The first of the lines that answers the call [id], parsed. *)
Definition first_answer (id : jsstring) (lines : list jsstring) : option json :=
  match find (fun l => match ipc.answers id l with Some _ => true | None => false end)
          lines with
  | Some l => ipc.answers id l
  | None => None
  end.

(** The complete lines of a text: what [split] gives, without the
    piece after the last line feed. *)
Definition complete_lines (text : jsstring) : list jsstring :=
  removelast (split_nl text).

(** *** Values on the wire *)

(** The values that the model of [JSON.stringify] and [JSON.parse]
    carries exactly: integers that a JavaScript number holds exactly,
    strings, booleans, [null], and arrays and objects of such values.
    An object is the list of its properties in the order of enumeration,
    so no key comes twice. *)
Unset Elimination Schemes.
Inductive plain : json -> Prop :=
| plain_null : plain JNull
| plain_bool (b : bool) : plain (JBool b)
| plain_int (z : Z) : (Z.abs z < 2 ^ 53)%Z -> plain (JNum (NInt z))
| plain_str (s : jsstring) : plain (JStr s)
| plain_arr (l : list json) : Forall plain l -> plain (JArr l)
| plain_obj (o : list (jsstring * json)) :
    NoDup (map fst o) -> Forall (fun kv => plain (snd kv)) o -> plain (JObj o).
Set Elimination Schemes.

(** The calls that the parser makes on the text of a value. *)
Fixpoint weight (v : json) : nat :=
  match v with
  | JArr l => S (list_sum (map (fun x => S (weight x)) l))
  | JObj o => S (list_sum (map (fun kv => S (weight (snd kv))) o))
  | _ => 1
  end.

(** [key: value], as [JSON.stringify] writes a property. *)
Definition member (kv : jsstring * json) : jsstring :=
  JSON.quote (fst kv) ++ 58%N :: JSON.stringify (snd kv).

(* ------------------------------------------------------------------ *)
(** ** A call of the proxy, served by the daemon                       *)
(* ------------------------------------------------------------------ *)

Module proxy.

(** The operations of the Session that a journal records. *)
Fixpoint calls (j : list daemon.action) : list daemon.session_call :=
  match j with
  | [] => []
  | daemon.Call c :: r => c :: calls r
  | _ :: r => calls r
  end.

Section Proxy.

Variable SECRET_TOKEN : jsstring.
Variable array_token : json -> completion exn bool.

(** The Session of the daemon: what each operation settles to. *)
Variable session : daemon.session_call -> completion exn (option json).

(** What an [async] function settles to with this Session, the
    operations that it invokes on the way, and the callbacks that it
    queues with [setImmediate]. *)
Fixpoint eval {A : Type} (st : jsstring) (p : daemon.prog A) : completion exn A :=
  match p with
  | daemon.Ret c => c
  | daemon.Await call k => eval st (k (session call))
  | daemon.SetImmediate _ k => eval st k
  | daemon.GetStatus k => eval st (k st)
  end.

Fixpoint invoked {A : Type} (st : jsstring) (p : daemon.prog A)
  : list daemon.session_call :=
  match p with
  | daemon.Ret _ => []
  | daemon.Await call k => call :: invoked st (k (session call))
  | daemon.SetImmediate _ k => invoked st k
  | daemon.GetStatus k => invoked st (k st)
  end.

Fixpoint scheduled {A : Type} (st : jsstring) (p : daemon.prog A) : list daemon.task :=
  match p with
  | daemon.Ret _ => []
  | daemon.Await call k => scheduled st (k (session call))
  | daemon.SetImmediate t k => t :: scheduled st k
  | daemon.GetStatus k => scheduled st (k st)
  end.

(** One request on a connection of its own, served to the end: the
    line arrives, the Session settles the operations that the handler
    invoked, and the client destroys its socket. *)
Definition serve (p : daemon.process) (request : jsstring) : daemon.process :=
  let p1 := daemon.step SECRET_TOKEN array_token (loopback.accept p) (daemon.Data request) in
  let awaited := calls (skipn (length (daemon.journal p)) (daemon.journal p1)) in
  let p2 :=
    fold_left (fun q call =>
                 daemon.step SECRET_TOKEN array_token q
                   (daemon.Settle (length (daemon.pending p)) (session call)))
      awaited p1 in
  daemon.step SECRET_TOKEN array_token p2 daemon.Close.

(** The daemon as the peer of [callPort]: the lines that it writes
    while it serves the request. *)
Definition peer (p : daemon.process) : ipc.endpoint :=
  ipc.Connected (fun request _ =>
    (skipn (length (daemon.written (daemon.journal p)))
       (daemon.written (daemon.journal (serve p request))),
     false)).

(** Where the daemon can be reached: on the port it listens on, while
    it listens and has not exited; every other connection is refused. *)
Definition endpoint_of (port : Z) (p : daemon.process) (v : option json) : ipc.endpoint :=
  match v with
  | Some (JNum (NInt q)) =>
      if (q =? port)%Z && daemon.listening p
         && match daemon.exit_code p with None => true | Some _ => false end
      then peer p else ipc.Refused loopback.ECONNREFUSED
  | _ => ipc.Refused loopback.ECONNREFUSED
  end.

End Proxy.

End proxy.

(** The request that a call of the proxy makes: the object
    [{id, method, params, token}] without the properties that are
    [undefined], which [JSON.stringify] leaves out. *)
Definition request_of (id : jsstring) (token : option jsstring) (method : jsstring)
    (params : option json) : daemon.RpcRequest :=
  JObj (literal [(js "id", Some (JStr id)); (js "method", Some (JStr method));
                 (js "params", params); (js "token", option_map JStr token)]).

(** A value that may be [undefined]. *)
Definition plain_or_undefined (v : option json) : Prop :=
  match v with
  | Some j => plain j
  | None => True
  end.

(** A handler that awaits the Session once at most, and settles as
    soon as the Session has answered. *)
Inductive prompt : daemon.prog daemon.RpcResponse -> Prop :=
| prompt_ret (c : completion exn daemon.RpcResponse) : prompt (daemon.Ret c)
| prompt_status (k : jsstring -> daemon.prog daemon.RpcResponse) :
    (forall st, exists c, k st = daemon.Ret c) -> prompt (daemon.GetStatus k)
| prompt_immediate (t : daemon.task) (c : completion exn daemon.RpcResponse) :
    prompt (daemon.SetImmediate t (daemon.Ret c))
| prompt_await (call : daemon.session_call) (k : daemon.continuation) :
    (forall r, exists c, k r = daemon.Ret c) -> prompt (daemon.Await call k).

(** A Session whose answers are values that the wire carries exactly. *)
Definition plain_session (session : daemon.session_call -> completion exn (option json))
  : Prop :=
  forall call v, session call = Return (Some v) -> plain v.

(** A Session that has no chats: every operation gives an empty list. *)
Definition example_session (call : daemon.session_call) : completion exn (option json) :=
  Return (Some (JArr [])).

(** What the caller of a proxy method gets when the operation of the
    Session settles to [r] and the handler answers [result r] on
    success: a failure comes back as an [Error] with the same message,
    unless the message is empty. *)
Definition relayed (result : option json -> completion exn value)
    (r : completion exn (option json)) : completion exn value :=
  match r with
  | Return v => result v
  | Throw err =>
      if is_empty (message_or_string err) then Return VUndefined
      else Throw (new_Error (message_or_string err))
  end.

(* ------------------------------------------------------------------ *)
(** ** utils/message-parser.ts                                         *)
(* ------------------------------------------------------------------ *)

(** [Array.prototype.sort] with a consistent comparator: the sort is
    stable, and [cmp a b > 0] puts [a] after [b]. *)
Fixpoint sorted_insert {A : Type} (cmp : A -> A -> Z) (x : A) (l : list A) : list A :=
  match l with
  | [] => [x]
  | y :: r => if (cmp x y <=? 0)%Z then x :: l else y :: sorted_insert cmp x r
  end.

Definition Array_sort {A : Type} (cmp : A -> A -> Z) (l : list A) : list A :=
  fold_right (sorted_insert cmp) [] l.

Module message_parser.

(** The fields of a message and of a thread that this module and the
    commands read. [timestamp] is the time value of a valid [Date]. *)
Record Message : Type := {
  message_id : jsstring;
  fromMe : bool;
  type : jsstring;
  body : option jsstring;
  filename : option jsstring;
  from : jsstring;
  senderName : option jsstring
}.

Record Thread : Type := {
  id : jsstring;
  name : jsstring;
  isGroup : bool;
  lastMessage : option Message;
  unreadCount : Z;
  timestamp : option Z
}.

Definition ELLIPSIS : jsstring := [8230%N].
Definition CAMERA : jsstring := [55357; 56567]%N.
Definition MOVIE_CAMERA : jsstring := [55356; 57253]%N.
Definition MUSICAL_NOTE : jsstring := [55356; 57269]%N.
Definition PAGE : jsstring := [55357; 56516]%N.
Definition PALETTE : jsstring := [55356; 57256]%N.
Definition PUSHPIN : jsstring := [55357; 56525]%N.
Definition NO_ENTRY : jsstring := [55357; 57003]%N.
Definition SPEECH : jsstring := [55357; 56492]%N.

(** [s] when it is a string that is not empty. *)
Definition truthy_string (s : option jsstring) : option jsstring :=
  match s with
  | Some (c :: r) => Some (c :: r)
  | _ => None
  end.

(** Get a short preview string for a message (used in thread list). *)
Definition getMessagePreview (message : option Message) : jsstring :=
  match message with
  | None => []
  | Some m =>
      let prefix := if fromMe m then js "You: " else [] in
      let t := type m in
      if jsstring_eqb t (js "chat") then
        let b := match body m with Some b => b | None => [] end in
        prefix ++ (if (40 <? length b)%nat then firstn 40 b ++ ELLIPSIS else b)
      else if jsstring_eqb t (js "image") then prefix ++ CAMERA ++ js " Photo"
      else if jsstring_eqb t (js "video") then prefix ++ MOVIE_CAMERA ++ js " Video"
      else if jsstring_eqb t (js "audio") then prefix ++ MUSICAL_NOTE ++ js " Audio"
      else if jsstring_eqb t (js "document") then
        prefix ++ match truthy_string (filename m) with
                  | Some f => PAGE ++ js " " ++ f
                  | None => PAGE ++ js " Document"
                  end
      else if jsstring_eqb t (js "sticker") then prefix ++ PALETTE ++ js " Sticker"
      else if jsstring_eqb t (js "location") then prefix ++ PUSHPIN ++ js " Location"
      else if jsstring_eqb t (js "revoked") then NO_ENTRY ++ js " Message deleted"
      else prefix ++ SPEECH ++ js " Message"
  end.

(** [a.timestamp?.getTime() ?? 0] *)
Definition time_or_zero (t : Thread) : Z :=
  match timestamp t with
  | Some d => d
  | None => 0%Z
  end.

(** Sort threads by most recent activity (timestamp descending). *)
Definition sortThreadsByRecency (threads : list Thread) : list Thread :=
  Array_sort (fun a b => (time_or_zero b - time_or_zero a)%Z) threads.

(** [s.replace(/@[cg]\.us$/, '')] *)
Definition strip_us (s : jsstring) : jsstring :=
  match skipn (length s - 5) s with
  | [a; c; d; u; e] =>
      if (N.eqb a 64 && (N.eqb c 99 || N.eqb c 103) && N.eqb d 46 && N.eqb u 117
          && N.eqb e 115)%bool
      then firstn (length s - 5) s else s
  | _ => s
  end.

(** Get the display name for a message sender. *)
Definition getSenderDisplay (message : Message) : jsstring :=
  if fromMe message then js "You"
  else match truthy_string (senderName message) with
       | Some n => n
       | None => strip_us (from message)
       end.

End message_parser.

(** Most recent first, a thread without a date as at time 0. *)
Definition not_older (a b : message_parser.Thread) : Prop :=
  (message_parser.time_or_zero b <= message_parser.time_or_zero a)%Z.

(** The threads of one time, in their order in the list. *)
Definition of_time (t : Z) (l : list message_parser.Thread) : list message_parser.Thread :=
  filter (fun th => (message_parser.time_or_zero th =? t)%Z) l.

(* ------------------------------------------------------------------ *)
(** ** commands/daemon/status.tsx and commands/daemon/stop.tsx         *)
(* ------------------------------------------------------------------ *)

(** The daemon with another file system. *)
Definition with_files (d : disk) (p : daemon.process) : daemon.process :=
  {| daemon.status := daemon.status p; daemon.listening := daemon.listening p;
     daemon.session_alive := daemon.session_alive p; daemon.files := d;
     daemon.exit_code := daemon.exit_code p; daemon.immediates := daemon.immediates p;
     daemon.buf := daemon.buf p; daemon.destroyed := daemon.destroyed p;
     daemon.pending := daemon.pending p; daemon.journal := daemon.journal p |}.

Module daemon_status.

Inductive State : Type :=
| Checking
| Done (running : bool) (pid port : option json) (startedAt : option jsstring)
| Failed (message : jsstring).

Section Status.

Variable h : host.
Variable net : option json -> ipc.endpoint.

(** [new Date(v).toLocaleString()] for a value [v] of which [new Date]
    can make a date: the host's. *)
Variable toLocaleString : option json -> jsstring.

(** [new Date(s.startedAt).toLocaleString()]. [new Date] first makes a
    primitive of an array or of an object, as [String] does, and throws
    when that throws. *)
Definition started (v : option json) : completion exn jsstring :=
  match v with
  | Some (JArr l) => _ <- ToString (JArr l) ;; Return (toLocaleString v)
  | Some (JObj o) => _ <- ToString (JObj o) ;; Return (toLocaleString v)
  | _ => Return (toLocaleString v)
  end.

(** The effect of the command: the state that it ends in; it stays in
    [Checking] when the probe never settles. *)
Definition run (d : disk) (id : jsstring) : State :=
  match ipc.readDaemonState d with
  | Throw err => Failed (message_or_string err)
  | Return s =>
      if negb (truthy (Some s)) then Done false None None None
      else
        match snd (ipc.tryConnectDaemon h net d id) with
        | Pending => Checking
        | Settled (Throw err) => Failed (message_or_string err)
        | Settled (Return (Some _)) =>
            match started (get s (js "startedAt")) with
            | Return text => Done true (get s (js "pid")) (get s (js "port")) (Some text)
            | Throw err => Failed (message_or_string err)
            end
        | Settled (Return None) => Done false None None None
        end
  end.

(** [process.exitCode = state.phase === 'error' ? 1 : 0] *)
Definition exitCode (s : State) : option Z :=
  match s with
  | Checking => None
  | Failed _ => Some 1%Z
  | Done _ _ _ _ => Some 0%Z
  end.

End Status.

End daemon_status.

Module daemon_stop.

Inductive State : Type :=
| Checking
| Stopping
| Done (message : jsstring)
| Failed (message : jsstring).

(** [JSON.stringify({id: 'stop-req', method: 'stop', token}) + '\n'] *)
Definition stop_line (token : option json) : jsstring :=
  JSON.stringify
    (JObj (literal [(js "id", Some (JStr (js "stop-req")));
                    (js "method", Some (JStr (js "stop"))); (js "token", token)]))
  ++ [LF].

(** Send a stop RPC without waiting for a response: the line that is
    written, if the socket connects. *)
Definition sendStop (net : option json -> ipc.endpoint) (port token : option json)
  : list jsstring :=
  match net port with
  | ipc.Refused _ => []
  | ipc.Connected _ => [stop_line token]
  end.

Section Stop.

Variable h : host.
Variable SECRET_TOKEN : jsstring.
Variable array_token : json -> completion exn bool.
Variable session : daemon.session_call -> completion exn (option json).

(** The port on which the daemon of this machine listens. *)
Variable listen_port : Z.

(** The command and the daemon share the file system of the daemon
    process [p]. The lines of the liveness probe are served by the
    daemon; the line of [sendStop] arrives on a connection of its own,
    and the callbacks that the daemon queued with [setImmediate] run
    next. The loop that then waits for the state file to go (8 s at
    most) changes nothing and decides nothing: the command ends in the
    same state whether the file went or not. The message is made at
    the end, inside the [try]: a [pid] of which no string can be made
    ends the command in an error, after the daemon was stopped. The
    command stays in [Checking] when the probe never settles. *)
Definition run (p : daemon.process) (id : jsstring) : State * daemon.process :=
  match ipc.readDaemonState (daemon.files p) with
  | Throw err => (Failed (message_or_string err), p)
  | Return s =>
      if negb (truthy (Some s)) then (Done (js "Daemon is not running."), p)
      else
        let (sent, client) :=
          ipc.tryConnectDaemon h
            (proxy.endpoint_of SECRET_TOKEN array_token session listen_port p)
            (daemon.files p) id in
        let p1 := fold_left (proxy.serve SECRET_TOKEN array_token session) sent p in
        match client with
        | Pending => (Checking, p1)
        | Settled (Throw err) => (Failed (message_or_string err), p1)
        | Settled (Return None) =>
            (* State file is stale: clean it up *)
            (Done (js "Daemon was not running (cleaned up stale state file)."),
             with_files (snd (fs_unlink (daemon.files p1))) p1)
        | Settled (Return (Some _)) =>
            let sent' :=
              sendStop (proxy.endpoint_of SECRET_TOKEN array_token session listen_port p1)
                (get s (js "port")) (get s (js "token")) in
            let p2 :=
              fold_left (fun q line =>
                           daemon.steps SECRET_TOKEN array_token (loopback.accept q)
                             [daemon.Data line; daemon.Check]) sent' p1 in
            (match String_of (get s (js "pid")) with
             | Return pid => Done (js "Daemon (pid " ++ pid ++ js ") stopped.")
             | Throw err => Failed (message_or_string err)
             end, p2)
        end
  end.

Definition exitCode (s : State) : option Z :=
  match s with
  | Done _ => Some 0%Z
  | Failed _ => Some 1%Z
  | _ => None
  end.

End Stop.

End daemon_stop.

(** A daemon that serves, with the state file that it wrote at its
    start: the descriptor is valid, its token is the secret of the
    process and its port the one on which the process listens. *)
Definition serving (SECRET_TOKEN : jsstring) (st : state.DaemonState) (p : daemon.process)
  : Prop :=
  daemon.exit_code p = None
  /\ daemon.listening p = true
  /\ daemon.immediates p = []
  /\ state.valid (state.object_of st) = true
  /\ state.token st = SECRET_TOKEN
  /\ exists d0, state.writeDaemonState d0 st = (Return tt, daemon.files p).

(** Nobody answers on this machine: the daemon has exited, or it does
    not listen. *)
Definition gone (p : daemon.process) : Prop :=
  daemon.exit_code p <> None \/ daemon.listening p = false.

(* ------------------------------------------------------------------ *)
(** ** commands/chats.tsx, open.tsx, send.tsx, reply.tsx               *)
(* ------------------------------------------------------------------ *)

(** [parts.join(' ')] *)
Fixpoint join_words (parts : list jsstring) : jsstring :=
  match parts with
  | [] => []
  | [p] => p
  | p :: r => p ++ 32%N :: join_words r
  end.

(** [Number.parseInt(s, 10)]: leading white space, a sign, the longest
    run of decimal digits; [None] is NaN. *)
Definition parseInt10 (s : jsstring) : option Z :=
  let s1 := trim_start s in
  let '(neg, s2) :=
    match s1 with
    | c :: r => if N.eqb c 45 then (true, r)
                else if N.eqb c 43 then (false, r) else (false, s1)
    | [] => (false, s1)
    end in
  let (u, _) := take_uint s2 in
  if JSON.is_nil u then None
  else Some (if neg then - Z.of_N (N.of_uint u) else Z.of_N (N.of_uint u))%Z.

Module commands.

Import message_parser.

(** The public API that [WhatsAppClient] and [IpcClient] share, as one
    run of a command meets it: what each call settles to. *)
Record Client : Type := {
  getThreads : completion exn (list Thread);
  findChatByName : jsstring -> completion exn (option Thread);
  getMessages : jsstring -> Z -> completion exn (list Message);
  sendMessage : jsstring -> jsstring -> completion exn unit;
  sendFile : jsstring -> jsstring -> jsstring -> completion exn unit;
  replyToMessage : jsstring -> jsstring -> completion exn unit;
  destroy : completion exn unit
}.

(** The state of a command: [done] carries a line of text, or the
    threads or the thread and its messages to print. *)
Inductive State : Type :=
| Loading (status : jsstring)
| Done (result : jsstring)
| Listed (threads : list Thread)
| Opened (thread : Thread) (messages : list Message)
| Failed (message : jsstring).

(** What a command does, in order. *)
Inductive event : Type :=
| Connect                                        (* connectClient() *)
| GetThreads                                     (* client.getThreads() *)
| FindChatByName (name : jsstring)               (* client.findChatByName(name) *)
| GetMessages (chatId : jsstring) (limit : Z)    (* client.getMessages(chatId, limit) *)
| SendMessage (chatId text : jsstring)           (* client.sendMessage(chatId, text) *)
| SendFile (chatId filePath caption : jsstring)  (* client.sendFile(...) *)
| ReplyToMessage (messageId text : jsstring)     (* client.replyToMessage(...) *)
| Destroy                                        (* client.destroy() *)
| Sleep (ms : Z)                                 (* await new Promise(r => setTimeout(r, ms)) *)
| SetState (s : State).                          (* setState(s) *)

(** A part of an [async] function: what it did, and what it came to. *)
Definition act (A : Type) : Type := list event * completion exn A.

Definition ret {A : Type} (a : A) : act A := ([], Return a).

Definition then_ {A B : Type} (m : act A) (k : A -> act B) : act B :=
  match m with
  | (evs, Return a) => let (evs', r) := k a in (evs ++ evs', r)
  | (evs, Throw e) => (evs, Throw e)
  end.

Notation "x <~ m ;; k" := (then_ m (fun x => k))
  (at level 61, m at next level, right associativity).

(** A call of the client, and other steps. *)
Definition call {A : Type} (e : event) (r : completion exn A) : act A := ([e], r).
Definition setState (s : State) : act unit := ([SetState s], Return tt).
Definition sleep (ms : Z) : act unit := ([Sleep ms], Return tt).

(** [try { client = await connectClient(); rest(client) }
     catch (err) { setState({phase: 'error', ...}) }
     finally { client?.destroy().catch(() => {}) }] *)
Definition with_client (connect : completion exn Client) (rest : Client -> act unit)
  : list event :=
  Connect ::
  match connect with
  | Throw err => [SetState (Failed (message_or_string err))]
  | Return client =>
      (match rest client with
       | (evs, Return _) => evs
       | (evs, Throw err) => evs ++ [SetState (Failed (message_or_string err))]
       end) ++ [Destroy]
  end.

Definition no_chat (chatName : jsstring) : State :=
  Failed (jsq "No chat found matching '" ++ chatName
          ++ jsq "'. Run: whatsapp-cli chats").

Definition ELLIPSIS : jsstring := [8230%N].
Definition CHECK_MARK : jsstring := [10003%N].
Definition ARROW : jsstring := [8594%N].
Definition AT_LEAST : jsstring := [8805%N].

(** *** chats.tsx *)

Definition Chats (connect : completion exn Client) : list event :=
  with_client connect (fun client =>
    _ <~ setState (Loading (js "Loading chats" ++ ELLIPSIS)) ;;
    threads <~ call GetThreads (getThreads client) ;;
    setState (Listed threads)).

(** *** open.tsx *)

Definition Open (chatName : jsstring) (limit : Z) (connect : completion exn Client)
  : list event :=
  with_client connect (fun client =>
    _ <~ setState (Loading (jsq "Searching for '" ++ chatName ++ jsq "'" ++ ELLIPSIS)) ;;
    thread <~ call (FindChatByName chatName) (findChatByName client chatName) ;;
    match thread with
    | None => setState (no_chat chatName)
    | Some thread =>
        _ <~ setState (Loading (js "Loading messages from " ++ name thread ++ ELLIPSIS)) ;;
        messages <~ call (GetMessages (id thread) limit)
                      (getMessages client (id thread) limit) ;;
        setState (Opened thread messages)
    end).

(** *** send.tsx *)

Section Send.

(** [path.resolve] and [path.basename], which are the host's. *)
Variable path_resolve : jsstring -> jsstring.
Variable path_basename : jsstring -> jsstring.

Definition Send (chatName : jsstring) (bodyParts : list jsstring) (file : option jsstring)
    (connect : completion exn Client) : list event :=
  let bodyText := join_words bodyParts in
  match truthy_string file, bodyText with
  | None, [] =>
      [SetState (Failed (js "Nothing to send. Provide a message or use --file <path>"))]
  | _, _ =>
      with_client connect (fun client =>
        _ <~ setState (Loading (jsq "Finding '" ++ chatName ++ jsq "'" ++ ELLIPSIS)) ;;
        thread <~ call (FindChatByName chatName) (findChatByName client chatName) ;;
        match thread with
        | None => setState (no_chat chatName)
        | Some thread =>
            match truthy_string file with
            | Some file =>
                let absPath := path_resolve file in
                let fileName := path_basename absPath in
                _ <~ setState (Loading (js "Sending " ++ fileName ++ js " to "
                                        ++ name thread ++ ELLIPSIS)) ;;
                _ <~ call (SendFile (id thread) absPath bodyText)
                       (sendFile client (id thread) absPath bodyText) ;;
                _ <~ setState (Loading (js "Waiting for WhatsApp to confirm" ++ ELLIPSIS)) ;;
                _ <~ sleep 3000 ;;
                setState (Done (CHECK_MARK ++ js "  Sent " ++ fileName ++ js " " ++ ARROW
                                ++ js " " ++ name thread))
            | None =>
                _ <~ setState (Loading (js "Sending message to " ++ name thread
                                        ++ ELLIPSIS)) ;;
                _ <~ call (SendMessage (id thread) bodyText)
                       (sendMessage client (id thread) bodyText) ;;
                _ <~ setState (Loading (js "Waiting for WhatsApp to confirm" ++ ELLIPSIS)) ;;
                _ <~ sleep 2500 ;;
                setState (Done (CHECK_MARK ++ js "  Message sent " ++ ARROW ++ js " "
                                ++ name thread))
            end
        end)
  end.

End Send.

(** *** reply.tsx *)

(** [Number.isNaN(msgIndex) || msgIndex < 1] *)
Definition valid_index (msgIndex : option Z) : option Z :=
  match msgIndex with
  | Some i => if (i <? 1)%Z then None else Some i
  | None => None
  end.

Definition Reply (chatName indexStr : jsstring) (replyParts : list jsstring)
    (connect : completion exn Client) : list event :=
  let replyText := join_words replyParts in
  let msgIndex := parseInt10 indexStr in
  if is_empty replyText then
    [SetState (Failed (js "Provide the reply text after the message index"))]
  else
    match valid_index msgIndex with
    | None =>
        [SetState (Failed (jsq "'" ++ indexStr
                           ++ jsq "' is not a valid message index. Use a number "
                           ++ AT_LEAST ++ js " 1"))]
    | Some msgIndex =>
        with_client connect (fun client =>
          _ <~ setState (Loading (jsq "Finding '" ++ chatName ++ jsq "'" ++ ELLIPSIS)) ;;
          thread <~ call (FindChatByName chatName) (findChatByName client chatName) ;;
          match thread with
          | None => setState (no_chat chatName)
          | Some thread =>
              (* Fetch enough messages to cover the requested index *)
              let fetchCount := Z.max msgIndex 20 in
              _ <~ setState (Loading (js "Fetching messages from " ++ name thread
                                      ++ ELLIPSIS)) ;;
              messages <~ call (GetMessages (id thread) fetchCount)
                            (getMessages client (id thread) fetchCount) ;;
              match nth_error messages (Z.to_nat (msgIndex - 1)) with
              | None =>
                  setState
                    (Failed (js "No message at index " ++ Number_toString (NInt msgIndex)
                             ++ js " (only "
                             ++ Number_toString (NInt (Z.of_nat (length messages)))
                             ++ jsq " messages fetched). Try whatsapp-cli open '"
                             ++ chatName ++ jsq "' --limit "
                             ++ Number_toString (NInt (fetchCount + 20))))
              | Some target =>
                  _ <~ setState (Loading (js "Sending reply" ++ ELLIPSIS)) ;;
                  _ <~ call (ReplyToMessage (message_id target) replyText)
                         (replyToMessage client (message_id target) replyText) ;;
                  _ <~ setState (Loading (js "Waiting for WhatsApp to confirm"
                                          ++ ELLIPSIS)) ;;
                  _ <~ sleep 2500 ;;
                  setState (Done (CHECK_MARK ++ js "  Replied to ["
                                  ++ Number_toString (NInt msgIndex) ++ js "] in "
                                  ++ name thread))
              end
          end)
    end.

(** The state that a command ends in, and its exit code:
    [process.exitCode = state.phase === 'error' ? 1 : 0]. *)
Fixpoint final (evs : list event) (s : State) : State :=
  match evs with
  | [] => s
  | SetState s' :: r => final r s'
  | _ :: r => final r s
  end.

Definition exitCode (s : State) : option Z :=
  match s with
  | Loading _ => None
  | Failed _ => Some 1%Z
  | _ => Some 0%Z
  end.

End commands.

(** The calls of the client that a command makes, [destroy] apart. *)
Definition is_call (e : commands.event) : bool :=
  match e with
  | commands.GetThreads | commands.FindChatByName _ | commands.GetMessages _ _
  | commands.SendMessage _ _ | commands.SendFile _ _ _ | commands.ReplyToMessage _ _ =>
      true
  | _ => false
  end.

(** The messages that a command sends: texts, files and replies. *)
Definition is_sending (e : commands.event) : bool :=
  match e with
  | commands.SendMessage _ _ | commands.SendFile _ _ _ | commands.ReplyToMessage _ _ => true
  | _ => false
  end.

(** What a command does between connecting and releasing its handle. *)
Definition inner (e : commands.event) : bool :=
  match e with
  | commands.Connect | commands.Destroy => false
  | _ => true
  end.

(** The three ways in which a command runs: it refuses its arguments
    and does nothing else; it cannot connect; or it connects, works,
    and destroys the handle at the end, whatever happened in between. *)
Inductive orderly (connect : completion exn commands.Client)
  : list commands.event -> Prop :=
| orderly_refused (m : jsstring) :
    orderly connect [commands.SetState (commands.Failed m)]
| orderly_unreachable (err : exn) :
    connect = Throw err ->
    orderly connect
      [commands.Connect; commands.SetState (commands.Failed (message_or_string err))]
| orderly_released (client : commands.Client) (middle : list commands.event) :
    connect = Return client ->
    forallb inner middle = true ->
    orderly connect (commands.Connect :: middle ++ [commands.Destroy]).

(** The state in which every command starts. *)
Definition connecting : commands.State :=
  commands.Loading (js "Connecting to WhatsApp" ++ commands.ELLIPSIS).

(* ------------------------------------------------------------------ *)
(** ** daemon/index.ts: the start of the daemon                        *)
(* ------------------------------------------------------------------ *)

Module server.

Definition timed_out : exn :=
  new_Error (js "Timed out waiting for WhatsApp (90 s). Is your phone connected?").

Definition not_logged_in : exn :=
  new_Error (js "Not logged in " ++ [8211%N] ++ js " run:  wa auth login").

(** Boot the client: same logic as [connectClient] in connect.ts. *)
Fixpoint boot (events : list connect.session_event) : completion exn unit :=
  match events with
  | [] => Throw timed_out
  | connect.Qr :: _ => Throw not_logged_in
  | connect.Ready :: _ => Return tt
  | connect.ErrorEvent err :: _ =>
      Throw (match err with
             | ErrorObj _ _ _ => err
             | Thrown t => new_Error t
             end)
  | connect.InitializeRejected err :: _ => Throw err
  | connect.Timer :: _ => Throw timed_out
  | connect.Other :: rest => boot rest
  end.

(** The module from its first line to the registration of the signal
    handlers: the Session boots, the server listens on a port that the
    system chooses ([listen] is that port, or the error of the server),
    the state file is written. A rejection ends the module, and the
    process with it. The result is the daemon that serves, or the
    rejection, and the file system as the module leaves it. *)
Definition main (SECRET_TOKEN : jsstring) (session : list connect.session_event)
    (listen : completion exn Z) (pid : Z) (now : jsstring) (d : disk)
  : completion exn daemon.process * disk :=
  match boot session with
  | Throw err => (Throw err, d)
  | Return _ =>
      match listen with
      | Throw err => (Throw err, d)
      | Return port =>
          match state.writeDaemonState d
                  {| state.pid := pid; state.port := port; state.startedAt := now;
                     state.token := SECRET_TOKEN |} with
          | (Return _, d') =>
              (Return {| daemon.status := js "ready"; daemon.listening := true;
                         daemon.session_alive := true; daemon.files := d';
                         daemon.exit_code := None; daemon.immediates := [];
                         daemon.buf := []; daemon.destroyed := false;
                         daemon.pending := []; daemon.journal := [] |}, d')
          | (Throw err, d') => (Throw err, d')
          end
      end
  end.

End server.

(** What [crypto.randomBytes(32).toString('hex')] gives: 64
    hexadecimal digits. *)
Definition hex64 (s : jsstring) : Prop :=
  length s = 64%nat /\ forallb state.is_hex s = true.

(* ------------------------------------------------------------------ *)
(** ** client.ts: the search of a chat by its name                      *)
(* ------------------------------------------------------------------ *)

(** [s.startsWith(sub)] and [s.includes(sub)], on code units. *)
Fixpoint startsWith (s sub : jsstring) : bool :=
  match sub, s with
  | [], _ => true
  | x :: sub', y :: s' => N.eqb x y && startsWith s' sub'
  | _ :: _, [] => false
  end.

Fixpoint includes (s sub : jsstring) : bool :=
  startsWith s sub
  || match s with
     | [] => false
     | _ :: s' => includes s' sub
     end.

Module client.

Import message_parser.

Section WhatsAppClient.

(** [String.prototype.toLowerCase], and the search of Fuse.js with the
    options of [searchThreads]: the items it finds, with their scores. *)
Variable toLowerCase : jsstring -> jsstring.
Variable Score : Type.
Variable one : Score.
Variable fuse_search : list Thread -> jsstring -> list (Thread * option Score).

(** What the library gives to the [n]-th call of [getThreads]: the
    chats that parse, as threads, or the error of [getChats]. *)
Variable getChats : nat -> completion exn (list Thread).

Record state : Type := {
  threadsCache : list Thread;
  fetched : nat
}.

Definition getThreads (st : state) : completion exn (list Thread) * state :=
  match getChats (fetched st) with
  | Return threads =>
      (Return threads, {| threadsCache := threads; fetched := S (fetched st) |})
  | Throw error =>
      (Throw error, {| threadsCache := threadsCache st; fetched := S (fetched st) |})
  end.

(** [let threads = this.threadsCache;
     if (threads.length === 0) threads = await this.getThreads();] *)
Definition loaded (st : state) : completion exn (list Thread) * state :=
  match threadsCache st with
  | [] => getThreads st
  | threads => (Return threads, st)
  end.

Definition searchThreads (query : jsstring) (st : state)
  : completion exn (list (Thread * Score)) * state :=
  match loaded st with
  | (Throw error, st') => (Throw error, st')
  | (Return threads, st') =>
      if is_empty (trim query) then (Return (map (fun t => (t, one)) threads), st')
      else (Return (map (fun result =>
                          (fst result,
                           match snd result with Some s => s | None => one end))
                       (fuse_search threads query)), st')
  end.

(** Find a chat by display name: exact match, then partial, then fuzzy.
    Loads the thread cache first if it's empty. *)
Definition findChatByName (query : jsstring) (st : state)
  : completion exn (option Thread) * state :=
  match loaded st with
  | (Throw error, st') => (Throw error, st')
  | (Return threads, st') =>
      let lower := toLowerCase query in
      match find (fun t => jsstring_eqb (toLowerCase (name t)) lower) threads with
      | Some exact => (Return (Some exact), st')
      | None =>
          match find (fun t => includes (toLowerCase (name t)) lower) threads with
          | Some partial => (Return (Some partial), st')
          | None =>
              match searchThreads query st' with
              | (Throw error, st'') => (Throw error, st'')
              | (Return results, st'') =>
                  (Return (option_map fst (hd_error results)), st'')
              end
          end
      end
  end.

End WhatsAppClient.

End client.

(** *** The proxy, the chats and the client of the examples *)

(** The network on which [example_daemon] is the peer, and a proxy
    bound to it. *)
Definition example_net (port : option json) : ipc.endpoint :=
  proxy.peer example_secret no_array_token example_session example_daemon.

Definition example_proxy : ipc.IpcClient :=
  {| ipc.port := Some (JNum (NInt 50123)); ipc.token := Some (JStr example_secret) |}.

(** A daemon that has closed its listener. *)
Definition example_closed : daemon.process :=
  {| daemon.status := js "ready"; daemon.listening := false; daemon.session_alive := true;
     daemon.files := example_disk; daemon.exit_code := None; daemon.immediates := [];
     daemon.buf := []; daemon.destroyed := false; daemon.pending := [];
     daemon.journal := [] |}.

Definition example_message (n : jsstring) : message_parser.Message :=
  {| message_parser.message_id := js "msg-" ++ n; message_parser.fromMe := false;
     message_parser.type := js "chat"; message_parser.body := Some (js "hello " ++ n);
     message_parser.filename := None; message_parser.from := js "alice@c.us";
     message_parser.senderName := None |}.

Definition example_thread : message_parser.Thread :=
  {| message_parser.id := js "alice@c.us"; message_parser.name := js "Alice";
     message_parser.isGroup := false; message_parser.lastMessage := None;
     message_parser.unreadCount := 0; message_parser.timestamp := None |}.

(** A client with one chat of three messages, whose calls succeed. *)
Definition example_client : commands.Client :=
  {| commands.getThreads := Return [example_thread];
     commands.findChatByName := fun _ => Return (Some example_thread);
     commands.getMessages := fun _ _ =>
       Return [example_message (js "1"); example_message (js "2");
               example_message (js "3")];
     commands.sendMessage := fun _ _ => Return tt;
     commands.sendFile := fun _ _ _ => Return tt;
     commands.replyToMessage := fun _ _ => Return tt;
     commands.destroy := Return tt |}.

(** [toLowerCase] as it is on ASCII strings. *)
Definition ascii_lower (s : jsstring) : jsstring :=
  map (fun c => if ((65 <=? c) && (c <=? 90))%N then (c + 32)%N else c) s.

(** A second chat, and a client that has loaded both. *)
Definition example_group : message_parser.Thread :=
  {| message_parser.id := js "family@g.us"; message_parser.name := js "Family";
     message_parser.isGroup := true; message_parser.lastMessage := None;
     message_parser.unreadCount := 2; message_parser.timestamp := Some 1700000000000%Z |}.

Definition example_loaded : client.state :=
  {| client.threadsCache := [example_group; example_thread]; client.fetched := 1 |}.

(* ================================================================== *)
(** * Part II.  Properties                                             *)
(* ================================================================== *)

(** ** Lines *)

Lemma split_nl_nonempty (s : jsstring) : split_nl s <> [].
Proof.
  destruct s as [|c r]; simpl; [discriminate|].
  destruct (N.eqb c LF); [discriminate|].
  destruct (split_nl r); discriminate.
Qed.

Lemma split_nl_no_LF (s : jsstring) : ~ In LF s -> split_nl s = [s].
Proof.
  induction s as [|c r IH]; intros H; simpl; [reflexivity|].
  destruct (N.eqb_spec c LF) as [->|_].
  - exfalso; apply H; left; reflexivity.
  - rewrite IH; [reflexivity|]. intros Hin; apply H; right; exact Hin.
Qed.

Lemma split_nl_line (l r : jsstring) :
  ~ In LF l -> split_nl (l ++ LF :: r) = l :: split_nl r.
Proof.
  induction l as [|c l IH]; intros H; simpl.
  - reflexivity.
  - destruct (N.eqb_spec c LF) as [->|_].
    + exfalso; apply H; left; reflexivity.
    + rewrite IH; [reflexivity|]. intros Hin; apply H; right; exact Hin.
Qed.

Lemma pop_spec {A : Type} (l : list A) (d : A) :
  l <> [] -> pop l = (removelast l, Some (last l d)).
Proof.
  induction l as [|x r IH]; intros H; [congruence|].
  destruct r as [|y r']; [reflexivity|].
  change (pop (x :: y :: r')) with (let (r'', o) := pop (y :: r') in (x :: r'', o)).
  rewrite IH by discriminate. reflexivity.
Qed.

(** The lines of [a ++ b]: the complete lines of [a], then the lines of
    what [a] left unfinished followed by [b]. *)
Lemma split_nl_app (a b : jsstring) :
  split_nl (a ++ b) = removelast (split_nl a) ++ split_nl (last (split_nl a) [] ++ b).
Proof.
  induction a as [|c a IH]; simpl; [reflexivity|].
  rewrite IH. pose proof (split_nl_nonempty a) as Hne.
  destruct (split_nl a) as [|l ls]; [congruence|].
  destruct (N.eqb c LF) eqn:E.
  - reflexivity.
  - destruct ls as [|l' ls']; [|reflexivity].
    simpl. rewrite E.
    pose proof (split_nl_nonempty (l ++ b)) as Hne'.
    destruct (split_nl (l ++ b)); [congruence|reflexivity].
Qed.

Lemma split_nl_stream (lines : list jsstring) :
  Forall (fun l => ~ In LF l) lines ->
  split_nl (stream_of lines) = lines ++ [[]].
Proof.
  induction 1 as [|l ls Hl _ IH]; [reflexivity|].
  unfold stream_of in *; simpl. rewrite <- app_assoc. simpl.
  rewrite split_nl_line by assumption. rewrite IH. reflexivity.
Qed.

(** ** Blank lines are no JSON *)

Lemma trim_start_head (s : jsstring) x t : trim_start s = x :: t -> is_js_space x = false.
Proof.
  induction s as [|c r IH]; simpl; [discriminate|].
  destruct (is_js_space c) eqn:E; [exact IH|].
  intros H; injection H as <- _. exact E.
Qed.

Lemma trim_start_snoc (l : jsstring) x : is_js_space x = false -> trim_start (l ++ [x]) <> [].
Proof.
  intros Hx. induction l as [|c r IH]; simpl.
  - rewrite Hx. discriminate.
  - destruct (is_js_space c); [exact IH|discriminate].
Qed.

Lemma trim_empty (s : jsstring) : trim s = [] -> trim_start s = [].
Proof.
  unfold trim. intros H.
  destruct (trim_start s) as [|x t] eqn:E; [reflexivity|exfalso].
  apply trim_start_head in E.
  simpl in H. apply (f_equal (@rev _)) in H. rewrite rev_involutive in H. simpl in H.
  exact (trim_start_snoc (rev t) x E H).
Qed.

(** After the JSON white space of a blank text comes nothing, or a
    character that starts no JSON value. *)
Lemma skip_ws_blank (s : jsstring) :
  trim_start s = [] ->
  JSON.skip_ws s = [] \/
  exists c r, JSON.skip_ws s = c :: r /\ (c = 11 \/ c = 12 \/ 160 <= c)%N.
Proof.
  induction s as [|c r IH]; simpl; [left; reflexivity|].
  destruct (is_js_space c) eqn:Ec; [|discriminate].
  intros H. destruct (JSON.is_ws c) eqn:Ew; [exact (IH H)|].
  right. exists c, r. split; [reflexivity|].
  unfold is_js_space in Ec. unfold JSON.is_ws in Ew.
  repeat (apply orb_false_elim in Ew as [Ew ?]).
  repeat match goal with H : (_ =? _)%N = false |- _ => apply N.eqb_neq in H end.
  repeat (apply orb_prop in Ec as [Ec|Ec]);
    try (apply andb_prop in Ec as [Ec _]; apply N.leb_le in Ec);
    try apply N.eqb_eq in Ec; lia.
Qed.

Lemma take_uint_not_digit c r : digit_of_char c = None -> take_uint (c :: r) = (Decimal.Nil, c :: r).
Proof. intros H; simpl; rewrite H; reflexivity. Qed.

Lemma digit_of_char_high c : (c = 11 \/ c = 12 \/ 160 <= c)%N -> digit_of_char c = None.
Proof.
  intros H. unfold digit_of_char.
  repeat match goal with
         | |- context [N.eqb c ?k] => destruct (N.eqb_spec c k); [exfalso; lia|]
         end.
  reflexivity.
Qed.

Lemma parse_value_blank (fuel : nat) (s : jsstring) :
  trim_start s = [] -> forall v rest, JSON.parse_value fuel s <> JSON.Ok v rest.
Proof.
  intros H v rest. destruct fuel as [|f]; simpl; [discriminate|].
  destruct (skip_ws_blank s H) as [-> | (c & r & -> & Hc)]; [discriminate|].
  repeat match goal with
         | |- context [N.eqb c ?k] => destruct (N.eqb_spec c k); [exfalso; unfold QUOTE in *; lia|]
         end.
  unfold JSON.parse_number, JSON.split_sign.
  destruct (N.eqb_spec c 45); [exfalso; lia|].
  rewrite take_uint_not_digit by (apply digit_of_char_high; exact Hc).
  simpl. discriminate.
Qed.

Lemma parse_not_blank (s : jsstring) (v : json) :
  JSON.parse s = Return v -> is_empty (trim s) = false.
Proof.
  unfold JSON.parse. intros H.
  destruct (trim s) eqn:E; [exfalso|reflexivity].
  apply trim_empty in E.
  destruct (JSON.parse_value (2 * length s + 1) s) as [v' rest| |] eqn:P; try discriminate.
  exact (parse_value_blank _ _ E _ _ P).
Qed.

(** ** The token check *)

Lemma Buffer_from_ascii (s : jsstring) :
  Forall (fun c => (c < 128)%N) s -> Buffer_from s = s.
Proof.
  induction 1 as [|c r Hc _ IH]; simpl; [reflexivity|].
  apply N.ltb_lt in Hc. rewrite Hc, IH. reflexivity.
Qed.

Lemma accumulate_equal (l : list N) (acc : N) :
  fold_left (fun a xy => N.lor a (N.lxor (fst xy) (snd xy))) (combine l l) acc = acc.
Proof.
  revert acc. induction l as [|x r IH]; intros acc; simpl; [reflexivity|].
  rewrite N.lxor_nilpotent, N.lor_0_r. apply IH.
Qed.

Lemma crypto_timingSafeEqual_refl (b : list N) : crypto.timingSafeEqual b b = Return true.
Proof.
  unfold crypto.timingSafeEqual. rewrite Nat.eqb_refl, accumulate_equal. reflexivity.
Qed.

Lemma timingSafeEqual_refl (s : jsstring) : daemon.timingSafeEqual s s = Return true.
Proof.
  unfold daemon.timingSafeEqual. rewrite Nat.eqb_refl. simpl.
  apply crypto_timingSafeEqual_refl.
Qed.

(** ** The handler, by the token of the request *)

Section Fields.

Variable SECRET_TOKEN : jsstring.
Variable array_token : json -> completion exn bool.

(** A value with a property is an object. *)
Lemma get_object (v : json) (k : jsstring) (x : json) :
  get v k = Some x -> exists o, v = JObj o.
Proof. destruct v; try discriminate. intros _. eexists. reflexivity. Qed.

Lemma handleRequest_not_null (req : daemon.RpcRequest) :
  req <> JNull ->
  daemon.handleRequest SECRET_TOKEN array_token req
  = match daemon.token req with
    | None => daemon.Ret (Return (daemon.Error (daemon.id req) (js "Unauthorized")))
    | Some t =>
        if negb (truthy (Some t))
        then daemon.Ret (Return (daemon.Error (daemon.id req) (js "Unauthorized")))
        else
          match daemon.token_matches SECRET_TOKEN array_token t with
          | Throw err => daemon.Ret (Throw err)
          | Return false =>
              daemon.Ret (Return (daemon.Error (daemon.id req) (js "Unauthorized")))
          | Return true => daemon.dispatch req
          end
    end.
Proof. intros H. destruct req; try reflexivity. congruence. Qed.

(** The token check on a token that is a string. *)
Lemma handleRequest_string_token (req : daemon.RpcRequest) (t : jsstring) :
  daemon.token req = Some (JStr t) ->
  daemon.handleRequest SECRET_TOKEN array_token req
  = if is_empty t
    then daemon.Ret (Return (daemon.Error (daemon.id req) (js "Unauthorized")))
    else
      match daemon.timingSafeEqual t SECRET_TOKEN with
      | Throw err => daemon.Ret (Throw err)
      | Return false =>
          daemon.Ret (Return (daemon.Error (daemon.id req) (js "Unauthorized")))
      | Return true => daemon.dispatch req
      end.
Proof.
  intros Ht. destruct (get_object _ _ _ Ht) as [o ->].
  rewrite handleRequest_not_null by discriminate. rewrite Ht.
  cbn [truthy daemon.token_matches]. destruct (is_empty t); reflexivity.
Qed.

(** The request that presents the secret reaches the [switch]. *)
Lemma handleRequest_authenticated (req : daemon.RpcRequest) :
  SECRET_TOKEN <> [] ->
  daemon.token req = Some (JStr SECRET_TOKEN) ->
  daemon.handleRequest SECRET_TOKEN array_token req = daemon.dispatch req.
Proof.
  intros Hne Ht. rewrite (handleRequest_string_token req SECRET_TOKEN Ht).
  destruct SECRET_TOKEN as [|c r] eqn:E; [congruence|]. cbn [is_empty].
  rewrite timingSafeEqual_refl. reflexivity.
Qed.

(** The [switch] on a method that is a string. *)
Lemma dispatch_string_method (req : daemon.RpcRequest) (m : jsstring) :
  daemon.method req = Some (JStr m) ->
  daemon.dispatch req
  = let i := daemon.id req in
    let p := daemon.nullish_or (JObj []) (daemon.params req) in
    if jsstring_eqb m (js "ping")
    then daemon.Ret (Return (daemon.Result i (Some (JStr (js "pong")))))
    else if jsstring_eqb m (js "getStatus") then
      daemon.GetStatus (fun st => daemon.Ret (Return (daemon.Result i (Some (JStr st)))))
    else if jsstring_eqb m (js "getThreads")
    then daemon.awaiting i daemon.getThreads (fun v => v)
    else if jsstring_eqb m (js "searchThreads") then
      daemon.awaiting i
        (daemon.searchThreads (daemon.nullish_or (JStr []) (get p (js "query"))))
        (fun v => v)
    else if jsstring_eqb m (js "findChatByName") then
      daemon.awaiting i (daemon.findChatByName (get p (js "name")))
        (fun v => Some (daemon.nullish_or JNull v))
    else if jsstring_eqb m (js "getMessages") then
      daemon.awaiting i (daemon.getMessages (get p (js "chatId")) (get p (js "limit")))
        (fun v => v)
    else if jsstring_eqb m (js "sendMessage") then
      daemon.awaiting i (daemon.sendMessage (get p (js "chatId")) (get p (js "text")))
        (fun _ => Some JNull)
    else if jsstring_eqb m (js "sendFile") then
      daemon.awaiting i
        (daemon.sendFile (get p (js "chatId")) (get p (js "filePath"))
           (daemon.nullish_or (JStr []) (get p (js "caption"))))
        (fun _ => Some JNull)
    else if jsstring_eqb m (js "replyToMessage") then
      daemon.awaiting i
        (daemon.replyToMessage (get p (js "messageId")) (get p (js "text")))
        (fun _ => Some JNull)
    else if jsstring_eqb m (js "stop") then
      daemon.SetImmediate daemon.Shutdown
        (daemon.Ret (Return (daemon.Result i (Some (JStr (js "stopping"))))))
    else daemon.Ret (Return (daemon.Error i (js "Unknown RPC method: " ++ m))).
Proof. intros Hm. unfold daemon.dispatch. rewrite Hm. reflexivity. Qed.

End Fields.

(** ** One request line in one chunk *)

Section OneLine.

Variable SECRET_TOKEN : jsstring.
Variable array_token : json -> completion exn bool.

Lemma on_data_line (s : daemon.process) (line : jsstring) (req : daemon.RpcRequest) :
  daemon.buf s = [] ->
  ~ In LF line ->
  JSON.parse line = Return req ->
  daemon.on_data SECRET_TOKEN array_token s (line ++ [LF]) =
    match daemon.run req (daemon.handleRequest SECRET_TOKEN array_token req)
            (daemon.log [daemon.Handle req] (daemon.set_buf [] s)) with
    | (s', Some c) => daemon.respond req c s'
    | (s', None) => s'
    end.
Proof.
  intros Hbuf Hnl Hparse.
  unfold daemon.on_data. rewrite Hbuf. simpl app.
  rewrite split_nl_line by exact Hnl. simpl split_nl. simpl pop.
  cbn [fold_left]. unfold daemon.on_line. cbv beta iota.
  rewrite (parse_not_blank _ _ Hparse), Hparse.
  destruct (daemon.run req _ _) as [s' [c|]]; [|reflexivity].
  unfold daemon.drain. simpl. destruct c; reflexivity.
Qed.

End OneLine.

(** ** The state store *)

Lemma readDaemonState_parsed (d : disk) (f : file) (v : json) :
  daemon_json d = Some f -> JSON.parse (content f) = Return v ->
  ipc.readDaemonState d = Return v.
Proof.
  intros Hf Hp. unfold ipc.readDaemonState, fs_readFile. rewrite Hf. simpl.
  rewrite Hp. reflexivity.
Qed.

(** C6. Whatever the state of the descriptor file, missing or present
    with a content that is no JSON text, [readDaemonState] returns [null]
    ("absent"): it returns, it does not throw. *)
Theorem readDaemonState_absent_when_missing_or_corrupt :
  forall d : disk,
    (daemon_json d = None \/
     exists f e, daemon_json d = Some f /\ JSON.parse (content f) = Throw e) ->
    ipc.readDaemonState d = Return JNull.
Proof.
  intros d [Hmissing | (f & e & Hf & Hp)];
    unfold ipc.readDaemonState, fs_readFile.
  - rewrite Hmissing. reflexivity.
  - rewrite Hf. simpl. rewrite Hp. reflexivity.
Qed.

Lemma readDaemonState_absent_when_missing_or_corrupt_witness :
  ipc.readDaemonState
    {| daemon_json := Some {| content := jsq "{'pid':4242,'port':5012"; mode := 384 |};
       dir_writable := true |} = Return JNull.
Proof.
  apply readDaemonState_absent_when_missing_or_corrupt.
  right. eexists. exists JSON.SyntaxError. split; [reflexivity|].
  vm_compute. reflexivity.
Defined.

(** C10. [readDaemonState] checks that the content is JSON and nothing
    else: an object without [token] and [port], and a descriptor whose
    token is empty, are texts that parse, are no valid descriptors, and
    are returned as present values. *)
Theorem readDaemonState_does_not_validate :
  exists text1 v1 text2 v2,
    JSON.parse text1 = Return v1 /\ state.valid v1 = false /\ v1 <> JNull /\
    get v1 (js "token") = None /\ get v1 (js "port") = None /\
    JSON.parse text2 = Return v2 /\ state.valid v2 = false /\ v2 <> JNull /\
    get v2 (js "token") = Some (JStr []) /\
    forall d f, daemon_json d = Some f ->
      (content f = text1 -> ipc.readDaemonState d = Return v1) /\
      (content f = text2 -> ipc.readDaemonState d = Return v2).
Proof.
  exists (jsq "{'pid':4242}"), (JObj [(js "pid", JNum (NInt 4242))]).
  exists (jsq "{'pid':4242,'port':50123,'startedAt':'2024-01-01T00:00:00.000Z','token':''}").
  eexists.
  split; [vm_compute; reflexivity|].
  split; [reflexivity|]. split; [discriminate|].
  split; [reflexivity|]. split; [reflexivity|].
  split; [vm_compute; reflexivity|].
  split; [reflexivity|]. split; [discriminate|]. split; [reflexivity|].
  intros d f Hf. split; intros Hc; apply (readDaemonState_parsed d f); try exact Hf;
    rewrite Hc; vm_compute; reflexivity.
Qed.

(** ** What a request can change *)

Lemma jsstring_eqb_eq (a b : jsstring) : jsstring_eqb a b = true <-> a = b.
Proof.
  revert b. induction a as [|x a IH]; intros [|y b]; simpl; split; intros H;
    try reflexivity; try discriminate.
  - apply andb_prop in H as [Hx Hr]. apply N.eqb_eq in Hx. apply IH in Hr. congruence.
  - injection H as -> ->. rewrite N.eqb_refl. apply IH. reflexivity.
Qed.

Lemma jsstring_eqb_refl (a : jsstring) : jsstring_eqb a a = true.
Proof. apply jsstring_eqb_eq. reflexivity. Qed.

Lemma written_app (a b : list daemon.action) :
  daemon.written (a ++ b) = daemon.written a ++ daemon.written b.
Proof.
  induction a as [|x a IH]; [reflexivity|].
  destruct x; simpl; rewrite IH; reflexivity.
Qed.

Lemma handled_app (a b : list daemon.action) :
  daemon.handled (a ++ b) = daemon.handled a ++ daemon.handled b.
Proof.
  induction a as [|x a IH]; [reflexivity|].
  destruct x; simpl; rewrite IH; reflexivity.
Qed.

Lemma remove_nth_Forall {A : Type} (P : A -> Prop) (n : nat) (l : list A) :
  Forall P l -> Forall P (daemon.remove_nth n l).
Proof.
  revert l. induction n as [|n IH]; intros [|y l] H; simpl; try constructor;
    inversion H; subst; auto.
Qed.

Section Frame.

Variable SECRET_TOKEN : jsstring.
Variable array_token : json -> completion exn bool.

Lemma run_vitals (req : daemon.RpcRequest) (p : daemon.prog daemon.RpcResponse) :
  forall s, vitals (fst (daemon.run req p s)) = vitals s.
Proof.
  induction p as [c | call k IH | t k IH | k IH]; intros s; simpl.
  - reflexivity.
  - reflexivity.
  - rewrite IH. reflexivity.
  - apply IH.
Qed.

(** The callbacks write, and change nothing else, unless the request
    is [null] and its handler was rejected. *)
Lemma respond_not_null req c s :
  req <> JNull ->
  daemon.respond req c s
  = if daemon.destroyed s then s
    else daemon.log [daemon.Write (daemon.line_of (daemon.reply req c))] s.
Proof.
  intros Hreq. unfold daemon.respond. destruct (daemon.destroyed s); [reflexivity|].
  destruct req; try reflexivity. congruence.
Qed.

Lemma respond_vitals req c s : req <> JNull -> vitals (daemon.respond req c s) = vitals s.
Proof.
  intros Hreq. rewrite respond_not_null by exact Hreq.
  destruct (daemon.destroyed s); reflexivity.
Qed.

Lemma callbacks_vitals (l : list (daemon.RpcRequest * completion exn daemon.RpcResponse)) :
  Forall (fun rc => fst rc <> JNull) l ->
  forall s, vitals (fold_left (fun s rc => daemon.respond (fst rc) (snd rc) s) l s)
            = vitals s.
Proof.
  induction 1 as [|x l Hx _ IH]; intros s; simpl; [reflexivity|].
  rewrite IH. apply respond_vitals. exact Hx.
Qed.

Lemma drain_vitals settled s :
  Forall (fun rc => fst rc <> JNull) settled ->
  vitals (daemon.drain settled s) = vitals s.
Proof.
  intros Hall. unfold daemon.drain. apply callbacks_vitals.
  apply Forall_app. split; apply Forall_forall; intros rc Hin;
    apply filter_In in Hin; destruct Hin as [Hin _];
    exact (proj1 (Forall_forall _ _) Hall rc Hin).
Qed.

(** The loop over the lines calls the handlers: it leaves the frame
    alone, and the handlers that it finds settled are those of the
    values that the lines hold. *)
Lemma on_line_vitals acc line :
  vitals (fst (daemon.on_line SECRET_TOKEN array_token acc line)) = vitals (fst acc).
Proof.
  destruct acc as [s settled]. unfold daemon.on_line.
  destruct (is_empty (trim line)); [reflexivity|].
  destruct (JSON.parse line) as [req|e]; [|reflexivity].
  pose proof (run_vitals req (daemon.handleRequest SECRET_TOKEN array_token req)
                (daemon.log [daemon.Handle req] s)) as H.
  destruct (daemon.run req _ _) as [s' [c|]]; exact H.
Qed.

Lemma on_lines_vitals lines acc :
  vitals (fst (fold_left (daemon.on_line SECRET_TOKEN array_token) lines acc))
  = vitals (fst acc).
Proof.
  revert acc. induction lines as [|l ls IH]; intros acc; simpl; [reflexivity|].
  rewrite IH. apply on_line_vitals.
Qed.

Lemma on_line_settled acc line rc :
  In rc (snd (daemon.on_line SECRET_TOKEN array_token acc line)) ->
  In rc (snd acc) \/ JSON.parse line = Return (fst rc).
Proof.
  destruct acc as [s settled]. unfold daemon.on_line.
  destruct (is_empty (trim line)); [left; assumption|].
  destruct (JSON.parse line) as [req|e]; [|left; assumption].
  destruct (daemon.run req _ _) as [s' [c|]]; cbn [snd]; [|left; assumption].
  intros Hin. apply in_app_or in Hin. destruct Hin as [Hin|[<-|[]]].
  - left. exact Hin.
  - right. reflexivity.
Qed.

Lemma on_lines_settled lines acc rc :
  In rc (snd (fold_left (daemon.on_line SECRET_TOKEN array_token) lines acc)) ->
  In rc (snd acc) \/ exists line, In line lines /\ JSON.parse line = Return (fst rc).
Proof.
  revert acc. induction lines as [|l ls IH]; intros acc Hin; simpl in Hin; [left; exact Hin|].
  destruct (IH _ Hin) as [H|(line & Hl & Hp)].
  - destruct (on_line_settled acc l rc H) as [H'|H'].
    + left. exact H'.
    + right. exists l. split; [left; reflexivity|exact H'].
  - right. exists line. split; [right; exact Hl|exact Hp].
Qed.

(** A chunk none of whose complete lines holds [null] leaves the
    listener, the Session, the state file and the exit code as they
    are. *)
Lemma on_data_vitals s chunk :
  (forall line, In line (complete_lines (daemon.buf s ++ chunk)) ->
                JSON.parse line <> Return JNull) ->
  vitals (daemon.on_data SECRET_TOKEN array_token s chunk) = vitals s.
Proof.
  intros Hlines. unfold daemon.on_data.
  rewrite (pop_spec (split_nl (daemon.buf s ++ chunk)) []) by apply split_nl_nonempty.
  fold (complete_lines (daemon.buf s ++ chunk)).
  set (lines := complete_lines (daemon.buf s ++ chunk)) in *.
  set (s1 := daemon.set_buf _ s).
  pose proof (on_lines_vitals lines (s1, [])) as H.
  pose proof (fun rc => on_lines_settled lines (s1, []) rc) as Hs.
  destruct (fold_left _ lines _) as [s2 settled]. cbn [fst snd] in H, Hs.
  rewrite drain_vitals; [exact H|].
  apply Forall_forall. intros [req c] Hin Hnull. cbn [fst] in Hnull. subst req.
  destruct (Hs _ Hin) as [[]|(line & Hl & Hp)].
  exact (Hlines line Hl Hp).
Qed.

(** Data, the settling of Session operations and the end of the
    connection leave the listener, the Session, the state file and the
    exit code as they are, unless a line holds [null]. *)
Lemma step_vitals s i :
  i <> daemon.Signal -> i <> daemon.Check ->
  no_null_pending s ->
  (forall chunk line, i = daemon.Data chunk ->
                      In line (complete_lines (daemon.buf s ++ chunk)) ->
                      JSON.parse line <> Return JNull) ->
  vitals (daemon.step SECRET_TOKEN array_token s i) = vitals s.
Proof.
  intros Hs Hc Hpend Hlines. unfold daemon.step.
  destruct (daemon.exit_code s) eqn:E; [reflexivity|].
  destruct i as [chunk | n r | | | ]; try congruence.
  - destruct (daemon.destroyed s); [reflexivity|]. apply on_data_vitals.
    intros line. apply Hlines. reflexivity.
  - destruct (nth_error (daemon.pending s) n) as [[req k]|] eqn:En; [|reflexivity].
    pose proof (run_vitals req (k r)
                  (daemon.set_pending (daemon.remove_nth n (daemon.pending s)) s)) as H.
    destruct (daemon.run req _ _) as [s' [c|]]; simpl in H.
    + rewrite respond_vitals; [exact H|].
      apply nth_error_In in En.
      exact (proj1 (Forall_forall _ _) Hpend _ En).
    + exact H.
  - reflexivity.
Qed.

(** The process exits on a signal, when a queued shutdown runs, or on
    a chunk one of whose complete lines holds [null]. *)
Lemma exit_only_by_shutdown_or_null s i :
  daemon.exit_code s = None ->
  no_null_pending s ->
  daemon.exit_code (daemon.step SECRET_TOKEN array_token s i) <> None ->
  i = daemon.Signal
  \/ (i = daemon.Check /\ daemon.immediates s <> [])
  \/ (exists chunk line,
        i = daemon.Data chunk
        /\ In line (complete_lines (daemon.buf s ++ chunk))
        /\ JSON.parse line = Return JNull).
Proof.
  intros Hrun Hpend Hexit.
  destruct i as [chunk | n r | | | ].
  - right. right.
    destruct (Exists_dec (fun line => JSON.parse line = Return JNull)
                (complete_lines (daemon.buf s ++ chunk))) as [Hex|Hno].
    { intros line. destruct (JSON.parse line) as [[]|e];
        first [left; reflexivity | right; discriminate]. }
    + apply Exists_exists in Hex. destruct Hex as (line & Hl & Hp).
      exists chunk, line. repeat split; assumption.
    + exfalso. apply Hexit.
      assert (H : vitals (daemon.step SECRET_TOKEN array_token s (daemon.Data chunk))
                  = vitals s).
      { apply step_vitals; try discriminate; [exact Hpend|].
        intros chunk' line E Hl Hp. injection E as <-.
        apply Hno. apply Exists_exists. exists line. split; assumption. }
      unfold vitals in H. injection H as _ _ _ Hx. rewrite Hx. exact Hrun.
  - exfalso. apply Hexit.
    pose proof (step_vitals s (daemon.Settle n r) ltac:(discriminate) ltac:(discriminate)
                  Hpend ltac:(discriminate)) as H.
    unfold vitals in H. injection H as _ _ _ Hx. rewrite Hx. exact Hrun.
  - right. left. split; [reflexivity|]. intros Hnil. apply Hexit.
    unfold daemon.step. rewrite Hrun, Hnil. exact Hrun.
  - left. reflexivity.
  - exfalso. apply Hexit.
    pose proof (step_vitals s daemon.Close ltac:(discriminate) ltac:(discriminate)
                  Hpend ltac:(discriminate)) as H.
    unfold vitals in H. injection H as _ _ _ Hx. rewrite Hx. exact Hrun.
Qed.

(** No step makes a handler of [null] wait. *)
Lemma run_pending (req : daemon.RpcRequest) (p : daemon.prog daemon.RpcResponse) :
  forall s,
    daemon.pending (fst (daemon.run req p s)) = daemon.pending s
    \/ exists k, daemon.pending (fst (daemon.run req p s)) = daemon.pending s ++ [(req, k)]
                 /\ snd (daemon.run req p s) = None.
Proof.
  induction p as [c | call k IH | t k IH | k IH]; intros s; simpl.
  - left. reflexivity.
  - right. exists k. split; reflexivity.
  - exact (IH (daemon.set_immediates (daemon.immediates s ++ [t])
                 (daemon.log [daemon.Immediate t] s))).
  - apply IH.
Qed.

(** A handler queues a shutdown only for the method [stop], and only
    behind the token check. *)
Lemma shutdown_only_by_stop (req : daemon.RpcRequest) (s : daemon.process) :
  daemon.immediates (fst (daemon.run req (daemon.handleRequest SECRET_TOKEN array_token req) s))
    = daemon.immediates s
  \/ (daemon.immediates
        (fst (daemon.run req (daemon.handleRequest SECRET_TOKEN array_token req) s))
        = daemon.immediates s ++ [daemon.Shutdown]
      /\ daemon.method req = Some (JStr (js "stop"))
      /\ exists t, daemon.token req = Some t
                   /\ daemon.token_matches SECRET_TOKEN array_token t = Return true).
Proof.
  unfold daemon.handleRequest.
  destruct req as [|b|n|x|l|o]; try (left; reflexivity);
    (destruct (daemon.token _) as [t|] eqn:Et; [|left; reflexivity];
     destruct (negb (truthy (Some t))); [left; reflexivity|];
     destruct (daemon.token_matches SECRET_TOKEN array_token t) as [[|]|e] eqn:Ecmp;
       [|left; reflexivity|left; reflexivity];
     unfold daemon.dispatch;
     destruct (daemon.method _) as [[|?|?|m|?|?]|] eqn:Em;
       try (left; unfold daemon.unknown;
            match goal with |- context [String_of ?v] => destruct (String_of v) end;
            reflexivity);
     repeat match goal with
            | |- context [if jsstring_eqb m ?n then _ else _] =>
                destruct (jsstring_eqb m n) eqn:?;
                [first [left; reflexivity | idtac] | ]
            end;
     [ right; simpl; split; [reflexivity|]; split;
       [ f_equal; f_equal; apply jsstring_eqb_eq; assumption
       | exists t; split; [reflexivity|exact Ecmp] ]
     | left; reflexivity ]).
Qed.

End Frame.

(** ** The proxy's [destroy] *)

Section NullRequests.

Variable SECRET_TOKEN : jsstring.
Variable array_token : json -> completion exn bool.

(** The handler of [null] never waits: no step makes the daemon hold
    one. *)
Lemma on_lines_no_null_pending (lines : list jsstring) :
  forall acc,
    no_null_pending (fst acc) ->
    no_null_pending (fst (fold_left (daemon.on_line SECRET_TOKEN array_token) lines acc)).
Proof.
  induction lines as [|l ls IH]; intros acc H; [exact H|].
  simpl. apply IH. destruct acc as [s settled]. unfold daemon.on_line.
  destruct (is_empty (trim l)); [exact H|].
  destruct (JSON.parse l) as [req|e]; [|exact H].
  set (s0 := daemon.log [daemon.Handle req] s).
  assert (Hnull : req = JNull ->
                  snd (daemon.run req (daemon.handleRequest SECRET_TOKEN array_token req) s0)
                  <> None).
  { intros ->. discriminate. }
  destruct (run_pending req (daemon.handleRequest SECRET_TOKEN array_token req) s0)
    as [Hp|(k & Hp & Hnone)].
  - destruct (daemon.run req _ s0) as [s' [c|]]; cbn [fst] in *;
      unfold no_null_pending; rewrite Hp; exact H.
  - destruct (daemon.run req _ s0) as [s' [c|]]; cbn [fst snd] in *; [discriminate|].
    unfold no_null_pending. rewrite Hp. apply Forall_app. split; [exact H|].
    constructor; [|constructor]. cbn [fst]. intros E. exact (Hnull E eq_refl).
Qed.

Lemma respond_pending req c s :
  daemon.pending (daemon.respond req c s) = daemon.pending s.
Proof.
  unfold daemon.respond. destruct (daemon.destroyed s); [reflexivity|].
  destruct req, c; reflexivity.
Qed.

Lemma step_no_null_pending (s : daemon.process) (i : daemon.input) :
  no_null_pending s -> no_null_pending (daemon.step SECRET_TOKEN array_token s i).
Proof.
  intros H. unfold daemon.step. destruct (daemon.exit_code s); [exact H|].
  destruct i as [chunk | n r | | | ].
  - destruct (daemon.destroyed s); [exact H|]. unfold daemon.on_data.
    destruct (pop (split_nl (daemon.buf s ++ chunk))) as [lines last].
    pose proof (on_lines_no_null_pending lines
                  (daemon.set_buf match last with Some l => l | None => [] end s, []) H)
      as Hl.
    destruct (fold_left _ lines _) as [s2 settled]. cbn [fst] in Hl.
    unfold daemon.drain.
    generalize (filter (fun rc : daemon.RpcRequest * completion exn daemon.RpcResponse =>
                          daemon.is_fulfilled (snd rc)) settled
                ++ filter (fun rc => negb (daemon.is_fulfilled (snd rc))) settled).
    intros l. revert s2 Hl. induction l as [|x l IH]; intros s2 Hl; [exact Hl|].
    simpl. apply IH. unfold no_null_pending. rewrite respond_pending. exact Hl.
  - destruct (nth_error (daemon.pending s) n) as [[req k]|] eqn:En; [|exact H].
    assert (Hreq : req <> JNull).
    { apply nth_error_In in En. exact (proj1 (Forall_forall _ _) H _ En). }
    assert (Hrest : no_null_pending
                      (daemon.set_pending (daemon.remove_nth n (daemon.pending s)) s)).
    { unfold no_null_pending in *. cbn [daemon.pending daemon.set_pending].
      apply remove_nth_Forall. exact H. }
    destruct (run_pending req (k r)
                (daemon.set_pending (daemon.remove_nth n (daemon.pending s)) s))
      as [Hp|(k' & Hp & _)];
      destruct (daemon.run req (k r) _) as [s' [c|]]; cbn [fst] in Hp;
      unfold no_null_pending in *; try rewrite respond_pending; rewrite Hp;
      try exact Hrest;
      (apply Forall_app; split; [exact Hrest|]; constructor; [exact Hreq|constructor]).
  - destruct (daemon.immediates s) as [|[] rest]; exact H.
  - exact H.
  - exact H.
Qed.

(** The line [null]: the handler is rejected, the [catch] callback
    throws, and the process ends with exit code 1. Nothing is written,
    nothing is closed or removed. *)
Lemma null_line_exits (s : daemon.process) :
  daemon.exit_code s = None -> daemon.destroyed s = false -> daemon.buf s = [] ->
  daemon.step SECRET_TOKEN array_token s (daemon.Data (js "null" ++ [LF]))
  = daemon.unhandled_rejection (daemon.log [daemon.Handle JNull] (daemon.set_buf [] s)).
Proof.
  intros Hrun Hopen Hbuf. unfold daemon.step. rewrite Hrun, Hopen.
  rewrite (on_data_line SECRET_TOKEN array_token s (js "null") JNull Hbuf).
  - cbn [daemon.handleRequest daemon.run]. unfold daemon.respond.
    cbn [daemon.destroyed daemon.log daemon.set_buf]. rewrite Hopen. reflexivity.
  - vm_compute. intros H. repeat (destruct H as [H|H]; [discriminate|]). exact H.
  - vm_compute. reflexivity.
Qed.

End NullRequests.

(** C9. [IpcClient.destroy()] is a no-op: it resolves and writes no
    request; the cleanup of a command that holds a proxy therefore sends
    nothing to the daemon, whose process and state file stay as they are.
    A handler queues a shutdown only for [stop] behind the token check,
    and the daemon exits on a signal or when a queued shutdown runs. It
    also exits, against the claim, on a line that holds [null]: the
    handler is rejected at the destructuring, its [catch] callback
    throws at [req.id], and the process ends with exit code 1, with no
    response, its listener unclosed and its state file in place. *)
Theorem IpcClient_destroy_is_a_noop :
  forall (SECRET_TOKEN : jsstring) (array_token : json -> completion exn bool)
         (c : ipc.IpcClient) (p : daemon.process),
    ipc.destroy c = ([], Return VUndefined)
    /\ chats.cleanup (Some (connect.Proxy c)) = ([], false)
    /\ loopback.deliver SECRET_TOKEN array_token
         (fst (chats.cleanup (Some (connect.Proxy c)))) p = p
    /\ (forall req,
          daemon.immediates
            (fst (daemon.run req (daemon.handleRequest SECRET_TOKEN array_token req) p))
            <> daemon.immediates p ->
          daemon.method req = Some (JStr (js "stop"))
          /\ exists t, daemon.token req = Some t
                       /\ daemon.token_matches SECRET_TOKEN array_token t = Return true)
    /\ (forall i,
          daemon.exit_code p = None -> no_null_pending p ->
          daemon.exit_code (daemon.step SECRET_TOKEN array_token p i) <> None ->
          i = daemon.Signal
          \/ (i = daemon.Check /\ daemon.immediates p <> [])
          \/ (exists chunk line,
                i = daemon.Data chunk
                /\ In line (complete_lines (daemon.buf p ++ chunk))
                /\ JSON.parse line = Return JNull))
    /\ (forall i, no_null_pending p ->
                  no_null_pending (daemon.step SECRET_TOKEN array_token p i))
    /\ (daemon.exit_code p = None -> daemon.destroyed p = false -> daemon.buf p = [] ->
        let q := daemon.step SECRET_TOKEN array_token p (daemon.Data (js "null" ++ [LF])) in
        daemon.exit_code q = Some 1%Z
        /\ daemon.immediates q = daemon.immediates p
        /\ daemon.written (daemon.journal q) = daemon.written (daemon.journal p)
        /\ daemon.listening q = daemon.listening p
        /\ daemon.session_alive q = daemon.session_alive p
        /\ daemon.files q = daemon.files p).
Proof.
  intros SECRET_TOKEN array_token c p.
  split; [reflexivity|]. split; [reflexivity|]. split; [reflexivity|].
  split; [|split; [|split]].
  - intros req Hchange.
    destruct (shutdown_only_by_stop SECRET_TOKEN array_token req p)
      as [Hsame | (_ & Hm & Ht)].
    + contradiction.
    + split; assumption.
  - intros i. apply exit_only_by_shutdown_or_null.
  - intros i. apply step_no_null_pending.
  - intros Hrun Hopen Hbuf q. subst q.
    rewrite (null_line_exits SECRET_TOKEN array_token p Hrun Hopen Hbuf).
    cbn [daemon.exit_code daemon.immediates daemon.journal daemon.listening
         daemon.session_alive daemon.files daemon.unhandled_rejection daemon.log
         daemon.set_buf].
    repeat split. rewrite written_app. cbn [daemon.written]. apply app_nil_r.
Qed.

Lemma IpcClient_destroy_is_a_noop_witness :
  let q := daemon.step example_secret no_array_token example_process
             (daemon.Data (js "null" ++ [LF])) in
  daemon.exit_code q = Some 1%Z
  /\ daemon.immediates q = daemon.immediates example_process
  /\ daemon.written (daemon.journal q) = daemon.written (daemon.journal example_process)
  /\ daemon.listening q = daemon.listening example_process
  /\ daemon.session_alive q = daemon.session_alive example_process
  /\ daemon.files q = daemon.files example_process.
Proof.
  apply (proj2 (proj2 (proj2 (proj2 (proj2 (proj2
           (IpcClient_destroy_is_a_noop example_secret no_array_token
              {| ipc.port := None; ipc.token := None |} example_process))))))).
  - reflexivity.
  - reflexivity.
  - reflexivity.
Defined.

(** ** The token a request presents *)

Lemma timingSafeEqual_byte_lengths (a b : jsstring) :
  length a = length b ->
  length (Buffer_from a) <> length (Buffer_from b) ->
  daemon.timingSafeEqual a b = Throw crypto.ERR_CRYPTO_TIMING_SAFE_EQUAL_LENGTH.
Proof.
  intros Hlen Hbytes. unfold daemon.timingSafeEqual, crypto.timingSafeEqual.
  rewrite Hlen, Nat.eqb_refl. simpl.
  apply Nat.eqb_neq in Hbytes. rewrite Hbytes. reflexivity.
Qed.

(** C1, at a token of the secret's length that holds a character outside
    ASCII. The token is not the secret, yet the handler does not return
    the response [Unauthorized]: [crypto.timingSafeEqual] throws on
    buffers of 65 and 64 bytes, the promise of the handler is rejected,
    and the connection is answered with the text of the [RangeError]. No
    method runs: the journal gains the call of the handler and the write. *)
Theorem handleRequest_rejects_with_RangeError :
  forall (SECRET_TOKEN : jsstring) (array_token : json -> completion exn bool)
         (s : daemon.process),
    length SECRET_TOKEN = 64%nat ->
    Forall (fun c => (c < 128)%N) SECRET_TOKEN ->
    daemon.exit_code s = None -> daemon.destroyed s = false -> daemon.buf s = [] ->
    daemon.token odd_request <> Some (JStr SECRET_TOKEN)
    /\ daemon.handleRequest SECRET_TOKEN array_token odd_request
       = daemon.Ret (Throw crypto.ERR_CRYPTO_TIMING_SAFE_EQUAL_LENGTH)
    /\ daemon.handleRequest SECRET_TOKEN array_token odd_request
       <> daemon.Ret (Return (daemon.Error (Some (JStr (js "1"))) (js "Unauthorized")))
    /\ daemon.journal (daemon.step SECRET_TOKEN array_token s (daemon.Data (odd_line ++ [LF])))
       = daemon.journal s
         ++ [daemon.Handle odd_request;
             daemon.Write
               (jsq ("{'id':'1','error':'RangeError: "
                     ++ "Input buffers must have the same byte length'}") ++ [LF])].
Proof.
  intros SECRET_TOKEN array_token s Hlen Hascii Hrun Hopen Hbuf.
  assert (Hthrow : daemon.handleRequest SECRET_TOKEN array_token odd_request
                   = daemon.Ret (Throw crypto.ERR_CRYPTO_TIMING_SAFE_EQUAL_LENGTH)).
  { rewrite (handleRequest_string_token SECRET_TOKEN array_token odd_request odd_token)
      by reflexivity.
    change (is_empty odd_token) with false. cbv iota.
    rewrite (timingSafeEqual_byte_lengths odd_token SECRET_TOKEN); [reflexivity| |].
    - rewrite Hlen. reflexivity.
    - rewrite (Buffer_from_ascii SECRET_TOKEN Hascii), Hlen. vm_compute. discriminate. }
  split.
  - intros H. injection H as H. rewrite <- H in Hascii.
    inversion Hascii as [|? ? Hc _]. vm_compute in Hc. discriminate.
  - split; [exact Hthrow|]. split; [rewrite Hthrow; discriminate|].
    unfold daemon.step. rewrite Hrun, Hopen.
    rewrite (on_data_line SECRET_TOKEN array_token s odd_line odd_request Hbuf).
    + rewrite Hthrow. cbn [daemon.run]. rewrite respond_not_null by discriminate.
      simpl daemon.destroyed. rewrite Hopen.
      cbn [daemon.journal daemon.log daemon.set_buf].
      rewrite <- app_assoc. f_equal.
    + vm_compute. intros H. repeat (destruct H as [H|H]; [discriminate|]). exact H.
    + vm_compute. reflexivity.
Qed.

Lemma handleRequest_rejects_with_RangeError_witness :
  daemon.handleRequest example_secret no_array_token odd_request
  = daemon.Ret (Throw crypto.ERR_CRYPTO_TIMING_SAFE_EQUAL_LENGTH).
Proof.
  refine (proj1 (proj2
            (handleRequest_rejects_with_RangeError example_secret no_array_token
               example_process _ _ _ _ _))).
  - reflexivity.
  - unfold example_secret. repeat (constructor; [reflexivity|]). constructor.
  - reflexivity.
  - reflexivity.
  - reflexivity.
Defined.

(** ** Which tokens are turned away, and how *)

Lemma accumulate_zero (a b : list N) :
  length a = length b ->
  forall acc,
    fold_left (fun x xy => N.lor x (N.lxor (fst xy) (snd xy))) (combine a b) acc = 0%N
    <-> acc = 0%N /\ a = b.
Proof.
  revert b. induction a as [|x a IH]; intros [|y b] Hlen acc; simpl in Hlen; try discriminate.
  - simpl. split; [intros H; split; [exact H|reflexivity]|intros [H _]; exact H].
  - simpl. injection Hlen as Hlen. rewrite (IH b Hlen). split.
    + intros [Hor ->]. apply N.lor_eq_0_iff in Hor as [Hacc Hx].
      apply N.lxor_eq in Hx. subst. split; reflexivity.
    + intros [-> H]. injection H as -> ->. split; [|reflexivity].
      rewrite N.lxor_nilpotent. reflexivity.
Qed.

Lemma crypto_timingSafeEqual_spec (a b : list N) :
  length a = length b ->
  crypto.timingSafeEqual a b = Return true <-> a = b.
Proof.
  intros Hlen. unfold crypto.timingSafeEqual. rewrite Hlen, Nat.eqb_refl. split.
  - intros H. injection H as H. apply N.eqb_eq in H.
    apply (accumulate_zero a b Hlen) in H. tauto.
  - intros ->. rewrite accumulate_equal. reflexivity.
Qed.

(** Every code unit gives at least one byte, and one outside ASCII gives
    more: a string is as long as its UTF-8 encoding exactly when it is
    ASCII. *)
Lemma Buffer_from_length_bounded (n : nat) :
  forall s, (length s <= n)%nat ->
    (length s <= length (Buffer_from s))%nat
    /\ (length (Buffer_from s) = length s -> Forall (fun c => (c < 128)%N) s).
Proof.
  induction n as [|n IH]; intros s Hn.
  - destruct s; [|simpl in Hn; lia]. split; [reflexivity|constructor].
  - destruct s as [|c r]; [split; [reflexivity|constructor]|].
    simpl in Hn. assert (Hr : (length r <= n)%nat) by lia.
    destruct (IH r Hr) as [Hle Hascii].
    cbn [Buffer_from].
    destruct (N.ltb_spec c 128) as [Hc|Hc].
    { simpl. split; [lia|]. intros H. constructor; [exact Hc|].
      apply Hascii. lia. }
    destruct (c <? 2048)%N.
    { unfold utf8_2. simpl. split; lia. }
    destruct (is_high_surrogate c).
    { destruct r as [|d r'].
      - simpl. split; lia.
      - destruct (is_low_surrogate d).
        + destruct (IH r') as [Hle' _]; [simpl in Hr; lia|].
          unfold utf8_4. simpl. split; lia.
        + unfold utf8_replacement. simpl in *. split; lia. }
    destruct (is_low_surrogate c).
    { unfold utf8_replacement. simpl. split; lia. }
    unfold utf8_3. simpl. split; lia.
Qed.

Lemma Buffer_from_length (s : jsstring) :
  length (Buffer_from s) = length s <-> Forall (fun c => (c < 128)%N) s.
Proof.
  split.
  - apply (Buffer_from_length_bounded (length s) s (Nat.le_refl _)).
  - intros H. rewrite (Buffer_from_ascii s H). reflexivity.
Qed.

Section TokenCheck.

Variable SECRET_TOKEN : jsstring.
Variable array_token : json -> completion exn bool.
Hypothesis secret_ascii : Forall (fun c => (c < 128)%N) SECRET_TOKEN.

(** The comparison of a presented token with an ASCII secret: [true] for
    the secret, a [RangeError] for a token of the same length that is not
    ASCII, [false] for every other token. *)
Lemma timingSafeEqual_cases (t : jsstring) :
  daemon.timingSafeEqual t SECRET_TOKEN
  = if negb (Nat.eqb (length t) (length SECRET_TOKEN)) then Return false
    else if forallb (fun c => (c <? 128)%N) t then Return (jsstring_eqb t SECRET_TOKEN)
    else Throw crypto.ERR_CRYPTO_TIMING_SAFE_EQUAL_LENGTH.
Proof.
  unfold daemon.timingSafeEqual.
  destruct (Nat.eqb_spec (length t) (length SECRET_TOKEN)) as [Hlen|Hlen]; [|reflexivity].
  cbn [negb]. destruct (forallb (fun c => (c <? 128)%N) t) eqn:E.
  - assert (Ht : Forall (fun c => (c < 128)%N) t).
    { rewrite forallb_forall in E. apply Forall_forall. intros c Hc.
      apply N.ltb_lt. apply E. exact Hc. }
    rewrite (Buffer_from_ascii t Ht), (Buffer_from_ascii _ secret_ascii).
    destruct (jsstring_eqb t SECRET_TOKEN) eqn:Eq.
    + apply crypto_timingSafeEqual_spec; [exact Hlen|]. apply jsstring_eqb_eq. exact Eq.
    + unfold crypto.timingSafeEqual. rewrite Hlen, Nat.eqb_refl. f_equal.
      apply N.eqb_neq. intros H. apply (accumulate_zero t _ Hlen) in H.
      destruct H as [_ H]. apply jsstring_eqb_eq in H. congruence.
  - unfold crypto.timingSafeEqual.
    replace (Nat.eqb (length (Buffer_from t)) (length (Buffer_from SECRET_TOKEN)))
      with false; [reflexivity|].
    symmetry. apply Nat.eqb_neq.
    rewrite (Buffer_from_ascii _ secret_ascii), <- Hlen. intros H.
    apply Buffer_from_length in H.
    assert (forallb (fun c => (c <? 128)%N) t = true); [|congruence].
    apply forallb_forall. intros c Hc. apply N.ltb_lt.
    rewrite Forall_forall in H. apply H. exact Hc.
Qed.

(** A request that is not [null] and whose token is absent or falsy, a
    number or [true], a string of another length than the secret or an
    ASCII string different from it, an array of another number of
    elements, or an object without a numeric [length], gets
    [Unauthorized] from a handler that does nothing else. *)
Lemma handleRequest_unauthorized (req : daemon.RpcRequest) :
  req <> JNull ->
  match daemon.token req with
  | None => True
  | Some (JStr t) =>
      t = [] \/ length t <> length SECRET_TOKEN
      \/ (Forall (fun c => (c < 128)%N) t /\ t <> SECRET_TOKEN)
  | Some (JArr l) => length l <> length SECRET_TOKEN
  | Some (JObj o) => forall n, lookup (js "length") o <> Some (JNum n)
  | Some _ => True
  end ->
  daemon.handleRequest SECRET_TOKEN array_token req
  = daemon.Ret (Return (daemon.Error (daemon.id req) (js "Unauthorized"))).
Proof.
  intros Hreq. rewrite handleRequest_not_null by exact Hreq.
  destruct (daemon.token req) as [[|b|n|t|l|o]|]; try reflexivity.
  - intros _. destruct (negb (truthy (Some (JBool b)))); reflexivity.
  - intros _. destruct (negb (truthy (Some (JNum n)))); reflexivity.
  - intros H. cbn [truthy daemon.token_matches]. rewrite negb_involutive.
    destruct (is_empty t) eqn:Ee; [reflexivity|].
    rewrite timingSafeEqual_cases.
    destruct H as [-> | [Hlen | [Hascii Hne]]].
    + discriminate.
    + apply Nat.eqb_neq in Hlen. rewrite Hlen. reflexivity.
    + destruct (negb (Nat.eqb (length t) (length SECRET_TOKEN))); [reflexivity|].
      replace (forallb (fun c => (c <? 128)%N) t) with true.
      * replace (jsstring_eqb t SECRET_TOKEN) with false; [reflexivity|].
        symmetry. destruct (jsstring_eqb t SECRET_TOKEN) eqn:E; [|reflexivity].
        apply jsstring_eqb_eq in E. congruence.
      * symmetry. apply forallb_forall. intros c Hc. apply N.ltb_lt.
        rewrite Forall_forall in Hascii. apply Hascii. exact Hc.
  - intros Hlen. cbn [truthy negb daemon.token_matches].
    apply Nat.eqb_neq in Hlen. rewrite Hlen. reflexivity.
  - intros Hno. cbn [truthy negb daemon.token_matches].
    destruct (lookup (js "length") o) as [[|?|n|?|?|?]|] eqn:E; try reflexivity.
    destruct (Hno n eq_refl).
Qed.

End TokenCheck.

(** ** [stop] *)

Lemma handleRequest_stop (SECRET_TOKEN : jsstring)
    (array_token : json -> completion exn bool) (req : daemon.RpcRequest) :
  SECRET_TOKEN <> [] ->
  daemon.token req = Some (JStr SECRET_TOKEN) ->
  daemon.method req = Some (JStr (js "stop")) ->
  daemon.handleRequest SECRET_TOKEN array_token req
  = daemon.SetImmediate daemon.Shutdown
      (daemon.Ret (Return (daemon.Result (daemon.id req) (Some (JStr (js "stopping")))))).
Proof.
  intros Hne Htoken Hmethod.
  rewrite (handleRequest_authenticated SECRET_TOKEN array_token req Hne Htoken).
  rewrite (dispatch_string_method req (js "stop") Hmethod). reflexivity.
Qed.

(** C3. An authenticated [stop] is answered before any shutdown action:
    the handler only queues the shutdown with [setImmediate] and returns
    [{id, result: 'stopping'}]; in the turn in which the request arrives
    the response is written while the listener, the Session, the state
    file and the exit code are untouched; the listener is closed, the
    Session destroyed, the state file removed and the process ended when
    the queued callback runs, after the write. *)
Theorem stop_responds_before_shutdown :
  forall (SECRET_TOKEN : jsstring) (array_token : json -> completion exn bool)
         (s : daemon.process) (line : jsstring) (req : daemon.RpcRequest),
    SECRET_TOKEN <> [] ->
    daemon.exit_code s = None -> daemon.destroyed s = false -> daemon.buf s = [] ->
    ~ In LF line ->
    JSON.parse line = Return req ->
    daemon.method req = Some (JStr (js "stop")) ->
    daemon.token req = Some (JStr SECRET_TOKEN) ->
    let response := daemon.Result (daemon.id req) (Some (JStr (js "stopping"))) in
    let s1 := daemon.step SECRET_TOKEN array_token s (daemon.Data (line ++ [LF])) in
    let s2 := daemon.step SECRET_TOKEN array_token s1 daemon.Check in
    daemon.handleRequest SECRET_TOKEN array_token req
    = daemon.SetImmediate daemon.Shutdown (daemon.Ret (Return response))
    /\ daemon.journal s1
       = daemon.journal s
         ++ [daemon.Handle req; daemon.Immediate daemon.Shutdown;
             daemon.Write (daemon.line_of response)]
    /\ vitals s1 = vitals s
    /\ daemon.immediates s1 = daemon.immediates s ++ [daemon.Shutdown]
    /\ daemon.journal s2
       = daemon.journal s1
         ++ [daemon.LogInfo; daemon.ServerClose; daemon.ClientDestroy;
             daemon.RemoveDaemonState; daemon.ProcessExit 0]
    /\ vitals s2 = (false, false, state.removeDaemonState (daemon.files s), Some 0%Z).
Proof.
  intros SECRET_TOKEN array_token s line req Hne Hrun Hopen Hbuf Hnl Hparse Hmethod Htoken
         response s1 s2.
  pose proof (handleRequest_stop SECRET_TOKEN array_token req Hne Htoken Hmethod) as Hh.
  assert (Hreq : req <> JNull) by (intros ->; discriminate).
  assert (Hs1 : s1 = daemon.log [daemon.Write (daemon.line_of response)]
                       (daemon.set_immediates (daemon.immediates s ++ [daemon.Shutdown])
                          (daemon.log [daemon.Immediate daemon.Shutdown]
                             (daemon.log [daemon.Handle req] (daemon.set_buf [] s))))).
  { unfold s1, daemon.step. rewrite Hrun, Hopen.
    rewrite (on_data_line SECRET_TOKEN array_token s line req Hbuf Hnl Hparse), Hh.
    cbn [daemon.run]. rewrite respond_not_null by exact Hreq.
    simpl daemon.destroyed. rewrite Hopen. reflexivity. }
  split; [exact Hh|].
  split; [rewrite Hs1; simpl; rewrite <- !app_assoc; reflexivity|].
  split; [rewrite Hs1; reflexivity|].
  split; [rewrite Hs1; reflexivity|].
  assert (Hs2 : s2 = daemon.shutdown
                       (daemon.set_immediates (tl (daemon.immediates s ++ [daemon.Shutdown])) s1)).
  { unfold s2, daemon.step.
    replace (daemon.exit_code s1) with (@None Z) by (rewrite Hs1; simpl; congruence).
    replace (daemon.immediates s1) with (daemon.immediates s ++ [daemon.Shutdown])
      by (rewrite Hs1; reflexivity).
    destruct (daemon.immediates s) as [|[] rest]; reflexivity. }
  split.
  - rewrite Hs2. reflexivity.
  - rewrite Hs2, Hs1. reflexivity.
Qed.

Lemma stop_responds_before_shutdown_witness :
  daemon.journal (daemon.step example_secret no_array_token example_process
                    (daemon.Data (stop_line ++ [LF])))
  = daemon.journal example_process
    ++ [daemon.Handle stop_request; daemon.Immediate daemon.Shutdown;
        daemon.Write
          (daemon.line_of (daemon.Result (Some (JStr (js "7")))
                             (Some (JStr (js "stopping")))))].
Proof.
  refine (proj1 (proj2
            (stop_responds_before_shutdown example_secret no_array_token example_process
               stop_line stop_request _ _ _ _ _ _ _ _))).
  - discriminate.
  - reflexivity.
  - reflexivity.
  - reflexivity.
  - vm_compute. intros H. repeat (destruct H as [H|H]; [discriminate|]). exact H.
  - vm_compute. reflexivity.
  - reflexivity.
  - reflexivity.
Defined.

(** ** Date revival *)

Lemma lookup_define_fresh {A : Type} (o : list (jsstring * A)) (k : jsstring) (v : A) :
  ~ In k (map fst o) -> define o k v = o ++ [(k, v)].
Proof.
  induction o as [|[k' v'] r IH]; intros Hk; simpl; [reflexivity|].
  destruct (jsstring_eqb k k') eqn:E.
  - exfalso. apply Hk. left. apply jsstring_eqb_eq in E. symmetry. exact E.
  - rewrite IH; [reflexivity|]. intros Hin. apply Hk. right. exact Hin.
Qed.

(** Copying the entries one by one into a new object keeps them in
    order, the entry of [__proto__] apart. *)
Lemma assign_all (f : value -> value) (o acc : list (jsstring * value)) :
  NoDup (map fst acc ++ map fst o) ->
  fold_left (fun out kv => ipc.assign out (fst kv) (f (snd kv))) o acc
  = acc ++ map (fun kv => (fst kv, f (snd kv))) (filter not_proto o).
Proof.
  revert acc. induction o as [|[k v] r IH]; intros acc Hnd; simpl.
  - rewrite app_nil_r. reflexivity.
  - unfold ipc.assign at 2. unfold not_proto at 1. simpl fst. simpl snd.
    assert (Hr : NoDup (map fst acc ++ map fst r)).
    { apply NoDup_remove_1 in Hnd. exact Hnd. }
    destruct (jsstring_eqb k (js "__proto__")) eqn:E; simpl negb; cbv iota.
    + apply IH. exact Hr.
    + rewrite lookup_define_fresh.
      * rewrite IH.
        -- rewrite <- app_assoc. reflexivity.
        -- rewrite map_app, <- app_assoc. simpl. exact Hnd.
      * apply NoDup_remove_2 in Hnd. intros Hin. apply Hnd.
        apply in_or_app. left. exact Hin.
Qed.

(** C8, as the code has it. [reviveDates] goes through arrays element by
    element and through objects entry by entry (an entry under the key
    [__proto__] apart); a string that matches [ISO_RE] becomes the [Date]
    that [new Date] makes of it when that date is valid; a matching string
    whose date is invalid, every string that does not match, and every
    other primitive are returned unchanged. *)
Theorem reviveDates_revives_valid_dates :
  forall h : host,
    (forall s t, ipc.ISO_RE_test s = true -> Date_parse h s = Some t ->
                 ipc.reviveDates h (VStr s) = VDate t)
    /\ (forall s, ipc.ISO_RE_test s = true -> Date_parse h s = None ->
                  ipc.reviveDates h (VStr s) = VStr s)
    /\ (forall s, ipc.ISO_RE_test s = false -> ipc.reviveDates h (VStr s) = VStr s)
    /\ (forall l, ipc.reviveDates h (VArr l) = VArr (map (ipc.reviveDates h) l))
    /\ (forall o, NoDup (map fst o) ->
                  ipc.reviveDates h (VObj o)
                  = VObj (map (fun kv => (fst kv, ipc.reviveDates h (snd kv)))
                            (filter not_proto o)))
    /\ ipc.reviveDates h VUndefined = VUndefined
    /\ ipc.reviveDates h VNull = VNull
    /\ (forall b, ipc.reviveDates h (VBool b) = VBool b)
    /\ (forall n, ipc.reviveDates h (VNum n) = VNum n).
Proof.
  intros h. repeat split.
  - intros s t Hre Hd. simpl. rewrite Hre, Hd. reflexivity.
  - intros s Hre Hd. simpl. rewrite Hre, Hd. reflexivity.
  - intros s Hre. simpl. rewrite Hre. reflexivity.
  - intros o Hnd. simpl. f_equal.
    exact (assign_all (ipc.reviveDates h) o [] Hnd).
Qed.

Lemma reviveDates_revives_valid_dates_witness :
  ipc.reviveDates utc_host (VStr (js "2024-01-01T00:00:00.000Z")) = VDate 1704067200000
  /\ ipc.reviveDates utc_host (VStr (js "2024-13-01T00:00:00")) = VStr (js "2024-13-01T00:00:00")
  /\ ipc.reviveDates utc_host (VStr (js "hello")) = VStr (js "hello")
  /\ ipc.reviveDates utc_host
       (VObj [(js "at", VStr (js "1970-01-01T00:00:01Z")); (js "n", VNum (NInt 1))])
     = VObj [(js "at", VDate 1000); (js "n", VNum (NInt 1))].
Proof.
  destruct (reviveDates_revives_valid_dates utc_host)
    as (Hvalid & Hinvalid & Hother & _ & Hobj & _).
  split; [apply Hvalid; reflexivity|].
  split; [apply Hinvalid; reflexivity|].
  split; [apply Hother; reflexivity|].
  rewrite Hobj.
  - reflexivity.
  - repeat constructor; simpl; intuition discriminate.
Defined.

(** C8 as stated fails: the text 2024-13-01T00:00:00 matches [ISO_RE],
    month 13 makes its date invalid, and the guard on [d.getTime()]
    returns the string itself. *)
Lemma reviveDates_keeps_an_invalid_date :
  ~ (forall (h : host) (s : jsstring),
       ipc.ISO_RE_test s = true -> exists t, ipc.reviveDates h (VStr s) = VDate t).
Proof.
  intros H.
  destruct (H utc_host (js "2024-13-01T00:00:00") eq_refl) as [t Ht].
  vm_compute in Ht. discriminate.
Qed.

(** The invalid date is kept on every host: the text has the shape of
    the Date Time String Format, so no engine-specific parsing applies. *)
Remark month_13_is_kept (h : host) :
  ipc.reviveDates h (VStr (js "2024-13-01T00:00:00")) = VStr (js "2024-13-01T00:00:00").
Proof. reflexivity. Qed.

(** ** The connection strategy *)

Lemma tryConnectDaemon_spec (h : host) (net : option json -> ipc.endpoint)
    (d : disk) (id : jsstring) :
  exists state,
    ipc.readDaemonState d = Return state
    /\ snd (ipc.tryConnectDaemon h net d id)
       = if truthy (Some state)
         then match ping h net state id with
              | Settled (Return _) => Settled (Return (Some (client_of state)))
              | Settled (Throw _) => Settled (Return None)
              | Pending => Pending
              end
         else Settled (Return None).
Proof.
  unfold ipc.tryConnectDaemon, ping.
  assert (Hread : exists state, ipc.readDaemonState d = Return state).
  { unfold ipc.readDaemonState, fs_readFile.
    destruct (daemon_json d) as [f|]; simpl; [|eexists; reflexivity].
    destruct (JSON.parse (content f)); simpl; eexists; reflexivity. }
  destruct Hread as [state Hread]. exists state. split; [exact Hread|].
  rewrite Hread. destruct (truthy (Some state)); simpl; [|reflexivity].
  destruct (ipc.callPort h net id _ _ _ _ _) as [sent [[v|e]|]]; reflexivity.
Qed.

Lemma ping_cases (h : host) (net : option json -> ipc.endpoint) (state : json)
    (id : jsstring) :
  match net (get state (js "port")) with
  | ipc.Refused e => ping h net state id = Settled (Throw e)
  | ipc.Connected peer =>
      let answer := peer (ipc.request_line id (get state (js "token")) (js "ping") None)
                      1500%Z in
      ping h net state id
      = match ipc.scan id [] (fst answer) with
        | Some resp => ipc.settle h resp
        | None => Settled (Throw (if snd answer then ipc.closed_early (js "ping")
                                  else ipc.timed_out (js "ping") 1500))
        end
  end.
Proof.
  unfold ping, ipc.callPort.
  destruct (net (get state (js "port"))) as [e|peer]; [reflexivity|].
  simpl. destruct (peer _ _) as [chunks closed]. reflexivity.
Qed.

(** The promise of the slow path settles on the first event that it
    listens to; the events before it are events that nothing listens
    to. *)
Lemma boot_quiet (quiet rest : list connect.session_event) :
  Forall (fun ev => ev = connect.Other) quiet ->
  connect.boot (quiet ++ rest) = connect.boot rest.
Proof.
  induction 1 as [|ev quiet -> _ IH]; [reflexivity|exact IH].
Qed.

(** C4, as the code has it. [connectClient] returns an IPC proxy exactly
    when the probe succeeds: the state file holds a (truthy) parsed value
    and the [ping] to the stored port with the stored token resolves
    within 1500 ms; the proxy is bound to that port and token. When the
    probe fails (no descriptor, a port that refuses the connection, no
    answer in time, an answer that carries an error, as for a token that
    the daemon does not accept) it boots a private Session, and the
    first event of that Session decides: it returns the Session on
    [ready]; it rejects on [qr], on [error], when [initialize] fails,
    when the timer of 90 s fires, and when nothing happens at all. A
    probe that never settles leaves [connectClient] pending. *)
Theorem connectClient_fast_or_slow_path :
  forall (h : host) (net : option json -> ipc.endpoint) (d : disk) (id : jsstring)
         (session : list connect.session_event),
  exists state,
    ipc.readDaemonState d = Return state
    /\ (daemon_json d = None -> state = JNull)
    /\ (forall c,
          connect.connectClient h net d id session = Settled (Return (connect.Proxy c))
          <-> (truthy (Some state) = true
               /\ (exists v, ping h net state id = Settled (Return v))
               /\ c = client_of state))
    /\ ((truthy (Some state) = false \/ exists e, ping h net state id = Settled (Throw e)) ->
        forall quiet rest,
          Forall (fun ev => ev = connect.Other) quiet ->
          (session = quiet ++ connect.Ready :: rest ->
           connect.connectClient h net d id session = Settled (Return connect.Private))
          /\ (session = quiet ++ connect.Qr :: rest ->
              connect.connectClient h net d id session
              = Settled (Throw (new_Error (js "Not logged in. Run:  whatsapp-cli auth login"))))
          /\ (forall name code message,
                session = quiet ++ connect.ErrorEvent (ErrorObj name code message) :: rest ->
                connect.connectClient h net d id session
                = Settled (Throw (ErrorObj name code message)))
          /\ (forall text,
                session = quiet ++ connect.ErrorEvent (Thrown text) :: rest ->
                connect.connectClient h net d id session
                = Settled (Throw (new_Error text)))
          /\ (forall err,
                session = quiet ++ connect.InitializeRejected err :: rest ->
                connect.connectClient h net d id session = Settled (Throw err))
          /\ ((session = quiet ++ connect.Timer :: rest \/ session = quiet) ->
              connect.connectClient h net d id session
              = Settled (Throw (new_Error (js ("Timed out waiting for WhatsApp (90 s). "
                                               ++ "Is your phone connected?"))))))
    /\ (truthy (Some state) = true -> ping h net state id = Pending ->
        connect.connectClient h net d id session = Pending)
    /\ (forall e, net (get state (js "port")) = ipc.Refused e ->
                  ping h net state id = Settled (Throw e))
    /\ (forall peer,
          net (get state (js "port")) = ipc.Connected peer ->
          let answer := peer (ipc.request_line id (get state (js "token")) (js "ping") None)
                          1500%Z in
          (ipc.scan id [] (fst answer) = None ->
           exists e, ping h net state id = Settled (Throw e))
          /\ (forall resp err,
                ipc.scan id [] (fst answer) = Some resp ->
                get resp (js "error") = Some err ->
                truthy (Some err) = true ->
                match ToString err with
                | Return message => ping h net state id = Settled (Throw (new_Error message))
                | Throw _ => ping h net state id = Pending
                end)).
Proof.
  intros h net d id session.
  destruct (tryConnectDaemon_spec h net d id) as (state & Hread & Htry).
  exists state. split; [exact Hread|]. split.
  { intros Hmissing. unfold ipc.readDaemonState, fs_readFile in Hread.
    rewrite Hmissing in Hread. simpl in Hread. congruence. }
  assert (Hconnect :
            connect.connectClient h net d id session
            = if truthy (Some state)
              then match ping h net state id with
                   | Settled (Return _) => Settled (Return (connect.Proxy (client_of state)))
                   | Settled (Throw _) =>
                       Settled (match connect.boot session with
                                | Return _ => Return connect.Private
                                | Throw err => Throw err
                                end)
                   | Pending => Pending
                   end
              else Settled (match connect.boot session with
                            | Return _ => Return connect.Private
                            | Throw err => Throw err
                            end)).
  { unfold connect.connectClient. rewrite Htry.
    destruct (truthy (Some state)); [|reflexivity].
    destruct (ping h net state id) as [[v|e]|]; reflexivity. }
  assert (Hslow : (truthy (Some state) = false
                   \/ exists e, ping h net state id = Settled (Throw e)) ->
                  connect.connectClient h net d id session
                  = Settled (match connect.boot session with
                             | Return _ => Return connect.Private
                             | Throw err => Throw err
                             end)).
  { intros [Hf | (e & He)]; rewrite Hconnect.
    - rewrite Hf. reflexivity.
    - rewrite He. destruct (truthy (Some state)); reflexivity. }
  split; [|split; [|split; [|split]]].
  - intros c. rewrite Hconnect. split.
    + destruct (truthy (Some state)).
      * destruct (ping h net state id) as [[v|e]|].
        -- intros H. injection H as <-. split; [reflexivity|].
           split; [exists v; reflexivity|reflexivity].
        -- destruct (connect.boot session) as [[]|err]; discriminate.
        -- discriminate.
      * destruct (connect.boot session) as [[]|err]; discriminate.
    + intros (Ht & (v & Hv) & ->). rewrite Ht, Hv. reflexivity.
  - intros Hfail quiet rest Hquiet. rewrite (Hslow Hfail).
    repeat split.
    + intros ->. rewrite boot_quiet by exact Hquiet. reflexivity.
    + intros ->. rewrite boot_quiet by exact Hquiet. reflexivity.
    + intros name code message ->. rewrite boot_quiet by exact Hquiet. reflexivity.
    + intros text ->. rewrite boot_quiet by exact Hquiet. reflexivity.
    + intros err ->. rewrite boot_quiet by exact Hquiet. reflexivity.
    + intros [-> | ->].
      * rewrite boot_quiet by exact Hquiet. reflexivity.
      * rewrite <- (app_nil_r quiet), boot_quiet by exact Hquiet. reflexivity.
  - intros Ht Hp. rewrite Hconnect, Ht, Hp. reflexivity.
  - intros e Hnet. pose proof (ping_cases h net state id) as H.
    rewrite Hnet in H. exact H.
  - intros peer Hnet answer. pose proof (ping_cases h net state id) as H.
    rewrite Hnet in H. fold answer in H. cbv zeta in H. split.
    + intros Hscan. rewrite Hscan in H. eexists. exact H.
    + intros resp err Hscan Herr Ht. rewrite Hscan in H. unfold ipc.settle in H.
      rewrite Herr, Ht in H. destruct (ToString err); exact H.
Qed.

Lemma connectClient_fast_or_slow_path_witness :
  connect.connectClient utc_host
    (loopback.only example_secret no_array_token 50123 example_daemon)
    {| daemon_json := None; dir_writable := true |} (js "k3j9") [connect.Other; connect.Ready]
  = Settled (Return connect.Private).
Proof.
  destruct (connectClient_fast_or_slow_path utc_host
              (loopback.only example_secret no_array_token 50123 example_daemon)
              {| daemon_json := None; dir_writable := true |} (js "k3j9")
              [connect.Other; connect.Ready])
    as (state & _ & Hmissing & _ & Hslow & _).
  refine (proj1 (Hslow _ [connect.Other] [] _) eq_refl).
  - left. rewrite (Hmissing eq_refl). reflexivity.
  - repeat constructor.
Defined.

(** The live daemon is reached with the token of its state file; with
    another secret in the daemon (a stale file of an earlier daemon) or
    with nothing on the port, the private Session is booted. *)
Example connectClient_reaches_the_daemon :
  connect.connectClient utc_host
    (loopback.only example_secret no_array_token 50123 example_daemon)
    example_disk (js "k3j9") [connect.Qr]
  = Settled (Return (connect.Proxy {| ipc.port := Some (JNum (NInt 50123));
                                      ipc.token := Some (JStr example_secret) |})).
Proof. vm_compute. reflexivity. Qed.

Example connectClient_token_mismatch :
  connect.connectClient utc_host
    (loopback.only (js "ffffffffffffffffffffffffffffffffffffffffffffffffffffffffffffffff")
       no_array_token 50123 example_daemon)
    example_disk (js "k3j9") [connect.Ready]
  = Settled (Return connect.Private).
Proof. vm_compute. reflexivity. Qed.

Example connectClient_stale_descriptor :
  connect.connectClient utc_host
    (loopback.only example_secret no_array_token 50999 example_daemon)
    example_disk (js "k3j9") [connect.Ready]
  = Settled (Return connect.Private).
Proof. vm_compute. reflexivity. Qed.

(** C4 as stated fails: with no descriptor and a Session that is not
    logged in, [connectClient] returns no Session; it rejects. *)
Lemma connectClient_rejects_when_the_boot_fails :
  ~ (forall (h : host) (net : option json -> ipc.endpoint) (d : disk) (id : jsstring)
            (session : list connect.session_event),
       snd (ipc.tryConnectDaemon h net d id) = Settled (Return None) ->
       connect.connectClient h net d id session = Settled (Return connect.Private)).
Proof.
  intros H.
  specialize (H utc_host (fun _ => ipc.Refused loopback.ECONNREFUSED)
                {| daemon_json := None; dir_writable := true |} (js "k3j9")
                [connect.Qr] eq_refl).
  vm_compute in H. discriminate.
Qed.

(** ** Strings and integers survive [JSON.stringify] and [JSON.parse] *)

Lemma hex_val_digit (n : N) : (n < 16)%N -> JSON.hex_val (JSON.hex_digit n) = Some n.
Proof.
  intros Hn. unfold JSON.hex_digit, JSON.hex_val.
  destruct (N.ltb_spec n 10).
  - replace ((48 <=? 48 + n) && (48 + n <=? 57))%N with true.
    + f_equal. lia.
    + symmetry. apply andb_true_intro. split; apply N.leb_le; lia.
  - replace ((48 <=? 87 + n) && (87 + n <=? 57))%N with false.
    + replace ((97 <=? 87 + n) && (87 + n <=? 102))%N with true.
      * f_equal. lia.
      * symmetry. apply andb_true_intro. split; apply N.leb_le; lia.
    + symmetry. apply andb_false_intro2. apply N.leb_gt. lia.
Qed.

Lemma nibble (x : N) : N.land x 15 = (x mod 16)%N.
Proof. exact (N.land_ones x 4). Qed.

Lemma hex4_escape (c : N) :
  (c < 65536)%N ->
  JSON.hex4 (JSON.hex_digit (N.land (N.shiftr c 12) 15))
            (JSON.hex_digit (N.land (N.shiftr c 8) 15))
            (JSON.hex_digit (N.land (N.shiftr c 4) 15))
            (JSON.hex_digit (N.land c 15)) = Some c.
Proof.
  intros Hc. unfold JSON.hex4. rewrite !nibble, !N.shiftr_div_pow2.
  rewrite !hex_val_digit by (apply N.mod_lt; discriminate).
  f_equal.
  change (2 ^ 12)%N with 4096%N. change (2 ^ 8)%N with 256%N. change (2 ^ 4)%N with 16%N.
  pose proof (N.div_mod c 16 ltac:(discriminate)).
  pose proof (N.div_mod (c / 16) 16 ltac:(discriminate)).
  pose proof (N.div_mod (c / 16 / 16) 16 ltac:(discriminate)).
  pose proof (N.mod_lt c 16 ltac:(discriminate)).
  pose proof (N.mod_lt (c / 16) 16 ltac:(discriminate)).
  pose proof (N.mod_lt (c / 16 / 16) 16 ltac:(discriminate)).
  replace (c / 256)%N with (c / 16 / 16)%N by (rewrite N.Div0.div_div; reflexivity).
  replace (c / 4096)%N with (c / 16 / 16 / 16)%N
    by (rewrite !N.Div0.div_div; reflexivity).
  assert (c / 16 / 16 / 16 < 16)%N.
  { rewrite !N.Div0.div_div. apply N.Div0.div_lt_upper_bound. exact Hc. }
  rewrite (N.mod_small (c / 16 / 16 / 16) 16) by assumption.
  pose proof (N.div_mod (c / 16 / 16) 16 ltac:(discriminate)).
  lia.
Qed.

(** The escape [\uXXXX] is read back as the code unit it stands for. *)
Lemma parse_unicode_escape (c : N) (tail : jsstring) :
  (c < 65536)%N ->
  JSON.parse_string_body (JSON.unicode_escape c ++ tail)
  = JSON.cons_char c (JSON.parse_string_body tail).
Proof.
  intros Hc. unfold JSON.unicode_escape.
  cbn [app JSON.parse_string_body].
  change (N.eqb BACKSLASH QUOTE) with false. change (N.eqb BACKSLASH BACKSLASH) with true.
  cbv iota. change (N.eqb 117 QUOTE) with false. change (N.eqb 117 BACKSLASH) with false.
  cbn [N.eqb Pos.eqb]. cbv iota.
  rewrite (hex4_escape c Hc). reflexivity.
Qed.

Lemma parse_plain_char (c : N) (tail : jsstring) :
  c <> QUOTE -> c <> BACKSLASH -> (32 <= c)%N ->
  JSON.parse_string_body (c :: tail) = JSON.cons_char c (JSON.parse_string_body tail).
Proof.
  intros Hq Hb Hc. cbn [JSON.parse_string_body].
  apply N.eqb_neq in Hq, Hb. rewrite Hq, Hb.
  apply N.ltb_ge in Hc. rewrite Hc. reflexivity.
Qed.

Lemma surrogate_is_plain (c : N) :
  is_high_surrogate c = true \/ is_low_surrogate c = true ->
  c <> QUOTE /\ c <> BACKSLASH /\ (32 <= c)%N /\ (c < 65536)%N.
Proof.
  unfold is_high_surrogate, is_low_surrogate, QUOTE, BACKSLASH.
  intros [H|H]; apply andb_prop in H as [H1 H2];
    apply N.leb_le in H1, H2; lia.
Qed.

Lemma parse_quote_body_bounded (n : nat) :
  forall (s rest : jsstring), (length s <= n)%nat ->
    JSON.parse_string_body (JSON.quote_body s ++ QUOTE :: rest) = JSON.Ok s rest.
Proof.
  induction n as [|n IH]; intros s rest Hlen.
  - destruct s; [|simpl in Hlen; lia]. simpl. reflexivity.
  - destruct s as [|c r]; [reflexivity|].
    simpl in Hlen. assert (Hr : (length r <= n)%nat) by lia.
    cbn [JSON.quote_body].
    destruct (N.eqb_spec c QUOTE) as [->|Hq].
    { cbn [app JSON.parse_string_body].
      change (N.eqb BACKSLASH QUOTE) with false. change (N.eqb BACKSLASH BACKSLASH) with true.
      change (N.eqb QUOTE QUOTE) with true. cbv iota. rewrite IH by exact Hr. reflexivity. }
    destruct (N.eqb_spec c BACKSLASH) as [->|Hb].
    { cbn [app JSON.parse_string_body].
      change (N.eqb BACKSLASH QUOTE) with false. change (N.eqb BACKSLASH BACKSLASH) with true.
      cbv iota. rewrite IH by exact Hr. reflexivity. }
    destruct (N.eqb_spec c 8) as [->|H8].
    { cbn [app JSON.parse_string_body].
      change (N.eqb BACKSLASH QUOTE) with false. change (N.eqb BACKSLASH BACKSLASH) with true.
      cbv iota. change (N.eqb 98 QUOTE) with false. change (N.eqb 98 BACKSLASH) with false.
      cbn [N.eqb Pos.eqb]. cbv iota. rewrite IH by exact Hr. reflexivity. }
    destruct (N.eqb_spec c 9) as [->|H9].
    { cbn [app JSON.parse_string_body].
      change (N.eqb BACKSLASH QUOTE) with false. change (N.eqb BACKSLASH BACKSLASH) with true.
      cbv iota. change (N.eqb 116 QUOTE) with false. change (N.eqb 116 BACKSLASH) with false.
      cbn [N.eqb Pos.eqb]. cbv iota. rewrite IH by exact Hr. reflexivity. }
    destruct (N.eqb_spec c 10) as [->|H10].
    { cbn [app JSON.parse_string_body].
      change (N.eqb BACKSLASH QUOTE) with false. change (N.eqb BACKSLASH BACKSLASH) with true.
      cbv iota. change (N.eqb 110 QUOTE) with false. change (N.eqb 110 BACKSLASH) with false.
      cbn [N.eqb Pos.eqb]. cbv iota. rewrite IH by exact Hr. reflexivity. }
    destruct (N.eqb_spec c 12) as [->|H12].
    { cbn [app JSON.parse_string_body].
      change (N.eqb BACKSLASH QUOTE) with false. change (N.eqb BACKSLASH BACKSLASH) with true.
      cbv iota. change (N.eqb 102 QUOTE) with false. change (N.eqb 102 BACKSLASH) with false.
      cbn [N.eqb Pos.eqb]. cbv iota. rewrite IH by exact Hr. reflexivity. }
    destruct (N.eqb_spec c 13) as [->|H13].
    { cbn [app JSON.parse_string_body].
      change (N.eqb BACKSLASH QUOTE) with false. change (N.eqb BACKSLASH BACKSLASH) with true.
      cbv iota. change (N.eqb 114 QUOTE) with false. change (N.eqb 114 BACKSLASH) with false.
      cbn [N.eqb Pos.eqb]. cbv iota. rewrite IH by exact Hr. reflexivity. }
    destruct (N.ltb_spec c 32) as [Hlow|Hge].
    { rewrite <- app_assoc, parse_unicode_escape by lia.
      rewrite IH by exact Hr. reflexivity. }
    destruct (is_high_surrogate c) eqn:Ehi.
    { destruct (surrogate_is_plain c (or_introl Ehi)) as (_ & _ & _ & H16).
      destruct r as [|d r'].
      - cbv beta iota. rewrite parse_unicode_escape by exact H16. reflexivity.
      - cbv beta iota. destruct (is_low_surrogate d) eqn:Elo.
        + destruct (surrogate_is_plain d (or_intror Elo)) as (Hdq & Hdb & Hd32 & _).
          cbn [app]. rewrite (parse_plain_char c) by assumption.
          rewrite (parse_plain_char d) by assumption.
          rewrite IH by (simpl in Hr; lia). reflexivity.
        + rewrite <- app_assoc, parse_unicode_escape by exact H16.
          rewrite IH by exact Hr. reflexivity. }
    destruct (is_low_surrogate c) eqn:Elo.
    { destruct (surrogate_is_plain c (or_intror Elo)) as (_ & _ & _ & H16).
      rewrite <- app_assoc, parse_unicode_escape by exact H16.
      rewrite IH by exact Hr. reflexivity. }
    cbn [app]. rewrite (parse_plain_char c) by assumption.
    rewrite IH by exact Hr. reflexivity.
Qed.

Lemma parse_quote_body (s rest : jsstring) :
  JSON.parse_string_body (JSON.quote_body s ++ QUOTE :: rest) = JSON.Ok s rest.
Proof. apply (parse_quote_body_bounded (length s)). apply Nat.le_refl. Qed.

Lemma take_uint_chars (u : Decimal.uint) (rest : jsstring) :
  ends_number rest -> take_uint (chars_of_uint u ++ rest) = (u, rest).
Proof.
  intros Hrest. induction u; simpl; try (rewrite IHu; reflexivity).
  destruct rest as [|c r]; [reflexivity|].
  destruct Hrest as (Hd & _). simpl. rewrite Hd. reflexivity.
Qed.

Lemma to_uint_normal (n : N) : Decimal.unorm (N.to_uint n) = N.to_uint n.
Proof.
  rewrite <- (DecimalN.Unsigned.to_of (N.to_uint n)).
  rewrite DecimalN.Unsigned.of_to. reflexivity.
Qed.

Lemma to_uint_well_formed (n : N) :
  JSON.is_nil (N.to_uint n) = false /\ JSON.leading_zero (N.to_uint n) = false.
Proof.
  rewrite <- to_uint_normal. unfold Decimal.unorm.
  destruct (Decimal.nzhead (N.to_uint n)) eqn:E; try (split; reflexivity).
  exfalso. exact (DecimalFacts.nzhead_nonzero _ _ E).
Qed.

Lemma chars_of_uint_head (u : Decimal.uint) :
  u <> Decimal.Nil -> exists d r, chars_of_uint u = d :: r /\ d <> 45%N.
Proof.
  destruct u; intros H; try congruence; simpl; eexists; eexists;
    (split; [reflexivity|discriminate]).
Qed.

Lemma parse_number_signed (neg : bool) (n : N) (rest : jsstring) :
  ends_number rest ->
  JSON.parse_number ((if neg then [45%N] else []) ++ digits_of_N n ++ rest)
  = JSON.Ok (NInt (if neg then - Z.of_N n else Z.of_N n)) rest.
Proof.
  intros Hrest. unfold JSON.parse_number, digits_of_N.
  destruct (to_uint_well_formed n) as [Hnil Hlz].
  assert (Hne : N.to_uint n <> Decimal.Nil).
  { intros E. rewrite E in Hnil. discriminate. }
  assert (Hfrac : JSON.parse_fraction rest = JSON.Ok Decimal.Nil rest).
  { destruct rest as [|c r']; [reflexivity|]. destruct Hrest as (_ & H46 & _).
    unfold JSON.parse_fraction. apply N.eqb_neq in H46. rewrite H46. reflexivity. }
  assert (Hexp : JSON.parse_exponent rest = JSON.Ok 0%Z rest).
  { destruct rest as [|c r']; [reflexivity|]. destruct Hrest as (_ & _ & He & HE).
    unfold JSON.parse_exponent. apply N.eqb_neq in He, HE. rewrite He, HE. reflexivity. }
  assert (Htail : forall b : bool,
            (let (u, s2) := take_uint (chars_of_uint (N.to_uint n) ++ rest) in
             if JSON.is_nil u || JSON.leading_zero u then JSON.Bad
             else
               match JSON.parse_fraction s2 with
               | JSON.Ok f s3 =>
                   match JSON.parse_exponent s3 with
                   | JSON.Ok e rest0 =>
                       let m := Z.of_N (N.of_uint (Decimal.app u f)) in
                       JSON.Ok (mk_number (if b then (- m)%Z else m)
                                  (e - Z.of_nat (Decimal.nb_digits f))) rest0
                   | JSON.Bad => JSON.Bad
                   | JSON.NoFuel => JSON.NoFuel
                   end
               | JSON.Bad => JSON.Bad
               | JSON.NoFuel => JSON.NoFuel
               end)
            = JSON.Ok (NInt (if b then - Z.of_N n else Z.of_N n)) rest).
  { intros b. rewrite take_uint_chars by exact Hrest. rewrite Hnil, Hlz. cbn [orb].
    rewrite Hfrac, Hexp. cbv zeta.
    rewrite DecimalFacts.app_nil_r, DecimalN.Unsigned.of_to.
    unfold mk_number. simpl. rewrite Z.mul_1_r. reflexivity. }
  destruct neg.
  - cbn [app JSON.split_sign]. change (N.eqb 45 45) with true. cbv iota.
    exact (Htail true).
  - cbn [app].
    replace (JSON.split_sign (chars_of_uint (N.to_uint n) ++ rest))
      with (false, chars_of_uint (N.to_uint n) ++ rest).
    + exact (Htail false).
    + destruct (chars_of_uint_head _ Hne) as (d & r & Hd & H45).
      unfold JSON.split_sign. rewrite Hd. cbn [app].
      apply N.eqb_neq in H45. rewrite H45. reflexivity.
Qed.

Lemma parse_number_integer (z : Z) (rest : jsstring) :
  (Z.abs z < 10 ^ 21)%Z -> ends_number rest ->
  JSON.parse_number (Number_toString (NInt z) ++ rest) = JSON.Ok (NInt z) rest.
Proof.
  intros Hz Hrest. unfold Number_toString.
  apply Z.ltb_lt in Hz. rewrite Hz. unfold sign_of. rewrite <- app_assoc.
  pose proof (parse_number_signed (z <? 0)%Z (Z.abs_N z) rest Hrest) as H.
  destruct (Z.ltb_spec z 0) as [Hneg|Hpos].
  - change (js "-") with [45%N]. rewrite H. f_equal. f_equal. lia.
  - rewrite H. f_equal. f_equal. lia.
Qed.

Lemma parse_value_quoted (f : nat) (s rest : jsstring) :
  JSON.parse_value (S f) (JSON.quote s ++ rest) = JSON.Ok (JStr s) rest.
Proof.
  unfold JSON.quote. cbn [app JSON.parse_value JSON.skip_ws].
  change (JSON.is_ws QUOTE) with false. cbv iota.
  change (N.eqb QUOTE QUOTE) with true. cbv iota.
  rewrite <- app_assoc. cbn [app]. rewrite parse_quote_body. reflexivity.
Qed.

Lemma Number_toString_head (z : Z) :
  (Z.abs z < 10 ^ 21)%Z ->
  exists c r, Number_toString (NInt z) = c :: r
              /\ (c = 45 \/ (48 <= c /\ c <= 57))%N.
Proof.
  intros Hz. unfold Number_toString. apply Z.ltb_lt in Hz. rewrite Hz.
  unfold sign_of. destruct (z <? 0)%Z.
  - eexists. eexists. split; [reflexivity|]. left. reflexivity.
  - cbn [app]. unfold digits_of_N.
    destruct (to_uint_well_formed (Z.abs_N z)) as [Hnil _].
    destruct (N.to_uint (Z.abs_N z)); try discriminate; simpl;
      eexists; eexists; (split; [reflexivity|]); right; lia.
Qed.

Lemma parse_value_number (f : nat) (c : N) (r : jsstring) :
  (c = 45 \/ (48 <= c /\ c <= 57))%N ->
  JSON.parse_value (S f) (c :: r)
  = match JSON.parse_number (c :: r) with
    | JSON.Ok n rest => JSON.Ok (JNum n) rest
    | JSON.Bad => JSON.Bad
    | JSON.NoFuel => JSON.NoFuel
    end.
Proof.
  intros Hc. cbn [JSON.parse_value JSON.skip_ws].
  assert (Hws : JSON.is_ws c = false).
  { unfold JSON.is_ws.
    repeat match goal with
           | |- context [N.eqb c ?k] => destruct (N.eqb_spec c k); [exfalso; lia|]
           end. reflexivity. }
  rewrite Hws.
  repeat match goal with
         | |- context [N.eqb c ?k] =>
             destruct (N.eqb_spec c k); [exfalso; unfold QUOTE in *; lia|]
         end.
  reflexivity.
Qed.

Lemma parse_value_integer (f : nat) (z : Z) (rest : jsstring) :
  (Z.abs z < 10 ^ 21)%Z -> ends_number rest ->
  JSON.parse_value (S f) (Number_toString (NInt z) ++ rest) = JSON.Ok (JNum (NInt z)) rest.
Proof.
  intros Hz Hrest.
  destruct (Number_toString_head z Hz) as (c & r & Hhead & Hc).
  pose proof (parse_number_integer z rest Hz Hrest) as Hnum.
  rewrite Hhead in *. cbn [app] in *.
  rewrite parse_value_number by exact Hc. rewrite Hnum. reflexivity.
Qed.

(** A member [key: value] of an object, followed by a comma or by the
    closing brace. *)
Lemma parse_members_more (f : nat) (k vt more : jsstring) (v : json) :
  JSON.parse_value f (vt ++ 44%N :: more) = JSON.Ok v (44%N :: more) ->
  JSON.parse_members (S f) (JSON.quote k ++ 58%N :: vt ++ 44%N :: more)
  = match JSON.parse_members f more with
    | JSON.Ok ms rest => JSON.Ok ((k, v) :: ms) rest
    | e => e
    end.
Proof.
  intros Hv. unfold JSON.quote. cbn [app JSON.parse_members JSON.skip_ws].
  change (JSON.is_ws QUOTE) with false. cbv iota.
  change (N.eqb QUOTE QUOTE) with true. cbv iota.
  rewrite <- app_assoc. cbn [app]. rewrite parse_quote_body.
  cbn [JSON.skip_ws]. change (JSON.is_ws 58) with false. cbv iota.
  change (N.eqb 58 58) with true. cbv iota. rewrite Hv.
  cbn [JSON.skip_ws]. change (JSON.is_ws 44) with false. cbv iota.
  change (N.eqb 44 44) with true. cbv iota. reflexivity.
Qed.

Lemma parse_members_last (f : nat) (k vt rest : jsstring) (v : json) :
  JSON.parse_value f (vt ++ 125%N :: rest) = JSON.Ok v (125%N :: rest) ->
  JSON.parse_members (S f) (JSON.quote k ++ 58%N :: vt ++ 125%N :: rest)
  = JSON.Ok [(k, v)] rest.
Proof.
  intros Hv. unfold JSON.quote. cbn [app JSON.parse_members JSON.skip_ws].
  change (JSON.is_ws QUOTE) with false. cbv iota.
  change (N.eqb QUOTE QUOTE) with true. cbv iota.
  rewrite <- app_assoc. cbn [app]. rewrite parse_quote_body.
  cbn [JSON.skip_ws]. change (JSON.is_ws 58) with false. cbv iota.
  change (N.eqb 58 58) with true. cbv iota. rewrite Hv.
  cbn [JSON.skip_ws]. change (JSON.is_ws 125) with false. cbv iota.
  change (N.eqb 125 44) with false. change (N.eqb 125 125) with true. cbv iota.
  reflexivity.
Qed.

(** An object that is not empty. *)
Lemma parse_value_object (f : nat) (k more : jsstring) :
  JSON.parse_value (S f) (123%N :: JSON.quote k ++ more)
  = match JSON.parse_members f (JSON.quote k ++ more) with
    | JSON.Ok ms rest =>
        JSON.Ok (JObj (fold_left (fun o kv => define o (fst kv) (snd kv)) ms [])) rest
    | JSON.Bad => JSON.Bad
    | JSON.NoFuel => JSON.NoFuel
    end.
Proof.
  unfold JSON.quote. cbn [app JSON.parse_value JSON.skip_ws].
  change (JSON.is_ws 123) with false. cbv iota.
  change (N.eqb 123 QUOTE) with false. change (N.eqb 123 91) with false.
  change (N.eqb 123 123) with true. cbv iota.
  change (JSON.is_ws QUOTE) with false. cbv iota.
  change (N.eqb QUOTE 125) with false. cbv iota. reflexivity.
Qed.

Lemma stringify_state (st : state.DaemonState) :
  JSON.stringify (state.object_of st)
  = 123%N :: JSON.quote (js "pid") ++ 58%N :: Number_toString (NInt (state.pid st))
      ++ 44%N :: JSON.quote (js "port") ++ 58%N :: Number_toString (NInt (state.port st))
      ++ 44%N :: JSON.quote (js "startedAt") ++ 58%N :: JSON.quote (state.startedAt st)
      ++ 44%N :: JSON.quote (js "token") ++ 58%N :: JSON.quote (state.token st)
      ++ 125%N :: [].
Proof.
  unfold state.object_of. cbn [JSON.stringify map JSON.join fst snd].
  f_equal. rewrite <- !app_assoc. cbn [app].
  repeat (rewrite <- !app_assoc; cbn [app]). reflexivity.
Qed.

Lemma parse_stringify_state (st : state.DaemonState) :
  (Z.abs (state.pid st) < 10 ^ 21)%Z -> (Z.abs (state.port st) < 10 ^ 21)%Z ->
  JSON.parse (JSON.stringify (state.object_of st)) = Return (state.object_of st).
Proof.
  intros Hpid Hport. unfold JSON.parse. rewrite stringify_state.
  match goal with |- context [JSON.parse_value ?fuel _] => remember fuel as fuel' eqn:Ef end.
  assert (Hfuel : exists n, fuel' = S (S (S (S (S (S n)))))).
  { exists (fuel' - 6)%nat. subst fuel'. cbn [length]. rewrite length_app.
    unfold JSON.quote. cbn [length]. lia. }
  destruct Hfuel as [n ->]. clear Ef.
  rewrite parse_value_object.
  rewrite parse_members_more with (v := JNum (NInt (state.pid st))).
  2:{ apply parse_value_integer; [exact Hpid|]. simpl. repeat split; discriminate. }
  rewrite parse_members_more with (v := JNum (NInt (state.port st))).
  2:{ apply parse_value_integer; [exact Hport|]. simpl. repeat split; discriminate. }
  rewrite parse_members_more with (v := JStr (state.startedAt st)).
  2:{ apply parse_value_quoted. }
  rewrite parse_members_last with (v := JStr (state.token st)).
  2:{ apply parse_value_quoted. }
  reflexivity.
Qed.

Lemma writeDaemonState_content (d d' : disk) (st : state.DaemonState) :
  state.writeDaemonState d st = (Return tt, d') ->
  exists m, daemon_json d'
            = Some {| content := JSON.stringify (state.object_of st); mode := m |}.
Proof.
  unfold state.writeDaemonState, fs_mkdir, fs_writeFile.
  destruct (dir_writable d); [|discriminate].
  intros H. injection H as <-. eexists. reflexivity.
Qed.

(** C5. A valid descriptor that [writeDaemonState] wrote is what
    [readDaemonState] returns: the object with the same [pid], [port],
    [startedAt] and [token]. *)
Theorem write_then_read_returns_the_descriptor :
  forall (d d' : disk) (st : state.DaemonState),
    state.valid (state.object_of st) = true ->
    state.writeDaemonState d st = (Return tt, d') ->
    ipc.readDaemonState d' = Return (state.object_of st).
Proof.
  intros d d' st Hvalid Hwrite.
  unfold state.valid, state.object_of in Hvalid. simpl in Hvalid.
  repeat (apply andb_prop in Hvalid as [Hvalid ?]).
  repeat match goal with
         | H : (_ <? _)%Z = true |- _ => apply Z.ltb_lt in H
         | H : (_ <=? _)%Z = true |- _ => apply Z.leb_le in H
         end.
  assert (E21 : (10 ^ 21 = 1000000000000000000000)%Z) by reflexivity.
  assert (Hpid : (Z.abs (state.pid st) < 10 ^ 21)%Z) by (rewrite E21; lia).
  assert (Hport : (Z.abs (state.port st) < 10 ^ 21)%Z) by (rewrite E21; lia).
  destruct (writeDaemonState_content d d' st Hwrite) as [m Hfile].
  apply (readDaemonState_parsed d' _ _ Hfile).
  exact (parse_stringify_state st Hpid Hport).
Qed.

Lemma write_then_read_returns_the_descriptor_witness :
  ipc.readDaemonState example_disk = Return (state.object_of example_state).
Proof.
  apply (write_then_read_returns_the_descriptor
           {| daemon_json := None; dir_writable := true |} example_disk example_state).
  - reflexivity.
  - reflexivity.
Defined.

(** ** The parser never stops for lack of fuel *)

Lemma skip_ws_length (s : jsstring) : (length (JSON.skip_ws s) <= length s)%nat.
Proof.
  induction s as [|c r IH]; simpl; [lia|].
  destruct (JSON.is_ws c); simpl; lia.
Qed.

Lemma skip_ws_cons (s : jsstring) (c : N) (r : jsstring) :
  JSON.skip_ws s = c :: r -> (length r < length s)%nat.
Proof.
  intros H. pose proof (skip_ws_length s) as Hl. rewrite H in Hl. simpl in Hl. lia.
Qed.

Lemma cons_char_Ok (c : N) (p : JSON.parsed jsstring) (x rest : jsstring) :
  JSON.cons_char c p = JSON.Ok x rest -> exists x', p = JSON.Ok x' rest.
Proof. destruct p; simpl; intros H; try discriminate. injection H as _ ->. eexists. reflexivity. Qed.

Lemma cons_char_fuel (c : N) (p : JSON.parsed jsstring) :
  JSON.cons_char c p = JSON.NoFuel -> p = JSON.NoFuel.
Proof. destruct p; simpl; intros H; try discriminate. reflexivity. Qed.

Lemma parse_string_body_bounded (n : nat) :
  forall s, (length s <= n)%nat ->
    JSON.parse_string_body s <> JSON.NoFuel
    /\ forall x rest, JSON.parse_string_body s = JSON.Ok x rest ->
                      (length rest < length s)%nat.
Proof.
  induction n as [|n IH]; intros s Hn.
  - destruct s; [|simpl in Hn; lia]. split; [discriminate|]. intros x rest H. discriminate.
  - destruct s as [|c r]; [split; [discriminate|intros x rest H; discriminate]|].
    simpl in Hn.
    assert (Hsub : forall t, (length t <= length r)%nat ->
              forall c',
                JSON.cons_char c' (JSON.parse_string_body t) <> JSON.NoFuel
                /\ forall x rest, JSON.cons_char c' (JSON.parse_string_body t) = JSON.Ok x rest ->
                                  (length rest < S (length r))%nat).
    { intros t Ht c'. destruct (IH t) as [Hf Hc]; [lia|]. split.
      - intros H. apply cons_char_fuel in H. contradiction.
      - intros x rest H. apply cons_char_Ok in H as [x' H]. apply Hc in H. lia. }
    cbn [JSON.parse_string_body length].
    destruct (N.eqb c QUOTE).
    { split; [discriminate|]. intros x rest H. injection H as _ <-. lia. }
    destruct (N.eqb c BACKSLASH).
    { destruct r as [|e r1]; [split; [discriminate|intros x rest H; discriminate]|].
      repeat match goal with
             | |- context [if N.eqb e ?k then _ else _] =>
                 destruct (N.eqb e k); [apply Hsub; simpl; lia|]
             end.
      destruct (N.eqb e 117); [|split; [discriminate|intros x rest H; discriminate]].
      destruct r1 as [|h1 [|h2 [|h3 [|h4 r2]]]];
        try (split; [discriminate|intros x rest H; discriminate]).
      destruct (JSON.hex4 h1 h2 h3 h4);
        [apply Hsub; simpl; lia|split; [discriminate|intros x rest H; discriminate]]. }
    destruct (c <? 32)%N; [split; [discriminate|intros x rest H; discriminate]|].
    apply Hsub. lia.
Qed.

Lemma parse_string_body_fuel (s : jsstring) : JSON.parse_string_body s <> JSON.NoFuel.
Proof. apply (parse_string_body_bounded (length s) s (Nat.le_refl _)). Qed.

Lemma parse_string_body_consumes (s x rest : jsstring) :
  JSON.parse_string_body s = JSON.Ok x rest -> (length rest < length s)%nat.
Proof. apply (parse_string_body_bounded (length s) s (Nat.le_refl _)). Qed.

Lemma take_uint_length (s : jsstring) :
  (length (snd (take_uint s)) <= length s)%nat
  /\ (fst (take_uint s) <> Decimal.Nil -> (length (snd (take_uint s)) < length s)%nat).
Proof.
  induction s as [|c r [IH1 IH2]]; simpl; [split; [lia|congruence]|].
  destruct (digit_of_char c) as [d|]; [|simpl; split; [lia|congruence]].
  destruct (take_uint r) as [u rest]. simpl in *. split; lia.
Qed.

Lemma is_nil_false (u : Decimal.uint) : JSON.is_nil u = false -> u <> Decimal.Nil.
Proof. destruct u; simpl; congruence. Qed.

Lemma parse_number_spec (s : jsstring) :
  JSON.parse_number s <> JSON.NoFuel
  /\ forall x rest, JSON.parse_number s = JSON.Ok x rest -> (length rest < length s)%nat.
Proof.
  unfold JSON.parse_number.
  assert (Hsign : (length (snd (JSON.split_sign s)) <= length s)%nat).
  { unfold JSON.split_sign. destruct s as [|c r]; [simpl; lia|].
    destruct (N.eqb c 45); simpl; lia. }
  destruct (JSON.split_sign s) as [neg s1]. simpl in Hsign.
  destruct (take_uint_length s1) as [_ Hu].
  destruct (take_uint s1) as [u s2]. simpl in Hu.
  destruct (JSON.is_nil u) eqn:Enil;
    [split; [discriminate|intros x rest H; discriminate]|].
  apply is_nil_false in Enil. specialize (Hu Enil). cbn [orb].
  destruct (JSON.leading_zero u); [split; [discriminate|intros x rest H; discriminate]|].
  assert (Hfrac : JSON.parse_fraction s2 <> JSON.NoFuel
                  /\ forall f s3, JSON.parse_fraction s2 = JSON.Ok f s3 ->
                                  (length s3 <= length s2)%nat).
  { unfold JSON.parse_fraction. destruct s2 as [|c r].
    - split; [discriminate|]. intros f s3 H. injection H as _ <-. lia.
    - destruct (N.eqb c 46).
      + pose proof (take_uint_length r) as [Hl _]. destruct (take_uint r) as [f rest].
        simpl in Hl. destruct (JSON.is_nil f); split; try discriminate.
        intros f0 s3 H. injection H as _ <-. simpl. lia.
      + split; [discriminate|]. intros f s3 H. injection H as _ <-. lia. }
  destruct Hfrac as [Hf1 Hf2].
  destruct (JSON.parse_fraction s2) as [f s3| |]; [|split; [discriminate|intros x rest H; discriminate]|congruence].
  specialize (Hf2 f s3 eq_refl).
  assert (Hexp : JSON.parse_exponent s3 <> JSON.NoFuel
                 /\ forall e rest, JSON.parse_exponent s3 = JSON.Ok e rest ->
                                   (length rest <= length s3)%nat).
  { unfold JSON.parse_exponent. destruct s3 as [|c r].
    - split; [discriminate|]. intros e rest H. injection H as _ <-. lia.
    - destruct (N.eqb c 101 || N.eqb c 69).
      + assert (Hr1 : forall (b : bool) (r1 : jsstring), (length r1 <= length r)%nat ->
                  (let (u0, rest0) := take_uint r1 in
                   if JSON.is_nil u0 then @JSON.Bad Z
                   else JSON.Ok (if b then (- Z.of_N (N.of_uint u0))%Z
                                 else Z.of_N (N.of_uint u0)) rest0) <> JSON.NoFuel
                  /\ forall e rest,
                      (let (u0, rest0) := take_uint r1 in
                       if JSON.is_nil u0 then @JSON.Bad Z
                       else JSON.Ok (if b then (- Z.of_N (N.of_uint u0))%Z
                                     else Z.of_N (N.of_uint u0)) rest0) = JSON.Ok e rest ->
                      (length rest <= length (c :: r))%nat).
        { intros b r1 Hr1. pose proof (take_uint_length r1) as [Hl _].
          destruct (take_uint r1) as [u0 rest0]. simpl in Hl.
          destruct (JSON.is_nil u0); split; try discriminate.
          intros e rest H. injection H as _ <-. simpl. lia. }
        destruct r as [|d r']; [exact (Hr1 false [] (Nat.le_refl _))|].
        destruct (N.eqb d 45); [apply (Hr1 true r'); simpl; lia|].
        destruct (N.eqb d 43); [apply (Hr1 false r'); simpl; lia|].
        apply (Hr1 false (d :: r')). lia.
      + split; [discriminate|]. intros e rest H. injection H as _ <-. lia. }
  destruct Hexp as [He1 He2].
  destruct (JSON.parse_exponent s3) as [e rest| |]; [|split; [discriminate|intros x rest H; discriminate]|congruence].
  specialize (He2 e rest eq_refl). split; [discriminate|].
  intros x rest' H. injection H as _ <-. lia.
Qed.

Lemma expect_length (lit s rest : jsstring) :
  JSON.expect lit s = Some rest -> (length rest + length lit = length s)%nat.
Proof.
  revert s. induction lit as [|a lit IH]; intros [|b s] H; simpl in H; try discriminate.
  - injection H as <-. simpl. lia.
  - injection H as <-. simpl. lia.
  - destruct (N.eqb a b); [|discriminate]. apply IH in H. simpl. lia.
Qed.

Lemma parse_literal_spec (lit : jsstring) (v : json) (s : jsstring) :
  lit <> [] ->
  JSON.parse_literal lit v s <> JSON.NoFuel
  /\ forall x rest, JSON.parse_literal lit v s = JSON.Ok x rest -> (length rest < length s)%nat.
Proof.
  intros Hlit. unfold JSON.parse_literal.
  destruct (JSON.expect lit s) as [rest|] eqn:E; split; try discriminate.
  intros x rest' H. injection H as _ <-. apply expect_length in E.
  destruct lit; [congruence|]. simpl in E. lia.
Qed.

Ltac parser_facts :=
  repeat match goal with
         | H : JSON.skip_ws _ = _ :: _ |- _ => apply skip_ws_cons in H
         | H : JSON.parse_string_body _ = JSON.Ok _ _ |- _ =>
             apply parse_string_body_consumes in H
         | H : JSON.parse_number _ = JSON.Ok _ _ |- _ =>
             apply (proj2 (parse_number_spec _)) in H
         | H : JSON.parse_literal ?lit ?v ?s = JSON.Ok _ _ |- _ =>
             apply (proj2 (parse_literal_spec lit v s ltac:(vm_compute; discriminate))) in H
         end.

(** A value, a list of elements and a list of members each take at least
    one character. *)
Lemma parser_consumes (fuel : nat) :
  (forall s v rest, JSON.parse_value fuel s = JSON.Ok v rest -> (length rest < length s)%nat)
  /\ (forall s vs rest, JSON.parse_elements fuel s = JSON.Ok vs rest ->
                        (length rest < length s)%nat)
  /\ (forall s ms rest, JSON.parse_members fuel s = JSON.Ok ms rest ->
                        (length rest < length s)%nat).
Proof.
  induction fuel as [|f (IHv & IHe & IHm)].
  - repeat split; intros; discriminate.
  - split; [|split].
    + intros s v rest. cbn [JSON.parse_value].
      destruct (JSON.skip_ws s) as [|c r] eqn:Es; [discriminate|].
      destruct (N.eqb c QUOTE).
      { destruct (JSON.parse_string_body r) eqn:E; try discriminate.
        intros H. injection H as _ <-. parser_facts. lia. }
      destruct (N.eqb c 91).
      { destruct (JSON.skip_ws r) as [|c' r'] eqn:Er; [discriminate|].
        destruct (N.eqb c' 93).
        - intros H. injection H as _ <-. parser_facts. lia.
        - destruct (JSON.parse_elements f r) eqn:E; try discriminate.
          intros H. injection H as _ <-. apply IHe in E. parser_facts. lia. }
      destruct (N.eqb c 123).
      { destruct (JSON.skip_ws r) as [|c' r'] eqn:Er; [discriminate|].
        destruct (N.eqb c' 125).
        - intros H. injection H as _ <-. parser_facts. lia.
        - destruct (JSON.parse_members f r) eqn:E; try discriminate.
          intros H. injection H as _ <-. apply IHm in E. parser_facts. lia. }
      destruct (N.eqb c 116); [intros H; parser_facts; simpl in *; lia|].
      destruct (N.eqb c 102); [intros H; parser_facts; simpl in *; lia|].
      destruct (N.eqb c 110); [intros H; parser_facts; simpl in *; lia|].
      destruct (JSON.parse_number (c :: r)) eqn:E; try discriminate.
      intros H. injection H as _ <-. parser_facts. simpl in *. lia.
    + intros s vs rest. cbn [JSON.parse_elements].
      destruct (JSON.parse_value f s) as [v r1| |] eqn:Ev; try discriminate.
      apply IHv in Ev.
      destruct (JSON.skip_ws r1) as [|c r2] eqn:Es; [discriminate|].
      destruct (N.eqb c 44).
      { destruct (JSON.parse_elements f r2) eqn:E; try discriminate.
        intros H. injection H as _ <-. apply IHe in E. parser_facts. lia. }
      destruct (N.eqb c 93); [|discriminate].
      intros H. injection H as _ <-. parser_facts. lia.
    + intros s ms rest. cbn [JSON.parse_members].
      destruct (JSON.skip_ws s) as [|c r] eqn:Es; [discriminate|].
      destruct (N.eqb c QUOTE); [|discriminate].
      destruct (JSON.parse_string_body r) as [k r1| |] eqn:Ek; try discriminate.
      destruct (JSON.skip_ws r1) as [|c1 r2] eqn:Es1; [discriminate|].
      destruct (N.eqb c1 58); [|discriminate].
      destruct (JSON.parse_value f r2) as [v r3| |] eqn:Ev; try discriminate.
      apply IHv in Ev.
      destruct (JSON.skip_ws r3) as [|c3 r4] eqn:Es3; [discriminate|].
      destruct (N.eqb c3 44).
      { destruct (JSON.parse_members f r4) eqn:E; try discriminate.
        intros H. injection H as _ <-. apply IHm in E. parser_facts. lia. }
      destruct (N.eqb c3 125); [|discriminate].
      intros H. injection H as _ <-. parser_facts. lia.
Qed.

(** With more than twice as much fuel as there are characters, the
    parser does not run out of it. *)
Lemma parser_has_fuel (fuel : nat) :
  (forall s, (2 * length s < fuel)%nat -> JSON.parse_value fuel s <> JSON.NoFuel)
  /\ (forall s, (2 * length s + 1 < fuel)%nat -> JSON.parse_elements fuel s <> JSON.NoFuel)
  /\ (forall s, (2 * length s + 1 < fuel)%nat -> JSON.parse_members fuel s <> JSON.NoFuel).
Proof.
  induction fuel as [|f (IHv & IHe & IHm)].
  - repeat split; intros; lia.
  - split; [|split].
    + intros s Hf. cbn [JSON.parse_value].
      destruct (JSON.skip_ws s) as [|c r] eqn:Es; [discriminate|].
      destruct (N.eqb c QUOTE).
      { pose proof (parse_string_body_fuel r).
        destruct (JSON.parse_string_body r); congruence. }
      destruct (N.eqb c 91).
      { destruct (JSON.skip_ws r) as [|c' r'] eqn:Er; [discriminate|].
        destruct (N.eqb c' 93); [discriminate|].
        assert (JSON.parse_elements f r <> JSON.NoFuel).
        { apply IHe. clear Er. parser_facts. lia. }
        destruct (JSON.parse_elements f r); congruence. }
      destruct (N.eqb c 123).
      { destruct (JSON.skip_ws r) as [|c' r'] eqn:Er; [discriminate|].
        destruct (N.eqb c' 125); [discriminate|].
        assert (JSON.parse_members f r <> JSON.NoFuel).
        { apply IHm. clear Er. parser_facts. lia. }
        destruct (JSON.parse_members f r); congruence. }
      destruct (N.eqb c 116); [apply parse_literal_spec; vm_compute; discriminate|].
      destruct (N.eqb c 102); [apply parse_literal_spec; vm_compute; discriminate|].
      destruct (N.eqb c 110); [apply parse_literal_spec; vm_compute; discriminate|].
      pose proof (proj1 (parse_number_spec (c :: r))).
      destruct (JSON.parse_number (c :: r)); congruence.
    + intros s Hf. cbn [JSON.parse_elements].
      assert (Hv : JSON.parse_value f s <> JSON.NoFuel) by (apply IHv; lia).
      destruct (JSON.parse_value f s) as [v r1| |] eqn:Ev; [|discriminate|congruence].
      apply (proj1 (parser_consumes f)) in Ev.
      destruct (JSON.skip_ws r1) as [|c r2] eqn:Es; [discriminate|].
      destruct (N.eqb c 44).
      { assert (JSON.parse_elements f r2 <> JSON.NoFuel).
        { apply IHe. parser_facts. lia. }
        destruct (JSON.parse_elements f r2); congruence. }
      destruct (N.eqb c 93); discriminate.
    + intros s Hf. cbn [JSON.parse_members].
      destruct (JSON.skip_ws s) as [|c r] eqn:Es; [discriminate|].
      destruct (N.eqb c QUOTE); [|discriminate].
      pose proof (parse_string_body_fuel r) as Hk.
      destruct (JSON.parse_string_body r) as [k r1| |] eqn:Ek; [|discriminate|congruence].
      destruct (JSON.skip_ws r1) as [|c1 r2] eqn:Es1; [discriminate|].
      destruct (N.eqb c1 58); [|discriminate].
      assert (Hv : JSON.parse_value f r2 <> JSON.NoFuel).
      { apply IHv. parser_facts. lia. }
      destruct (JSON.parse_value f r2) as [v r3| |] eqn:Ev; [|discriminate|congruence].
      apply (proj1 (parser_consumes f)) in Ev.
      destruct (JSON.skip_ws r3) as [|c3 r4] eqn:Es3; [discriminate|].
      destruct (N.eqb c3 44).
      { assert (JSON.parse_members f r4 <> JSON.NoFuel).
        { apply IHm. parser_facts. lia. }
        destruct (JSON.parse_members f r4); congruence. }
      destruct (N.eqb c3 125); discriminate.
Qed.

(** [JSON.parse] decides every text with the fuel it takes. *)
Lemma JSON_parse_has_fuel (text : jsstring) :
  JSON.parse_value (2 * length text + 1) text <> JSON.NoFuel.
Proof. apply parser_has_fuel. lia. Qed.

(** ** A response is one line *)

Lemma json_induction (P : json -> Prop) :
  P JNull -> (forall b, P (JBool b)) -> (forall n, P (JNum n)) -> (forall s, P (JStr s)) ->
  (forall l, Forall P l -> P (JArr l)) ->
  (forall o, Forall (fun kv => P (snd kv)) o -> P (JObj o)) ->
  forall v, P v.
Proof.
  intros Hnull Hbool Hnum Hstr Harr Hobj.
  fix IH 1. intros [ | b | n | s | l | o].
  - exact Hnull.
  - apply Hbool.
  - apply Hnum.
  - apply Hstr.
  - apply Harr. induction l as [|x l IHl]; constructor; [apply IH|exact IHl].
  - apply Hobj. induction o as [|[k x] o IHo]; constructor; [apply IH|exact IHo].
Qed.

Lemma one_line_app (a b : jsstring) : one_line a -> one_line b -> one_line (a ++ b).
Proof. intros Ha Hb. apply Forall_app. split; assumption. Qed.

Lemma one_line_not_In (s : jsstring) : one_line s -> ~ In LF s.
Proof.
  unfold one_line. intros H Hin. rewrite Forall_forall in H. exact (H LF Hin eq_refl).
Qed.

Ltac literal_one_line := repeat constructor; discriminate.

Lemma chars_of_uint_one_line (u : Decimal.uint) : one_line (chars_of_uint u).
Proof. induction u; simpl; constructor; try discriminate; assumption. Qed.

Lemma strip_trailing_zeros_one_line (s : jsstring) :
  one_line s -> one_line (strip_trailing_zeros s).
Proof.
  unfold one_line. intros H. unfold strip_trailing_zeros. apply Forall_rev.
  apply Forall_rev in H. revert H. generalize (rev s). intros l H.
  induction H as [|c l Hc Hl IH]; [constructor|].
  destruct (N.eqb c 48); [exact IH|constructor; assumption].
Qed.

Lemma exponent_form_one_line (ds : jsstring) (n : Z) :
  one_line ds -> one_line (exponent_form ds n).
Proof.
  intros H. unfold exponent_form. apply one_line_app.
  - destruct H as [|d ds Hd Hds]; [constructor|].
    destruct ds; [constructor; [exact Hd|constructor]|].
    constructor; [exact Hd|]. constructor; [discriminate|exact Hds].
  - apply one_line_app; [literal_one_line|].
    apply one_line_app; [destruct (0 <=? n - 1)%Z; literal_one_line|].
    apply chars_of_uint_one_line.
Qed.

Lemma Number_toString_one_line (x : number) : one_line (Number_toString x).
Proof.
  assert (Hsign : forall z, one_line (sign_of z)).
  { intros z. unfold sign_of. destruct (z <? 0)%Z; [literal_one_line|constructor]. }
  destruct x as [z|m e]; unfold Number_toString; apply one_line_app; try apply Hsign.
  - destruct (Z.abs z <? 10 ^ 21)%Z; [apply chars_of_uint_one_line|].
    apply exponent_form_one_line, strip_trailing_zeros_one_line, chars_of_uint_one_line.
  - set (ds := digits_of_N (Z.abs_N m)).
    assert (Hds : one_line ds) by apply chars_of_uint_one_line.
    cbv zeta.
    destruct ((0 <? Z.of_nat (length ds) - Z.pos e)
              && (Z.of_nat (length ds) - Z.pos e <=? 21))%Z.
    + pose proof Hds as Hcut.
      rewrite <- (firstn_skipn (Z.to_nat (Z.of_nat (length ds) - Z.pos e)) ds) in Hcut.
      apply Forall_app in Hcut as [Hfirst Hrest].
      apply one_line_app; [exact Hfirst|].
      apply one_line_app; [literal_one_line|exact Hrest].
    + destruct ((-6 <? Z.of_nat (length ds) - Z.pos e)
                && (Z.of_nat (length ds) - Z.pos e <=? 0))%Z.
      * apply one_line_app; [literal_one_line|].
        apply one_line_app; [|exact Hds].
        apply Forall_forall. intros c Hc. apply repeat_spec in Hc. subst. discriminate.
      * apply exponent_form_one_line. exact Hds.
Qed.

Lemma unicode_escape_one_line (c : N) : one_line (JSON.unicode_escape c).
Proof.
  assert (Hhex : forall n, JSON.hex_digit n <> LF).
  { intros n. unfold JSON.hex_digit, LF. destruct (n <? 10)%N; lia. }
  unfold JSON.unicode_escape. repeat constructor; try discriminate; apply Hhex.
Qed.

Lemma quote_body_one_line_bounded (n : nat) :
  forall s, (length s <= n)%nat -> one_line (JSON.quote_body s).
Proof.
  induction n as [|n IH]; intros s Hn.
  - destruct s; [constructor|simpl in Hn; lia].
  - destruct s as [|c r]; [constructor|]. simpl in Hn.
    assert (Hr : one_line (JSON.quote_body r)) by (apply IH; lia).
    cbn [JSON.quote_body].
    repeat match goal with
           | |- one_line (if N.eqb c ?k then _ else _) =>
               destruct (N.eqb_spec c k);
               [constructor; [discriminate|constructor; [discriminate|exact Hr]]|]
           end.
    destruct (c <? 32)%N; [apply one_line_app; [apply unicode_escape_one_line|exact Hr]|].
    destruct (is_high_surrogate c) eqn:Ehi.
    { destruct r as [|d r']; [apply unicode_escape_one_line|].
      destruct (is_low_surrogate d) eqn:Elo.
      - destruct (surrogate_is_plain c (or_introl Ehi)) as (_ & _ & Hc & _).
        destruct (surrogate_is_plain d (or_intror Elo)) as (_ & _ & Hd & _).
        constructor; [unfold LF; lia|]. constructor; [unfold LF; lia|].
        apply IH. simpl in Hn. lia.
      - apply one_line_app; [apply unicode_escape_one_line|exact Hr]. }
    destruct (is_low_surrogate c);
      [apply one_line_app; [apply unicode_escape_one_line|exact Hr]|].
    constructor; [|exact Hr]. assumption.
Qed.

Lemma quote_one_line (s : jsstring) : one_line (JSON.quote s).
Proof.
  unfold JSON.quote. constructor; [discriminate|]. apply one_line_app.
  - apply (quote_body_one_line_bounded (length s)). apply Nat.le_refl.
  - literal_one_line.
Qed.

Lemma join_one_line (parts : list jsstring) :
  Forall one_line parts -> one_line (JSON.join parts).
Proof.
  induction 1 as [|p parts Hp Hparts IH]; [constructor|].
  simpl. destruct parts; [exact Hp|].
  apply one_line_app; [exact Hp|]. constructor; [discriminate|exact IH].
Qed.

(** [JSON.stringify] escapes the line feeds of strings and writes none
    of its own. *)
Lemma stringify_one_line (v : json) : one_line (JSON.stringify v).
Proof.
  induction v as [ | b | n | s | l IH | o IH] using json_induction.
  - literal_one_line.
  - destruct b; literal_one_line.
  - apply Number_toString_one_line.
  - apply quote_one_line.
  - cbn [JSON.stringify]. constructor; [discriminate|].
    apply one_line_app; [|literal_one_line]. apply join_one_line.
    apply Forall_map. exact IH.
  - cbn [JSON.stringify]. constructor; [discriminate|].
    apply one_line_app; [|literal_one_line]. apply join_one_line.
    apply Forall_map. apply (Forall_impl _ (P := fun kv => one_line (JSON.stringify (snd kv)))).
    + intros kv H. apply one_line_app; [apply quote_one_line|].
      constructor; [discriminate|exact H].
    + exact IH.
Qed.

(** The responses written for N requests are N lines of text. *)
Lemma responses_are_lines (rs : list daemon.RpcResponse) :
  split_nl (concat (map daemon.line_of rs))
  = map (fun r => JSON.stringify (daemon.object_of r)) rs ++ [[]].
Proof.
  unfold daemon.line_of.
  rewrite <- (map_map (fun r => JSON.stringify (daemon.object_of r)) (fun l => l ++ [LF])).
  apply split_nl_stream. apply Forall_map, Forall_forall. intros r _.
  apply one_line_not_In, stringify_one_line.
Qed.

(** ** Pipelined requests *)

Section Pipeline.

Variable SECRET_TOKEN : jsstring.
Variable array_token : json -> completion exn bool.

Lemma awaiting_answering (i : option json) (call : daemon.session_call)
    (f : option json -> option json) :
  answering i (daemon.awaiting i call f).
Proof.
  unfold daemon.awaiting. apply answering_await.
  intros [v|e]; apply answering_return; reflexivity.
Qed.

Lemma unknown_answering (i m : option json) : answering i (daemon.unknown i m).
Proof.
  unfold daemon.unknown. destruct (String_of m); apply answering_return; reflexivity.
Qed.

Lemma dispatch_answering (req : daemon.RpcRequest) :
  answering (daemon.id req) (daemon.dispatch req).
Proof.
  unfold daemon.dispatch.
  destruct (daemon.method req) as [[| | | m | |]|]; try apply unknown_answering.
  repeat match goal with
         | |- context [if jsstring_eqb m ?x then _ else _] =>
             destruct (jsstring_eqb m x)
         end;
    first [ apply awaiting_answering
          | apply unknown_answering
          | apply answering_return; reflexivity
          | apply answering_status; intros st; apply answering_return; reflexivity
          | apply answering_immediate; apply answering_return; reflexivity ].
Qed.

Lemma handleRequest_answering (req : daemon.RpcRequest) :
  answering (daemon.id req) (daemon.handleRequest SECRET_TOKEN array_token req).
Proof.
  assert (Hnull : req = JNull \/ req <> JNull)
    by (destruct req; (left; reflexivity) || (right; discriminate)).
  destruct Hnull as [-> | Hreq]; [apply answering_throw|].
  rewrite handleRequest_not_null by exact Hreq.
  destruct (daemon.token req) as [t|]; [|apply answering_return; reflexivity].
  destruct (negb (truthy (Some t))); [apply answering_return; reflexivity|].
  destruct (daemon.token_matches SECRET_TOKEN array_token t) as [[|]|e];
    [apply dispatch_answering|apply answering_return; reflexivity|apply answering_throw].
Qed.

Lemma same_connection_refl s : same_connection s s.
Proof. repeat split. Qed.

Lemma same_connection_trans s1 s2 s3 :
  same_connection s1 s2 -> same_connection s2 s3 -> same_connection s1 s3.
Proof.
  intros (A1 & A2 & A3 & A4 & A5) (B1 & B2 & B3 & B4 & B5).
  repeat split; congruence.
Qed.

Lemma run_spec (req : daemon.RpcRequest) (p : daemon.prog daemon.RpcResponse) :
  req <> JNull ->
  answering (daemon.id req) p ->
  forall s,
    same_connection s (fst (daemon.run req p s))
    /\ match snd (daemon.run req p s) with
       | Some c =>
           daemon.pending (fst (daemon.run req p s)) = daemon.pending s
           /\ daemon.response_id (daemon.reply req c) = daemon.id req
       | None =>
           exists k, daemon.pending (fst (daemon.run req p s))
                     = daemon.pending s ++ [(req, k)]
                     /\ pending_ok (req, k)
       end.
Proof.
  intros Hreq.
  induction 1 as [r Hr | e | call k Hk _ | t k Hk IH | k Hk IH]; intros s.
  - simpl. split; [apply same_connection_refl|]. split; [reflexivity|exact Hr].
  - simpl. split; [apply same_connection_refl|]. split; reflexivity.
  - simpl. split.
    + unfold same_connection. simpl. rewrite written_app, handled_app. simpl.
      rewrite !app_nil_r. repeat split.
    + exists k. split; [reflexivity|]. split; [exact Hreq|exact Hk].
  - simpl.
    destruct (IH (daemon.set_immediates (daemon.immediates s ++ [t])
                    (daemon.log [daemon.Immediate t] s))) as [Hsame Hres].
    split; [|exact Hres].
    eapply same_connection_trans; [|exact Hsame].
    unfold same_connection. simpl. rewrite written_app, handled_app. simpl.
    rewrite !app_nil_r. repeat split.
  - simpl. apply IH.
Qed.

End Pipeline.

(** ** The stream of lines, cut anywhere *)

Lemma first_LF (a : jsstring) :
  ~ In LF a \/ exists a1 a2, a = a1 ++ LF :: a2 /\ ~ In LF a1.
Proof.
  induction a as [|c a IH]; [left; intros []|].
  destruct (N.eq_dec c LF) as [->|Hc].
  - right. exists [], a. split; [reflexivity|intros []].
  - destruct IH as [Hno | (a1 & a2 & -> & Hno)].
    + left. intros [H|H]; [congruence|contradiction].
    + right. exists (c :: a1), a2. split; [reflexivity|].
      intros [H|H]; [congruence|contradiction].
Qed.

Lemma LF_split_unique (a1 x l y : jsstring) :
  ~ In LF a1 -> ~ In LF l -> a1 ++ LF :: x = l ++ LF :: y -> a1 = l /\ x = y.
Proof.
  revert l. induction a1 as [|c a1 IH]; intros [|d l] Ha Hl H; simpl in H.
  - injection H as ->. split; reflexivity.
  - injection H as <- _. exfalso. apply Hl. left. reflexivity.
  - injection H as -> _. exfalso. apply Ha. left. reflexivity.
  - injection H as -> H. destruct (IH l) as [-> ->]; try assumption.
    + intros Hin. apply Ha. right. exact Hin.
    + intros Hin. apply Hl. right. exact Hin.
    + split; reflexivity.
Qed.

Lemma removelast_cons_split (l : jsstring) (a : jsstring) :
  removelast (l :: split_nl a) = l :: removelast (split_nl a)
  /\ last (l :: split_nl a) [] = last (split_nl a) [].
Proof.
  pose proof (split_nl_nonempty a) as H.
  destruct (split_nl a); [congruence|]. split; reflexivity.
Qed.

(** A prefix [a] of the text of the lines [L] holds the first [k] lines
    complete, and leaves a part of the next one. *)
Lemma stream_prefix (L : list jsstring) :
  Forall (fun l => ~ In LF l) L ->
  forall a rest, a ++ rest = stream_of L ->
    exists k, removelast (split_nl a) = firstn k L
              /\ ~ In LF (last (split_nl a) [])
              /\ last (split_nl a) [] ++ rest = stream_of (skipn k L).
Proof.
  induction 1 as [|l L Hl HL IH]; intros a rest Heq.
  - apply app_eq_nil in Heq as [-> ->]. exists 0%nat. simpl.
    split; [reflexivity|]. split; [intros []|reflexivity].
  - destruct (first_LF a) as [Hno | (a1 & a2 & -> & Hno)].
    + exists 0%nat. rewrite split_nl_no_LF by exact Hno. simpl.
      split; [reflexivity|]. split; [exact Hno|exact Heq].
    + unfold stream_of in Heq. simpl in Heq.
      rewrite <- !app_assoc in Heq. simpl in Heq.
      destruct (LF_split_unique a1 (a2 ++ rest) l _ Hno Hl Heq) as [-> Hrest].
      destruct (IH a2 rest Hrest) as (k & Hk1 & Hk2 & Hk3).
      exists (S k). rewrite split_nl_line by exact Hl.
      destruct (removelast_cons_split l a2) as [-> ->].
      simpl. rewrite Hk1. split; [reflexivity|]. split; assumption.
Qed.

Lemma stream_no_LF (L : list jsstring) : ~ In LF (stream_of L) -> L = [].
Proof.
  destruct L as [|l L]; [reflexivity|]. intros H. exfalso. apply H.
  unfold stream_of. simpl. apply in_or_app. left. apply in_or_app. right.
  left. reflexivity.
Qed.

(** ** The loop over the lines, and the callbacks *)

Section Loop.

Variable SECRET_TOKEN : jsstring.
Variable array_token : json -> completion exn bool.

Lemma on_lines_spec (lines : list jsstring) (reqs : list daemon.RpcRequest) :
  Forall2 request_line lines reqs ->
  forall s settled0,
  exists s' settled P,
    fold_left (daemon.on_line SECRET_TOKEN array_token) lines (s, settled0) = (s', settled0 ++ settled)
    /\ daemon.written (daemon.journal s') = daemon.written (daemon.journal s)
    /\ daemon.handled (daemon.journal s') = daemon.handled (daemon.journal s) ++ reqs
    /\ daemon.buf s' = daemon.buf s
    /\ daemon.destroyed s' = daemon.destroyed s
    /\ daemon.exit_code s' = daemon.exit_code s
    /\ daemon.pending s' = daemon.pending s ++ P
    /\ Permutation (map fst settled ++ map fst P) reqs
    /\ Forall answered settled
    /\ Forall (pending_ok) P.
Proof.
  induction 1 as [|line req lines reqs (Hnl & Hparse & Hreq) _ IH]; intros s settled0.
  - exists s, [], []. rewrite !app_nil_r. repeat split; constructor.
  - cbn [fold_left]. unfold daemon.on_line at 2.
    rewrite (parse_not_blank _ _ Hparse), Hparse.
    destruct (run_spec req _ Hreq (handleRequest_answering SECRET_TOKEN array_token req)
                (daemon.log [daemon.Handle req] s)) as [Hsame Hres].
    destruct (daemon.run req (daemon.handleRequest SECRET_TOKEN array_token req)
                (daemon.log [daemon.Handle req] s)) as [s1 o].
    cbn [fst snd] in Hsame, Hres.
    destruct Hsame as (Hw & Hh & Hb & Hd & He).
    simpl in Hw, Hh, Hb, Hd, He. rewrite written_app in Hw. rewrite handled_app in Hh.
    simpl in Hw, Hh. rewrite app_nil_r in Hw.
    destruct o as [c|].
    + destruct Hres as [Hp Hid]. simpl in Hp.
      destruct (IH s1 (settled0 ++ [(req, c)]))
        as (s' & settled & P & Hfold & Hw' & Hh' & Hb' & Hd' & He' & Hp' & Hperm & Hans & Hpok).
      exists s', ((req, c) :: settled), P.
      split; [rewrite <- app_assoc in Hfold; exact Hfold|].
      rewrite Hw', Hw, Hh', Hh, Hb', Hb, Hd', Hd, He', He, Hp', Hp, <- app_assoc.
      repeat split; try reflexivity.
      * simpl. apply perm_skip. exact Hperm.
      * constructor; [split; [exact Hreq|exact Hid]|exact Hans].
      * exact Hpok.
    + destruct Hres as (k & Hp & Hk). simpl in Hp.
      destruct (IH s1 settled0)
        as (s' & settled & P & Hfold & Hw' & Hh' & Hb' & Hd' & He' & Hp' & Hperm & Hans & Hpok).
      exists s', settled, ((req, k) :: P).
      rewrite Hfold. split; [reflexivity|].
      rewrite Hw', Hw, Hh', Hh, Hb', Hb, Hd', Hd, He', He, Hp', Hp, <- !app_assoc.
      repeat split; try reflexivity.
      * simpl. apply Permutation_sym, Permutation_cons_app, Permutation_sym. exact Hperm.
      * exact Hans.
      * constructor; [exact Hk|exact Hpok].
Qed.

Lemma respond_all (l : list (daemon.RpcRequest * completion exn daemon.RpcResponse)) :
  Forall (fun rc => fst rc <> JNull) l ->
  forall s, daemon.destroyed s = false ->
    let s' := fold_left (fun s rc => daemon.respond (fst rc) (snd rc) s) l s in
    daemon.written (daemon.journal s')
    = daemon.written (daemon.journal s)
      ++ map (fun rc => daemon.line_of (daemon.reply (fst rc) (snd rc))) l
    /\ daemon.handled (daemon.journal s') = daemon.handled (daemon.journal s)
    /\ daemon.buf s' = daemon.buf s
    /\ daemon.destroyed s' = false
    /\ daemon.exit_code s' = daemon.exit_code s
    /\ daemon.pending s' = daemon.pending s.
Proof.
  induction 1 as [|rc l Hrc _ IH]; intros s Hopen; simpl.
  - rewrite app_nil_r. repeat split. exact Hopen.
  - assert (Hopen' : daemon.destroyed (daemon.respond (fst rc) (snd rc) s) = false).
    { rewrite respond_not_null by exact Hrc. rewrite Hopen. exact Hopen. }
    destruct (IH _ Hopen') as (Hw & Hh & Hb & Hd & He & Hp).
    unfold daemon.RpcRequest in *.
    rewrite Hw, Hh, Hb, Hd, He, Hp. rewrite respond_not_null by exact Hrc.
    rewrite Hopen. simpl.
    rewrite written_app, handled_app. simpl. rewrite <- app_assoc, app_nil_r.
    repeat split.
Qed.

Lemma partition_permutation {A : Type} (f : A -> bool) (l : list A) :
  Permutation (filter f l ++ filter (fun x => negb (f x)) l) l.
Proof.
  induction l as [|x l IH]; [constructor|]. simpl.
  destruct (f x); simpl.
  - apply perm_skip. exact IH.
  - apply Permutation_sym, Permutation_cons_app, Permutation_sym. exact IH.
Qed.

End Loop.

(** ** Any chunking, any order of completion *)

Section Serving.

Variable SECRET_TOKEN : jsstring.
Variable array_token : json -> completion exn bool.

Lemma steps_exited (evs : list daemon.input) (s : daemon.process) (c : Z) :
  daemon.exit_code s = Some c -> daemon.steps SECRET_TOKEN array_token s evs = s.
Proof.
  intros H. induction evs as [|e evs IH]; [reflexivity|].
  simpl. replace (daemon.step SECRET_TOKEN array_token s e) with s
    by (unfold daemon.step; rewrite H; reflexivity).
  exact IH.
Qed.

Lemma respond_open req c s :
  daemon.destroyed (daemon.respond req c s) = daemon.destroyed s.
Proof.
  unfold daemon.respond. destruct (daemon.destroyed s) eqn:E; [exact E|].
  destruct req, c; exact E.
Qed.

Lemma on_data_open (s : daemon.process) (chunk : jsstring) :
  daemon.destroyed (daemon.on_data SECRET_TOKEN array_token s chunk) = daemon.destroyed s.
Proof.
  unfold daemon.on_data.
  destruct (pop (split_nl (daemon.buf s ++ chunk))) as [lines last].
  set (s1 := daemon.set_buf _ s).
  assert (H1 : daemon.destroyed s1 = daemon.destroyed s) by reflexivity.
  rewrite <- H1. clear H1. generalize s1. clear s1. intros s1.
  assert (Hlines : forall acc,
            daemon.destroyed (fst (fold_left (daemon.on_line SECRET_TOKEN array_token) lines acc))
            = daemon.destroyed (fst acc)).
  { induction lines as [|l ls IH]; intros acc; [reflexivity|].
    simpl. rewrite IH. destruct acc as [a settled]. unfold daemon.on_line.
    destruct (is_empty (trim l)); [reflexivity|].
    destruct (JSON.parse l) as [req|e]; [|reflexivity].
    assert (Hrun : forall p a', daemon.destroyed (fst (daemon.run req p a'))
                                = daemon.destroyed a').
    { induction p as [c | call k IHk | t k IHk | k IHk]; intros a'; simpl;
        try reflexivity; [rewrite IHk; reflexivity | apply IHk]. }
    specialize (Hrun (daemon.handleRequest SECRET_TOKEN array_token req)
                  (daemon.log [daemon.Handle req] a)).
    destruct (daemon.run req _ _) as [s' [c|]]; exact Hrun. }
  specialize (Hlines (s1, [])).
  destruct (fold_left _ lines _) as [s2 settled]. simpl in Hlines.
  rewrite <- Hlines. unfold daemon.drain.
  generalize (filter (fun rc => daemon.is_fulfilled (snd rc)) settled
              ++ filter (fun rc => negb (daemon.is_fulfilled (snd rc))) settled).
  intros l. generalize s2. induction l as [|x l IH]; intros a; [reflexivity|].
  simpl. rewrite IH. apply respond_open.
Qed.

Lemma run_open (req : daemon.RpcRequest) (p : daemon.prog daemon.RpcResponse) :
  forall s, daemon.destroyed (fst (daemon.run req p s)) = daemon.destroyed s.
Proof.
  induction p as [c | call k IHk | t k IHk | k IHk]; intros s; simpl;
    try reflexivity; [rewrite IHk; reflexivity | apply IHk].
Qed.

Lemma step_closed (s : daemon.process) (i : daemon.input) :
  daemon.destroyed s = true -> daemon.destroyed (daemon.step SECRET_TOKEN array_token s i) = true.
Proof.
  intros H. unfold daemon.step. destruct (daemon.exit_code s); [exact H|].
  destruct i as [chunk | n r | | | ].
  - rewrite H. exact H.
  - destruct (nth_error (daemon.pending s) n) as [[req k]|]; [|exact H].
    pose proof (run_open req (k r)
                  (daemon.set_pending (daemon.remove_nth n (daemon.pending s)) s)) as Hr.
    destruct (daemon.run req _ _) as [s' [c|]]; simpl in Hr.
    + rewrite respond_open, Hr. exact H.
    + rewrite Hr. exact H.
  - destruct (daemon.immediates s) as [|[] rest]; [exact H|exact H].
  - exact H.
  - reflexivity.
Qed.

Lemma steps_closed (evs : list daemon.input) (s : daemon.process) :
  daemon.destroyed s = true -> daemon.destroyed (daemon.steps SECRET_TOKEN array_token s evs) = true.
Proof.
  revert s. induction evs as [|e evs IH]; intros s H; [exact H|].
  simpl. apply IH. apply step_closed. exact H.
Qed.

Lemma remove_nth_permutation {A : Type} (n : nat) (l : list A) (x : A) :
  nth_error l n = Some x -> Permutation l (x :: daemon.remove_nth n l).
Proof.
  revert l. induction n as [|n IH]; intros [|y l] H; simpl in H; try discriminate.
  - injection H as ->. reflexivity.
  - simpl. eapply perm_trans; [apply perm_skip, IH, H|]. apply perm_swap.
Qed.

End Serving.

Section Served.

Variable SECRET_TOKEN : jsstring.
Variable array_token : json -> completion exn bool.

Lemma Forall2_firstn_skipn {A B : Type} (R : A -> B -> Prop) (k : nat) :
  forall l l', Forall2 R l l' ->
    Forall2 R (firstn k l) (firstn k l') /\ Forall2 R (skipn k l) (skipn k l').
Proof.
  induction k as [|k IH]; intros l l' H.
  - split; [constructor|exact H].
  - destruct H as [|x y l l' Hxy H]; [split; constructor|].
    destruct (IH l l' H) as [H1 H2]. split; [constructor; assumption|exact H2].
Qed.

Lemma shuffle {A : Type} (a b c d : list A) :
  Permutation (a ++ b ++ c ++ d) (b ++ (a ++ c) ++ d).
Proof.
  rewrite !app_assoc. apply Permutation_app_tail. apply Permutation_app_tail.
  apply Permutation_app_comm.
Qed.

Lemma serve_gen (evs : list daemon.input) :
  forall s lines reqs,
    Forall2 request_line lines reqs ->
    ~ In LF (daemon.buf s) ->
    daemon.buf s ++ concat (chunks_of evs) = stream_of lines ->
    Forall pending_ok (daemon.pending s) ->
    daemon.exit_code (daemon.steps SECRET_TOKEN array_token s evs) = None ->
    daemon.destroyed (daemon.steps SECRET_TOKEN array_token s evs) = false ->
    daemon.pending (daemon.steps SECRET_TOKEN array_token s evs) = [] ->
    exists done,
      Forall linked done
      /\ daemon.written (daemon.journal (daemon.steps SECRET_TOKEN array_token s evs))
         = daemon.written (daemon.journal s) ++ map (fun d => daemon.line_of (snd d)) done
      /\ Permutation (map fst done) (map fst (daemon.pending s) ++ reqs)
      /\ daemon.handled (daemon.journal (daemon.steps SECRET_TOKEN array_token s evs))
         = daemon.handled (daemon.journal s) ++ reqs
      /\ daemon.buf (daemon.steps SECRET_TOKEN array_token s evs) = [].
Proof.
  induction evs as [|e evs IH]; intros s lines reqs Hwf Hbuf Hstream Hpok Hexit Hopen Hquiet.
  - simpl in *. rewrite app_nil_r in Hstream. rewrite Hstream in Hbuf.
    apply stream_no_LF in Hbuf. subst lines. inversion Hwf; subst.
    exists []. rewrite Hquiet, !app_nil_r. simpl. repeat split; try constructor.
    exact Hstream.
  - change (daemon.steps SECRET_TOKEN array_token s (e :: evs))
      with (daemon.steps SECRET_TOKEN array_token (daemon.step SECRET_TOKEN array_token s e) evs) in *.
    assert (Hrun : daemon.exit_code s = None).
    { destruct (daemon.exit_code s) as [c|] eqn:E; [|reflexivity].
      assert (Hs : daemon.step SECRET_TOKEN array_token s e = s)
        by (unfold daemon.step; rewrite E; reflexivity).
      rewrite Hs, (steps_exited SECRET_TOKEN array_token evs s c E) in Hexit. congruence. }
    assert (Hlive : daemon.destroyed s = false).
    { destruct (daemon.destroyed s) eqn:E; [|reflexivity].
      rewrite (steps_closed SECRET_TOKEN array_token evs _
                 (step_closed SECRET_TOKEN array_token s e E)) in Hopen.
      discriminate. }
    destruct e as [chunk | n r | | | ].
    + (* a chunk *)
      assert (Hnolf : Forall (fun l => ~ In LF l) lines).
      { clear - Hwf. induction Hwf as [|l q ls qs [H _] _ IHf]; constructor; assumption. }
      simpl chunks_of in Hstream. simpl concat in Hstream. rewrite app_assoc in Hstream.
      destruct (stream_prefix lines Hnolf _ _ Hstream) as (k & Hk1 & Hk2 & Hk3).
      destruct (Forall2_firstn_skipn request_line k lines reqs Hwf) as [Hfirst Hrest].
      set (b' := last (split_nl (daemon.buf s ++ chunk)) []) in *.
      destruct (on_lines_spec SECRET_TOKEN array_token (firstn k lines) (firstn k reqs) Hfirst
                  (daemon.set_buf b' s) [])
        as (s2 & settled & P & Hfold & Hw2 & Hh2 & Hb2 & Hd2 & He2 & Hp2 & Hperm & Hans & HP).
      simpl in Hfold, Hw2, Hh2, Hb2, Hd2, He2, Hp2.
      set (ordered := filter (fun rc => daemon.is_fulfilled (snd rc)) settled
                      ++ filter (fun rc => negb (daemon.is_fulfilled (snd rc))) settled).
      assert (Hstep : daemon.step SECRET_TOKEN array_token s (daemon.Data chunk)
                      = fold_left (fun s rc => daemon.respond (fst rc) (snd rc) s)
                          ordered s2).
      { unfold daemon.step. rewrite Hrun, Hlive. unfold daemon.on_data.
        rewrite (@pop_spec jsstring _ [] (split_nl_nonempty _)). fold b'. rewrite Hk1, Hfold.
        reflexivity. }
      assert (Hord : Permutation ordered settled) by apply partition_permutation.
      assert (Hnn : Forall (fun rc : daemon.RpcRequest * completion exn daemon.RpcResponse =>
                              fst rc <> JNull) ordered).
      { apply (Permutation_Forall (Permutation_sym Hord)).
        apply (Forall_impl _ (fun rc H => proj1 H) Hans). }
      destruct (respond_all ordered Hnn s2 (eq_trans Hd2 Hlive))
        as (Hw1 & Hh1 & Hb1 & Hd1 & He1 & Hp1).
      rewrite <- Hstep in Hw1, Hh1, Hb1, Hd1, He1, Hp1.
      set (s1 := daemon.step SECRET_TOKEN array_token s (daemon.Data chunk)) in *.
      destruct (IH s1 (skipn k lines) (skipn k reqs)) as (done & Hl & Hw & Hpm & Hh & Hb);
        try assumption.
      * rewrite Hb1, Hb2. exact Hk2.
      * rewrite Hb1, Hb2. exact Hk3.
      * rewrite Hp1, Hp2. apply Forall_app. split; assumption.
      * exists (map replied ordered ++ done).
        split; [|split; [|split; [|split]]].
        -- apply Forall_app. split; [|exact Hl].
           apply Forall_map. apply (Permutation_Forall (Permutation_sym Hord)).
           apply (Forall_impl _ (fun rc H => proj2 H) Hans).
        -- rewrite Hw, Hw1, Hw2, map_app, map_map, <- app_assoc. reflexivity.
        -- rewrite map_app, map_map. simpl.
           rewrite Hp1, Hp2, map_app in Hpm.
           rewrite <- (firstn_skipn k reqs).
           eapply perm_trans; [apply Permutation_app; [apply (Permutation_map fst Hord)|exact Hpm]|].
           rewrite <- app_assoc.
           eapply perm_trans; [apply shuffle|].
           apply Permutation_app_head. apply Permutation_app_tail. exact Hperm.
        -- rewrite Hh, Hh1, Hh2, <- app_assoc, firstn_skipn. reflexivity.
        -- exact Hb.
    + (* an operation of the Session settles *)
      unfold daemon.step in *. rewrite Hrun in *.
      destruct (nth_error (daemon.pending s) n) as [[req k]|] eqn:En.
      * assert (Hk : pending_ok (req, k)).
        { rewrite Forall_forall in Hpok. apply Hpok. eapply nth_error_In. exact En. }
        pose proof (remove_nth_permutation n _ _ En) as Hrem.
        pose proof (remove_nth_Forall pending_ok n _ Hpok) as Hpok'.
        set (s0 := daemon.set_pending (daemon.remove_nth n (daemon.pending s)) s) in *.
        destruct (run_spec req (k r) (proj1 Hk) (proj2 Hk r) s0)
          as [(Hw0 & Hh0 & Hb0 & Hd0 & He0) Hres].
        destruct (daemon.run req (k r) s0) as [s' [c|]]; cbn [fst snd] in *.
        -- destruct Hres as [Hp0 Hid].
           assert (Hresp : daemon.respond req c s'
                           = daemon.log [daemon.Write (daemon.line_of (daemon.reply req c))] s').
           { rewrite respond_not_null by exact (proj1 Hk). rewrite Hd0. simpl.
             rewrite Hlive. reflexivity. }
           rewrite Hresp in *.
           destruct (IH (daemon.log [daemon.Write (daemon.line_of (daemon.reply req c))] s')
                       lines reqs) as (done & Hl & Hw & Hpm & Hh & Hb); try assumption.
           ++ simpl. rewrite Hb0. exact Hbuf.
           ++ simpl. rewrite Hb0. exact Hstream.
           ++ simpl. rewrite Hp0. exact Hpok'.
           ++ exists ((req, daemon.reply req c) :: done).
              split; [|split; [|split; [|split]]].
              ** constructor; [exact Hid|exact Hl].
              ** rewrite Hw. simpl. rewrite written_app, Hw0. simpl.
                 rewrite <- app_assoc. reflexivity.
              ** simpl. simpl in Hpm. rewrite Hp0 in Hpm. simpl in Hpm.
                 eapply perm_trans; [apply perm_skip, Hpm|].
                 change (Permutation ((req :: map fst (daemon.remove_nth n (daemon.pending s)))
                                      ++ reqs)
                           (map fst (daemon.pending s) ++ reqs)).
                 apply Permutation_app_tail. apply Permutation_sym.
                 exact (Permutation_map fst Hrem).
              ** rewrite Hh. simpl. rewrite handled_app, Hh0. simpl.
                 rewrite app_nil_r. reflexivity.
              ** exact Hb.
        -- destruct Hres as (k' & Hp0 & Hk').
           destruct (IH s' lines reqs) as (done & Hl & Hw & Hpm & Hh & Hb); try assumption.
           ++ rewrite Hb0. exact Hbuf.
           ++ rewrite Hb0. exact Hstream.
           ++ rewrite Hp0. apply Forall_app. split; [exact Hpok'|].
              constructor; [exact Hk'|constructor].
           ++ exists done.
              split; [exact Hl|]. split; [rewrite Hw, Hw0; reflexivity|].
              split; [|split; [rewrite Hh, Hh0; reflexivity|exact Hb]].
              eapply perm_trans; [exact Hpm|]. apply Permutation_app_tail.
              rewrite Hp0. simpl. rewrite map_app. simpl.
              eapply perm_trans; [apply Permutation_app_comm|]. simpl.
              apply Permutation_sym. exact (Permutation_map fst Hrem).
      * apply (IH s lines reqs); assumption.
    + (* the callbacks of setImmediate *)
      unfold daemon.step in *. rewrite Hrun in *.
      destruct (daemon.immediates s) as [|[] rest].
      * apply (IH s lines reqs); assumption.
      * rewrite (steps_exited SECRET_TOKEN array_token evs
                   (daemon.shutdown (daemon.set_immediates rest s)) 0%Z eq_refl) in Hexit.
        discriminate.
    + (* a signal *)
      unfold daemon.step in *. rewrite Hrun in *.
      rewrite (steps_exited SECRET_TOKEN array_token evs (daemon.shutdown s) 0%Z eq_refl)
        in Hexit.
      discriminate.
    + (* the end of the connection *)
      unfold daemon.step in *. rewrite Hrun in *.
      rewrite (steps_closed SECRET_TOKEN array_token evs (daemon.set_destroyed s) eq_refl)
        in Hopen.
      discriminate.
Qed.

End Served.

(** C2. N well-formed request lines, each ended by a line feed, reach a
    connection of a serving daemon in chunks cut anywhere, while the
    operations of the Session settle in any order. When all of them have
    settled (and the daemon still runs and the socket is still open) the
    handler has been called on exactly the N requests, in the order of
    the lines; the buffer is empty; and exactly N response lines were
    written, one for each request and with its id, in the order in which
    the handlers completed. *)
Theorem pipelined_requests_are_answered :
  forall (SECRET_TOKEN : jsstring) (array_token : json -> completion exn bool)
         (s0 : daemon.process) (lines : list jsstring)
         (reqs : list daemon.RpcRequest) (evs : list daemon.input),
    daemon.buf s0 = [] -> daemon.pending s0 = [] ->
    Forall2 request_line lines reqs ->
    concat (chunks_of evs) = stream_of lines ->
    daemon.exit_code (daemon.steps SECRET_TOKEN array_token s0 evs) = None ->
    daemon.destroyed (daemon.steps SECRET_TOKEN array_token s0 evs) = false ->
    daemon.pending (daemon.steps SECRET_TOKEN array_token s0 evs) = [] ->
    daemon.handled (daemon.journal (daemon.steps SECRET_TOKEN array_token s0 evs))
    = daemon.handled (daemon.journal s0) ++ reqs
    /\ daemon.buf (daemon.steps SECRET_TOKEN array_token s0 evs) = []
    /\ exists responses : list daemon.RpcResponse,
         Forall2 (fun req r => daemon.response_id r = daemon.id req) reqs responses
         /\ Permutation
              (daemon.written (daemon.journal (daemon.steps SECRET_TOKEN array_token s0 evs)))
              (daemon.written (daemon.journal s0) ++ map daemon.line_of responses)
         /\ length (daemon.written (daemon.journal (daemon.steps SECRET_TOKEN array_token s0 evs)))
            = (length (daemon.written (daemon.journal s0)) + length lines)%nat.
Proof.
  intros SECRET_TOKEN array_token s0 lines reqs evs Hbuf Hpending Hwf Hstream Hexit Hopen
    Hquiet.
  destruct (serve_gen SECRET_TOKEN array_token evs s0 lines reqs Hwf)
    as (done & Hl & Hw & Hpm & Hh & Hb);
    try assumption.
  - rewrite Hbuf. intros [].
  - rewrite Hbuf. exact Hstream.
  - rewrite Hpending. constructor.
  - split; [exact Hh|]. split; [exact Hb|].
    rewrite Hpending in Hpm. simpl in Hpm.
    destruct (Permutation_map_inv fst done (Permutation_sym Hpm)) as (done' & Hreqs & Hperm).
    exists (map snd done').
    assert (Hl' : Forall linked done') by exact (Permutation_Forall Hperm Hl).
    split; [|split].
    + rewrite Hreqs. clear - Hl'. induction Hl' as [|d ds Hd _ IH]; simpl; constructor.
      * exact Hd.
      * exact IH.
    + rewrite Hw. apply Permutation_app_head. rewrite map_map.
      apply (Permutation_map (fun d => daemon.line_of (snd d))). exact Hperm.
    + rewrite Hw, length_app, length_map. f_equal.
      rewrite (Forall2_length Hwf), Hreqs, length_map.
      apply Permutation_length. exact Hperm.
Qed.

Lemma pipelined_requests_are_answered_witness :
  daemon.handled (daemon.journal (daemon.steps example_secret no_array_token example_process
                                    example_schedule))
  = daemon.handled (daemon.journal example_process) ++ example_requests.
Proof.
  refine (proj1 (pipelined_requests_are_answered example_secret no_array_token example_process
                   example_lines example_requests example_schedule _ _ _ _ _ _ _)).
  - reflexivity.
  - reflexivity.
  - constructor; [|constructor; [|constructor]];
      (split; [vm_compute; intros H; repeat (destruct H as [H|H]; [discriminate|]); exact H
              |split; [vm_compute; reflexivity|discriminate]]).
  - vm_compute. reflexivity.
  - vm_compute. reflexivity.
  - vm_compute. reflexivity.
  - vm_compute. reflexivity.
Defined.

(** The same run: the response to [b] is written before that to [a]. *)
Example pipelined_responses_out_of_order :
  daemon.written (daemon.journal (daemon.steps example_secret no_array_token example_process
                                    example_schedule))
  = [jsq "{'id':'a','result':[]}" ++ [LF]; jsq "{'id':'b','result':'pong'}" ++ [LF]]
  /\ daemon.written (daemon.journal (daemon.steps example_secret no_array_token example_process
       [daemon.Data (stream_of example_lines); daemon.Settle 0 (Return (Some (JArr [])))]))
     = [jsq "{'id':'b','result':'pong'}" ++ [LF]; jsq "{'id':'a','result':[]}" ++ [LF]].
Proof. split; vm_compute; reflexivity. Qed.

(** ** Who is let in *)

(** X1. Against an ASCII secret (the daemon's is hexadecimal), the
    comparison answers [true] for the secret itself and for no other
    string. *)
Theorem only_the_secret_compares_equal (SECRET_TOKEN t : jsstring) :
  Forall (fun c => (c < 128)%N) SECRET_TOKEN ->
  daemon.timingSafeEqual t SECRET_TOKEN = Return true <-> t = SECRET_TOKEN.
Proof.
  intros Hascii. split.
  - rewrite (timingSafeEqual_cases SECRET_TOKEN Hascii).
    destruct (negb (Nat.eqb (length t) (length SECRET_TOKEN))); [discriminate|].
    destruct (forallb (fun c => (c <? 128)%N) t); [|discriminate].
    intros H. injection H as H. apply jsstring_eqb_eq. exact H.
  - intros ->. apply timingSafeEqual_refl.
Qed.


Lemma only_the_secret_compares_equal_witness :
  daemon.timingSafeEqual example_secret example_secret = Return true.
Proof.
  apply (only_the_secret_compares_equal example_secret example_secret).
  - apply Forall_forall. intros c Hc. apply N.ltb_lt.
    revert c Hc. apply forallb_forall. reflexivity.
  - reflexivity.
Defined.

(** X2. The handler runs the method of a request exactly when the
    token check lets the request in, and a request that presents the
    secret is let in. Every other request, whatever JSON value it is,
    is settled by the token check alone: with [Unauthorized], with what
    the comparison throws, or, for the request [null], with the
    [TypeError] of the destructuring; no operation of the Session is
    invoked, nothing is scheduled. A token that is a string is let in
    only when it is the secret; a token that is [null], a boolean, a
    number, an array of another length than the secret or an object
    without a numeric [length] is never let in. *)
Theorem handleRequest_dispatches_only_with_the_secret
    (SECRET_TOKEN : jsstring) (array_token : json -> completion exn bool)
    (req : daemon.RpcRequest) :
  Forall (fun c => (c < 128)%N) SECRET_TOKEN ->
  SECRET_TOKEN <> [] ->
  (daemon.token req = Some (JStr SECRET_TOKEN) ->
   daemon.handleRequest SECRET_TOKEN array_token req = daemon.dispatch req)
  /\ ((daemon.handleRequest SECRET_TOKEN array_token req = daemon.dispatch req
       /\ exists t, daemon.token req = Some t /\ truthy (Some t) = true
                    /\ daemon.token_matches SECRET_TOKEN array_token t = Return true)
      \/ daemon.handleRequest SECRET_TOKEN array_token req
         = daemon.Ret (Return (daemon.Error (daemon.id req) (js "Unauthorized")))
      \/ (req = JNull
          /\ daemon.handleRequest SECRET_TOKEN array_token req
             = daemon.Ret (Throw (TypeError
                 (jsq "Cannot destructure property 'id' of 'req' as it is null."))))
      \/ (exists t e, daemon.token req = Some t
                      /\ daemon.token_matches SECRET_TOKEN array_token t = Throw e
                      /\ daemon.handleRequest SECRET_TOKEN array_token req
                         = daemon.Ret (Throw e)))
  /\ (forall t, daemon.token_matches SECRET_TOKEN array_token (JStr t) = Return true
                <-> t = SECRET_TOKEN)
  /\ (forall t e, daemon.token_matches SECRET_TOKEN array_token (JStr t) = Throw e ->
                  e = crypto.ERR_CRYPTO_TIMING_SAFE_EQUAL_LENGTH
                  /\ length t = length SECRET_TOKEN /\ t <> SECRET_TOKEN)
  /\ (forall t,
        match t with
        | JNull | JBool _ | JNum _ => True
        | JStr _ => False
        | JArr l => length l <> length SECRET_TOKEN
        | JObj o => forall n, lookup (js "length") o <> Some (JNum n)
        end ->
        daemon.token_matches SECRET_TOKEN array_token t = Return false).
Proof.
  intros Hascii Hne. split; [|split; [|split; [|split]]].
  - apply handleRequest_authenticated. exact Hne.
  - assert (Hnull : req = JNull \/ req <> JNull)
      by (destruct req; (left; reflexivity) || (right; discriminate)).
    destruct Hnull as [-> | Hreq]; [right; right; left; split; reflexivity|].
    rewrite handleRequest_not_null by exact Hreq.
    destruct (daemon.token req) as [t|]; [|right; left; reflexivity].
    destruct (truthy (Some t)) eqn:Et; [|right; left; reflexivity].
    cbn [negb].
    destruct (daemon.token_matches SECRET_TOKEN array_token t) as [[|]|e] eqn:Em.
    + left. split; [reflexivity|]. exists t. repeat split; assumption.
    + right. left. reflexivity.
    + right. right. right. exists t, e. repeat split. exact Em.
  - intros t. cbn [daemon.token_matches].
    rewrite (timingSafeEqual_cases SECRET_TOKEN Hascii). split.
    + destruct (negb (Nat.eqb (length t) (length SECRET_TOKEN))); [discriminate|].
      destruct (forallb (fun c => (c <? 128)%N) t); [|discriminate].
      intros H. injection H as H. apply jsstring_eqb_eq. exact H.
    + intros ->. rewrite <- (timingSafeEqual_cases SECRET_TOKEN Hascii).
      apply timingSafeEqual_refl.
  - intros t e. cbn [daemon.token_matches].
    rewrite (timingSafeEqual_cases SECRET_TOKEN Hascii).
    destruct (Nat.eqb_spec (length t) (length SECRET_TOKEN)) as [Hlen|Hlen];
      [|discriminate].
    cbn [negb]. destruct (forallb (fun c => (c <? 128)%N) t) eqn:Ea; [discriminate|].
    intros H. injection H as <-. split; [reflexivity|]. split; [exact Hlen|].
    intros Heq.
    assert (Hall : forallb (fun c => (c <? 128)%N) t = true).
    { apply forallb_forall. intros c Hc. apply N.ltb_lt.
      rewrite Forall_forall in Hascii. apply Hascii. rewrite <- Heq. exact Hc. }
    congruence.
  - intros [|b|n|t|l|o] H; cbn [daemon.token_matches]; try reflexivity.
    + contradiction.
    + apply Nat.eqb_neq in H. rewrite H. reflexivity.
    + destruct (lookup (js "length") o) as [[|b|n|t|l|o']|]; try reflexivity.
      exfalso. exact (H n eq_refl).
Qed.

Lemma handleRequest_dispatches_only_with_the_secret_witness :
  daemon.handleRequest example_secret no_array_token stop_request = daemon.dispatch stop_request.
Proof.
  refine (proj1 (handleRequest_dispatches_only_with_the_secret example_secret no_array_token
                   stop_request _ _) eq_refl).
  - apply Forall_forall. intros c Hc. apply N.ltb_lt.
    revert c Hc. apply forallb_forall. reflexivity.
  - discriminate.
Defined.

(** ** What the methods answer *)

(** X3. An authenticated request for a method that the handler does not
    know is answered with [Unknown RPC method: ] and the name; nothing
    else happens. The name is the method as a string, whatever value the
    request carries there; when the value cannot be made a string, the
    answer carries the message of that failure. *)
Theorem unknown_method_is_named (SECRET_TOKEN : jsstring)
    (array_token : json -> completion exn bool) (req : daemon.RpcRequest) :
  SECRET_TOKEN <> [] ->
  daemon.token req = Some (JStr SECRET_TOKEN) ->
  (forall m, daemon.method req = Some (JStr m) -> ~ In m methods) ->
  (forall m, daemon.method req = Some (JStr m) ->
             daemon.handleRequest SECRET_TOKEN array_token req
             = daemon.Ret (Return (daemon.Error (daemon.id req)
                                     (js "Unknown RPC method: " ++ m))))
  /\ daemon.handleRequest SECRET_TOKEN array_token req
     = daemon.Ret (Return (daemon.Error (daemon.id req)
                             match String_of (daemon.method req) with
                             | Return name => js "Unknown RPC method: " ++ name
                             | Throw err => message_or_string err
                             end)).
Proof.
  intros Hne Htok Hm.
  rewrite (handleRequest_authenticated SECRET_TOKEN array_token req Hne Htok).
  assert (Hstring : forall m, daemon.method req = Some (JStr m) ->
                      daemon.dispatch req
                      = daemon.Ret (Return (daemon.Error (daemon.id req)
                                              (js "Unknown RPC method: " ++ m)))).
  { intros m Em. specialize (Hm m Em). rewrite (dispatch_string_method req m Em).
    cbv zeta.
    repeat match goal with
           | |- context [if jsstring_eqb m ?x then _ else _] =>
               destruct (jsstring_eqb m x) eqn:?;
               [exfalso; apply Hm;
                match goal with H : jsstring_eqb _ _ = true |- _ =>
                  apply jsstring_eqb_eq in H; rewrite H end;
                unfold methods; simpl; tauto | ]
           end.
    reflexivity. }
  split; [exact Hstring|].
  destruct (daemon.method req) as [[|b|n|m|l|o]|] eqn:Em;
    try (unfold daemon.dispatch; rewrite Em; unfold daemon.unknown;
         destruct (String_of _); reflexivity).
  rewrite (Hstring m eq_refl). reflexivity.
Qed.

Lemma unknown_method_is_named_witness :
  daemon.handleRequest example_secret no_array_token
    (JObj [(js "id", JStr (js "9")); (js "method", JStr (js "Ping"));
           (js "token", JStr example_secret)])
  = daemon.Ret (Return (daemon.Error (Some (JStr (js "9"))) (js "Unknown RPC method: Ping"))).
Proof.
  refine (proj1 (unknown_method_is_named example_secret no_array_token
                   (JObj [(js "id", JStr (js "9")); (js "method", JStr (js "Ping"));
                          (js "token", JStr example_secret)]) _ _ _) (js "Ping") eq_refl).
  - discriminate.
  - reflexivity.
  - intros m Em. injection Em as <-. unfold methods. simpl. intros H.
    repeat (destruct H as [H|H]; [discriminate|]). exact H.
Defined.

(** X4. The promise of the handler is rejected by what precedes the
    [try] only: by the destructuring of a request that is [null], and
    by the token comparison, which throws the [RangeError] for a string
    of the secret's length and another byte length, and whatever Node
    throws for an array or an object. A failure of the Session never
    rejects it. *)
Theorem handleRequest_rejects_only_in_the_token_check
    (SECRET_TOKEN : jsstring) (array_token : json -> completion exn bool)
    (req : daemon.RpcRequest) (e : exn) :
  outcome (daemon.handleRequest SECRET_TOKEN array_token req) (Throw e) ->
  (req = JNull
   /\ e = TypeError (jsq "Cannot destructure property 'id' of 'req' as it is null."))
  \/ (exists t, daemon.token req = Some (JStr t)
                /\ e = crypto.ERR_CRYPTO_TIMING_SAFE_EQUAL_LENGTH
                /\ length t = length SECRET_TOKEN
                /\ length (Buffer_from t) <> length (Buffer_from SECRET_TOKEN))
  \/ (exists a, daemon.token req = Some a
                /\ match a with
                   | JArr l => length l = length SECRET_TOKEN
                   | JObj o => exists n, lookup (js "length") o = Some (JNum n)
                   | _ => False
                   end
                /\ array_token a = Throw e).
Proof.
  assert (Hnull : req = JNull \/ req <> JNull)
    by (destruct req; (left; reflexivity) || (right; discriminate)).
  destruct Hnull as [-> | Hreq].
  { intros H. inversion H; subst. left. split; reflexivity. }
  rewrite handleRequest_not_null by exact Hreq.
  destruct (daemon.token req) as [t|]; [|intros H; inversion H].
  destruct (negb (truthy (Some t))); [intros H; inversion H|].
  destruct (daemon.token_matches SECRET_TOKEN array_token t) as [[|]|err] eqn:Ecmp.
  - intros H. exfalso. unfold daemon.dispatch in H.
    assert (Hunk : forall i mv c, outcome (daemon.unknown i mv) (Throw c) -> False).
    { intros i mv c Hu. unfold daemon.unknown in Hu. destruct (String_of mv); inversion Hu. }
    destruct (daemon.method req) as [[|b|n|m|l|o]|]; try exact (Hunk _ _ _ H).
    repeat match type of H with
           | outcome (if ?b then _ else _) _ => destruct b
           end;
      try exact (Hunk _ _ _ H);
      repeat match goal with
             | H : outcome (daemon.Ret _) _ |- _ => inversion H; clear H
             | H : outcome (daemon.GetStatus _) _ |- _ => inversion H; clear H; subst
             | H : outcome (daemon.SetImmediate _ _) _ |- _ => inversion H; clear H; subst
             | H : outcome (daemon.awaiting _ _ _) _ |- _ =>
                 unfold daemon.awaiting in H; inversion H; clear H; subst
             | H : outcome (match ?r with Return _ => _ | Throw _ => _ end) _ |- _ =>
                 destruct r
             end.
  - intros H. inversion H.
  - intros H. inversion H; subst. right.
    destruct t as [|b|n|t|l|o]; cbn [daemon.token_matches] in Ecmp; try discriminate.
    + left. unfold daemon.timingSafeEqual in Ecmp.
      destruct (Nat.eqb_spec (length t) (length SECRET_TOKEN)) as [Hlen|Hlen];
        [|discriminate].
      cbn [negb] in Ecmp. unfold crypto.timingSafeEqual in Ecmp.
      destruct (Nat.eqb_spec (length (Buffer_from t)) (length (Buffer_from SECRET_TOKEN)))
        as [Hb|Hb]; [discriminate|].
      injection Ecmp as <-. exists t. repeat split; assumption.
    + right. exists (JArr l).
      destruct (Nat.eqb_spec (length l) (length SECRET_TOKEN)) as [Hlen|Hlen];
        [|discriminate].
      split; [reflexivity|]. split; [exact Hlen|exact Ecmp].
    + right. exists (JObj o).
      destruct (lookup (js "length") o) as [[|b|n|t|l|o']|] eqn:El; try discriminate.
      split; [reflexivity|]. split; [exists n; reflexivity|exact Ecmp].
Qed.

Lemma handleRequest_rejects_only_in_the_token_check_witness :
  exists t, daemon.token odd_request = Some (JStr t)
            /\ length t = length example_secret
            /\ length (Buffer_from t) <> length (Buffer_from example_secret).
Proof.
  destruct (handleRequest_rejects_only_in_the_token_check example_secret no_array_token
              odd_request crypto.ERR_CRYPTO_TIMING_SAFE_EQUAL_LENGTH (outcome_ret _))
    as [[H _] | [(t & Ht & _ & Hlen & Hbytes) | (a & Ha & Hkind & _)]].
  - discriminate H.
  - exists t. repeat split; assumption.
  - exfalso. injection Ha as <-. exact Hkind.
Defined.

(** X5. When the operation that a handler awaits fails, the handler
    answers the request with the message of the error (or with the
    thrown value as a string): the failure stays inside the response. *)
Theorem session_failure_is_answered (SECRET_TOKEN : jsstring)
    (array_token : json -> completion exn bool) (req : daemon.RpcRequest)
    (call : daemon.session_call) (k : daemon.continuation) (err : exn) :
  daemon.handleRequest SECRET_TOKEN array_token req = daemon.Await call k ->
  k (Throw err)
  = daemon.Ret (Return (daemon.Error (daemon.id req) (message_or_string err))).
Proof.
  assert (Hnull : req = JNull \/ req <> JNull)
    by (destruct req; (left; reflexivity) || (right; discriminate)).
  destruct Hnull as [-> | Hreq]; [discriminate|].
  rewrite handleRequest_not_null by exact Hreq.
  destruct (daemon.token req) as [t|]; [|discriminate].
  destruct (negb (truthy (Some t))); [discriminate|].
  destruct (daemon.token_matches SECRET_TOKEN array_token t) as [[|]|e0]; try discriminate.
  unfold daemon.dispatch.
  destruct (daemon.method req) as [[|b|n|m|l|o]|];
    try (unfold daemon.unknown; destruct (String_of _); discriminate).
  repeat match goal with
         | |- context [if jsstring_eqb m ?x then _ else _] =>
             destruct (jsstring_eqb m x)
         end;
    try discriminate;
    try (unfold daemon.unknown; simpl; discriminate);
    unfold daemon.awaiting; intros H; injection H as _ <-; reflexivity.
Qed.

Lemma session_failure_is_answered_witness :
  (fun r => match r with
            | Return v => daemon.Ret (Return (daemon.Result (Some (JStr (js "a"))) v))
            | Throw err =>
                daemon.Ret (Return (daemon.Error (Some (JStr (js "a")))
                                      (message_or_string err)))
            end) (Throw (new_Error (js "Evaluation failed")))
  = daemon.Ret (Return (daemon.Error (Some (JStr (js "a"))) (js "Evaluation failed"))).
Proof.
  exact (session_failure_is_answered example_secret no_array_token
           (JObj [(js "id", JStr (js "a")); (js "method", JStr (js "getThreads"));
                  (js "token", JStr example_secret)])
           daemon.getThreads _ (new_Error (js "Evaluation failed")) eq_refl).
Defined.

(** ** Lines that are no requests *)

Section Garbage.

Variable SECRET_TOKEN : jsstring.
Variable array_token : json -> completion exn bool.

Lemma on_line_garbage (line : jsstring) (s : daemon.process)
    (settled : list (daemon.RpcRequest * completion exn daemon.RpcResponse)) :
  garbage line ->
  daemon.on_line SECRET_TOKEN array_token (s, settled) line
  = (if not_blank line then daemon.log [daemon.Write invalid_json_line] s else s, settled).
Proof.
  intros [_ H]. unfold daemon.on_line, not_blank.
  destruct (is_empty (trim line)) eqn:E; [reflexivity|].
  destruct H as [H | [e H]]; [discriminate|]. rewrite H. reflexivity.
Qed.

Lemma on_lines_garbage (lines : list jsstring) :
  Forall garbage lines ->
  forall s settled,
    exists s',
      fold_left (daemon.on_line SECRET_TOKEN array_token) lines (s, settled) = (s', settled)
      /\ daemon.written (daemon.journal s')
         = daemon.written (daemon.journal s)
           ++ repeat invalid_json_line (length (filter not_blank lines))
      /\ daemon.handled (daemon.journal s') = daemon.handled (daemon.journal s)
      /\ daemon.pending s' = daemon.pending s
      /\ daemon.immediates s' = daemon.immediates s
      /\ daemon.buf s' = daemon.buf s
      /\ daemon.destroyed s' = daemon.destroyed s
      /\ vitals s' = vitals s.
Proof.
  induction 1 as [|l ls Hl _ IH]; intros s settled.
  - exists s. simpl. rewrite app_nil_r. repeat split.
  - cbn [fold_left]. rewrite (on_line_garbage l s settled Hl).
    destruct (IH (if not_blank l then daemon.log [daemon.Write invalid_json_line] s else s)
                settled) as (s' & Hfold & Hw & Hh & Hp & Hi & Hb & Hd & Hv).
    exists s'. split; [exact Hfold|].
    cbn [filter]. destruct (not_blank l).
    + rewrite Hw, Hh, Hp, Hi, Hb, Hd, Hv. cbn [daemon.log daemon.journal].
      rewrite written_app, handled_app. cbn [daemon.written daemon.handled length repeat].
      rewrite app_nil_r, <- app_assoc. repeat split.
    + rewrite Hw, Hh, Hp, Hi, Hb, Hd, Hv. repeat split.
Qed.

(** X6. Lines that are blank or that are no JSON text disturb nothing:
    a chunk of such lines makes the data handler write one [Invalid
    JSON] line, under the id [?], for each line that is not blank, and
    nothing else; no request is handled, no operation is invoked, the
    buffer is empty again. *)
Theorem garbage_lines_are_answered_with_Invalid_JSON
    (s : daemon.process) (lines : list jsstring) :
  daemon.buf s = [] ->
  Forall garbage lines ->
  let s' := daemon.on_data SECRET_TOKEN array_token s (stream_of lines) in
  daemon.written (daemon.journal s')
  = daemon.written (daemon.journal s)
    ++ repeat invalid_json_line (length (filter not_blank lines))
  /\ daemon.handled (daemon.journal s') = daemon.handled (daemon.journal s)
  /\ daemon.pending s' = daemon.pending s
  /\ daemon.immediates s' = daemon.immediates s
  /\ daemon.buf s' = []
  /\ vitals s' = vitals s.
Proof.
  intros Hbuf Hg. unfold daemon.on_data. rewrite Hbuf. cbn [app].
  assert (Hnl : Forall (fun l => ~ In LF l) lines).
  { eapply Forall_impl; [|exact Hg]. intros l [H _]. exact H. }
  rewrite (split_nl_stream lines Hnl).
  rewrite (@pop_spec jsstring (lines ++ [[]]) []) by (destruct lines; discriminate).
  rewrite removelast_last, last_last.
  destruct (on_lines_garbage lines Hg (daemon.set_buf [] s) [])
    as (s' & Hfold & Hw & Hh & Hp & Hi & Hb & Hd & Hv).
  rewrite Hfold. unfold daemon.drain. cbn [filter app fold_left].
  repeat split; assumption.
Qed.

End Garbage.

Lemma garbage_lines_are_answered_with_Invalid_JSON_witness :
  let s' := daemon.on_data example_secret no_array_token example_process
              (stream_of [js "  "; js "{oops"; []; js "ping"]) in
  daemon.written (daemon.journal s')
  = daemon.written (daemon.journal example_process)
    ++ repeat invalid_json_line
         (length (filter not_blank [js "  "; js "{oops"; []; js "ping"]))
  /\ daemon.handled (daemon.journal s') = daemon.handled (daemon.journal example_process)
  /\ daemon.pending s' = daemon.pending example_process
  /\ daemon.immediates s' = daemon.immediates example_process
  /\ daemon.buf s' = []
  /\ vitals s' = vitals example_process.
Proof.
  apply (garbage_lines_are_answered_with_Invalid_JSON example_secret no_array_token
           example_process
           [js "  "; js "{oops"; []; js "ping"]).
  - reflexivity.
  - apply Forall_cons; [|apply Forall_cons; [|apply Forall_cons; [|apply Forall_cons;
      [|apply Forall_nil]]]];
      (split; [intros H; vm_compute in H; intuition discriminate|]).
    + left. reflexivity.
    + right. eexists. vm_compute. reflexivity.
    + left. reflexivity.
    + right. eexists. vm_compute. reflexivity.
Defined.

(** ** A connection that is gone *)

Section Gone.

Variable SECRET_TOKEN : jsstring.
Variable array_token : json -> completion exn bool.

Lemma run_writes_nothing (req : daemon.RpcRequest) (p : daemon.prog daemon.RpcResponse) :
  forall s,
    daemon.written (daemon.journal (fst (daemon.run req p s)))
    = daemon.written (daemon.journal s)
    /\ daemon.destroyed (fst (daemon.run req p s)) = daemon.destroyed s.
Proof.
  induction p as [c | call k _ | t k IH | k IH]; intros s; cbn [daemon.run fst].
  - split; reflexivity.
  - cbn [daemon.set_pending daemon.log daemon.journal daemon.destroyed].
    rewrite written_app. cbn [daemon.written]. rewrite app_nil_r. split; reflexivity.
  - destruct (IH (daemon.set_immediates (daemon.immediates s ++ [t])
                    (daemon.log [daemon.Immediate t] s))) as [Hw Hd].
    rewrite Hw, Hd. cbn [daemon.set_immediates daemon.log daemon.journal daemon.destroyed].
    rewrite written_app. cbn [daemon.written]. rewrite app_nil_r. split; reflexivity.
  - apply IH.
Qed.

Lemma step_gone (s : daemon.process) (i : daemon.input) :
  daemon.destroyed s = true ->
  daemon.written (daemon.journal (daemon.step SECRET_TOKEN array_token s i))
  = daemon.written (daemon.journal s).
Proof.
  intros Hd. unfold daemon.step.
  destruct (daemon.exit_code s); [reflexivity|].
  destruct i as [chunk | n r | | | ].
  - rewrite Hd. reflexivity.
  - destruct (nth_error (daemon.pending s) n) as [[req k]|]; [|reflexivity].
    pose proof (run_writes_nothing req (k r)
                  (daemon.set_pending (daemon.remove_nth n (daemon.pending s)) s))
      as [Hw Hd'].
    destruct (daemon.run req (k r) _) as [s' [c|]]; cbn [fst] in Hw, Hd'.
    + unfold daemon.respond. cbn [daemon.set_pending daemon.destroyed] in Hd'.
      rewrite Hd', Hd. exact Hw.
    + exact Hw.
  - destruct (daemon.immediates s) as [|[] rest]; [reflexivity|].
    cbn [daemon.shutdown daemon.journal daemon.set_immediates].
    rewrite written_app. cbn [daemon.written]. apply app_nil_r.
  - cbn [daemon.shutdown daemon.journal].
    rewrite written_app. cbn [daemon.written]. apply app_nil_r.
  - reflexivity.
Qed.

(** X7. Once the socket of a connection is destroyed, nothing more is
    written on it, whatever happens next: the handlers that were
    waiting for the Session still run to their end, and their responses
    are dropped. *)
Theorem nothing_is_written_on_a_destroyed_socket
    (evs : list daemon.input) (s : daemon.process) :
  daemon.destroyed s = true ->
  daemon.written (daemon.journal (daemon.steps SECRET_TOKEN array_token s evs))
  = daemon.written (daemon.journal s).
Proof.
  revert s. induction evs as [|i evs IH]; intros s Hd; [reflexivity|].
  unfold daemon.steps in *. cbn [fold_left].
  rewrite IH by (apply step_closed; exact Hd).
  apply step_gone. exact Hd.
Qed.

End Gone.

Lemma nothing_is_written_on_a_destroyed_socket_witness :
  daemon.written (daemon.journal
    (daemon.steps example_secret no_array_token
       (daemon.steps example_secret no_array_token example_process
          [daemon.Data (stream_of (firstn 1 example_lines)); daemon.Close])
       [daemon.Settle 0 (Return (Some (JArr [])))]))
  = daemon.written (daemon.journal
      (daemon.steps example_secret no_array_token example_process
         [daemon.Data (stream_of (firstn 1 example_lines)); daemon.Close])).
Proof.
  apply (nothing_is_written_on_a_destroyed_socket example_secret no_array_token).
  vm_compute. reflexivity.
Defined.

(** ** The reader of the client *)

Lemma split_nl_pieces (s : jsstring) : Forall (fun l => ~ In LF l) (split_nl s).
Proof.
  induction s as [|c s IH]; simpl.
  - constructor; [intros []|constructor].
  - destruct (N.eqb_spec c LF) as [->|Hc].
    + constructor; [intros []|exact IH].
    + pose proof (split_nl_nonempty s) as Hne.
      destruct (split_nl s) as [|l ls]; [congruence|].
      inversion IH as [|? ? Hl Hls]; subst.
      constructor; [|exact Hls]. intros [H|H]; [congruence|contradiction].
Qed.

Lemma last_piece (s : jsstring) : ~ In LF (last (split_nl s) []).
Proof.
  pose proof (split_nl_pieces s) as H. pose proof (split_nl_nonempty s) as Hne.
  rewrite Forall_forall in H. apply H.
  destruct (exists_last Hne) as (l' & x & ->). rewrite last_last.
  apply in_or_app. right. left. reflexivity.
Qed.

Lemma first_answer_app (id : jsstring) (a b : list jsstring) :
  first_answer id (a ++ b)
  = match find (fun l => match ipc.answers id l with Some _ => true | None => false end) a
    with
    | Some l => ipc.answers id l
    | None => first_answer id b
    end.
Proof.
  unfold first_answer. induction a as [|l a IH]; [reflexivity|].
  cbn [app find]. destruct (ipc.answers id l); [reflexivity|exact IH].
Qed.

Lemma scan_buffered (id : jsstring) (chunks : list jsstring) :
  forall buf, ~ In LF buf ->
    ipc.scan id buf chunks = first_answer id (complete_lines (buf ++ concat chunks)).
Proof.
  unfold complete_lines.
  induction chunks as [|chunk rest IH]; intros buf Hbuf.
  - cbn [concat ipc.scan]. rewrite app_nil_r, split_nl_no_LF by exact Hbuf. reflexivity.
  - cbn [concat ipc.scan]. rewrite app_assoc, (split_nl_app (buf ++ chunk) (concat rest)).
    rewrite (@pop_spec jsstring _ []) by apply split_nl_nonempty.
    rewrite removelast_app by apply split_nl_nonempty.
    rewrite first_answer_app.
    destruct (find _ (removelast (split_nl (buf ++ chunk)))); [reflexivity|].
    apply IH. apply last_piece.
Qed.

(** X8. The call is settled by the first complete line of the stream
    that carries its id, however the stream is cut into chunks: lines
    that are no JSON, that answer another call or that are not yet
    ended by a line feed are passed over. *)
Theorem scan_finds_the_first_answer_in_any_chunking
    (id : jsstring) (chunks : list jsstring) :
  ipc.scan id [] chunks = first_answer id (complete_lines (concat chunks)).
Proof. apply (scan_buffered id chunks []). intros []. Qed.

(** ** The state file: removal and mode *)

(** X9. What [writeDaemonState] wrote and [removeDaemonState] removed
    reads as absent, and removing twice is removing once. *)
Theorem removed_state_reads_as_absent (d d' : disk) (st : state.DaemonState) :
  state.writeDaemonState d st = (Return tt, d') ->
  ipc.readDaemonState (state.removeDaemonState d') = Return JNull
  /\ state.removeDaemonState (state.removeDaemonState d') = state.removeDaemonState d'.
Proof.
  unfold state.writeDaemonState, fs_mkdir, fs_writeFile.
  destruct (dir_writable d); [|discriminate].
  intros H. injection H as <-. split; reflexivity.
Qed.

Lemma removed_state_reads_as_absent_witness :
  ipc.readDaemonState (state.removeDaemonState example_disk) = Return JNull
  /\ state.removeDaemonState (state.removeDaemonState example_disk)
     = state.removeDaemonState example_disk.
Proof.
  apply (removed_state_reads_as_absent {| daemon_json := None; dir_writable := true |}
           example_disk example_state).
  reflexivity.
Defined.

(** X10. The state file is made with mode 0o600 when there was none;
    a file that is already there (left by a daemon that did not shut
    down) takes the new descriptor and keeps the mode it had. *)
Theorem writeDaemonState_mode (d d' : disk) (st : state.DaemonState) :
  state.writeDaemonState d st = (Return tt, d') ->
  exists f, daemon_json d' = Some f
            /\ content f = JSON.stringify (state.object_of st)
            /\ mode f = match daemon_json d with
                        | Some old => mode old
                        | None => 384%N
                        end.
Proof.
  unfold state.writeDaemonState, fs_mkdir, fs_writeFile.
  destruct (dir_writable d); [|discriminate].
  intros H. injection H as <-. eexists. repeat split.
Qed.

Lemma writeDaemonState_mode_witness :
  exists f, daemon_json (snd (state.writeDaemonState
                                {| daemon_json := Some {| content := js "{}"; mode := 420 |};
                                   dir_writable := true |} example_state)) = Some f
            /\ content f = JSON.stringify (state.object_of example_state)
            /\ mode f = match daemon_json
                                {| daemon_json := Some {| content := js "{}"; mode := 420 |};
                                   dir_writable := true |} with
                        | Some old => mode old
                        | None => 384%N
                        end.
Proof.
  apply (writeDaemonState_mode
           {| daemon_json := Some {| content := js "{}"; mode := 420 |};
              dir_writable := true |} _ example_state).
  reflexivity.
Defined.

(** ** Values survive the wire *)

Lemma ends_number_cons (c : N) (rest : jsstring) :
  c = 44%N \/ c = 93%N \/ c = 125%N \/ c = 10%N -> ends_number (c :: rest).
Proof.
  intros H. simpl. destruct H as [-> | [-> | [-> | ->]]];
    (split; [reflexivity | split; [discriminate | split; discriminate]]).
Qed.

Lemma fold_define_nodup {A : Type} (o acc : list (jsstring * A)) :
  NoDup (map fst acc ++ map fst o) ->
  fold_left (fun out kv => define out (fst kv) (snd kv)) o acc = acc ++ o.
Proof.
  revert acc. induction o as [|[k v] r IH]; intros acc Hnd; cbn [fold_left].
  - rewrite app_nil_r. reflexivity.
  - cbn [fst snd]. rewrite lookup_define_fresh.
    + rewrite IH.
      * rewrite <- app_assoc. reflexivity.
      * rewrite map_app, <- app_assoc. exact Hnd.
    + apply NoDup_remove_2 in Hnd. intros Hin. apply Hnd.
      apply in_or_app. left. exact Hin.
Qed.

Lemma safe_integer_prints (z : Z) : (Z.abs z < 2 ^ 53)%Z -> (Z.abs z < 10 ^ 21)%Z.
Proof.
  intros H. assert (E : (2 ^ 53 < 10 ^ 21)%Z) by reflexivity. lia.
Qed.

(** The text of a value starts with a character that is no white
    space and closes nothing. *)
Lemma stringify_head (v : json) :
  plain v ->
  exists c r, JSON.stringify v = c :: r
              /\ JSON.is_ws c = false /\ c <> 93%N /\ c <> 125%N.
Proof.
  intros Hp. destruct Hp as [ | [|] | z Hz | s | l _ | o _ _ ]; cbn [JSON.stringify].
  - eexists. eexists. split; [reflexivity|]. repeat split; discriminate.
  - eexists. eexists. split; [reflexivity|]. repeat split; discriminate.
  - eexists. eexists. split; [reflexivity|]. repeat split; discriminate.
  - destruct (Number_toString_head z (safe_integer_prints z Hz)) as (c & r & -> & Hc).
    exists c, r. split; [reflexivity|].
    unfold JSON.is_ws.
    repeat match goal with
           | |- context [N.eqb c ?k] => destruct (N.eqb_spec c k); [exfalso; lia|]
           end.
    repeat split; lia.
  - eexists. eexists. split; [reflexivity|]. repeat split; discriminate.
  - eexists. eexists. split; [reflexivity|]. repeat split; discriminate.
  - eexists. eexists. split; [reflexivity|]. repeat split; discriminate.
Qed.

Lemma list_sum_cons {A : Type} (f : A -> nat) (x : A) (l : list A) :
  list_sum (map f (x :: l)) = (f x + list_sum (map f l))%nat.
Proof. reflexivity. Qed.

Lemma join_cons2 (p q : jsstring) (r : list jsstring) :
  JSON.join (p :: q :: r) = p ++ 44%N :: JSON.join (q :: r).
Proof. reflexivity. Qed.

Lemma skip_ws_head (c : N) (r : jsstring) :
  JSON.is_ws c = false -> JSON.skip_ws (c :: r) = c :: r.
Proof. intros H. cbn [JSON.skip_ws]. rewrite H. reflexivity. Qed.

Lemma parse_value_array (f : nat) (s : jsstring) (c : N) (r : jsstring) :
  s = c :: r -> JSON.is_ws c = false -> c <> 93%N ->
  JSON.parse_value (S f) (91%N :: s)
  = match JSON.parse_elements f s with
    | JSON.Ok vs rest => JSON.Ok (JArr vs) rest
    | JSON.Bad => JSON.Bad
    | JSON.NoFuel => JSON.NoFuel
    end.
Proof.
  intros -> Hws Hc. cbn [JSON.parse_value JSON.skip_ws].
  change (JSON.is_ws 91) with false. cbv iota.
  change (N.eqb 91 QUOTE) with false. change (N.eqb 91 91) with true. cbv iota.
  cbn [JSON.skip_ws]. rewrite Hws. apply N.eqb_neq in Hc. rewrite Hc. reflexivity.
Qed.

Section RoundTrip.

(** What the induction gives for the parts of a value. *)
Let survives (v : json) : Prop :=
  plain v ->
  forall fuel rest, (weight v <= fuel)%nat -> ends_number rest ->
    JSON.parse_value fuel (JSON.stringify v ++ rest) = JSON.Ok v rest.

Lemma elements_survive (l : list json) :
  Forall survives l -> Forall plain l -> l <> [] ->
  forall fuel rest,
    (list_sum (map (fun x => S (weight x)) l) <= fuel)%nat ->
    JSON.parse_elements fuel (JSON.join (map JSON.stringify l) ++ 93%N :: rest)
    = JSON.Ok l rest.
Proof.
  induction l as [|v l IH]; intros Hs Hp Hne fuel rest Hfuel; [congruence|].
  inversion Hs as [|? ? Hv Hl]; subst. inversion Hp as [|? ? Pv Pl]; subst.
  rewrite list_sum_cons in Hfuel.
  destruct fuel as [|f]; [lia|].
  destruct l as [|v' l'].
  - cbn [map JSON.join JSON.parse_elements].
    rewrite (Hv Pv f (93%N :: rest)) by (try lia; apply ends_number_cons; tauto).
    cbn [JSON.skip_ws]. change (JSON.is_ws 93) with false. cbv iota.
    change (N.eqb 93 44) with false. change (N.eqb 93 93) with true. reflexivity.
  - change (JSON.join (map JSON.stringify (v :: v' :: l')))
      with (JSON.stringify v ++ 44%N :: JSON.join (map JSON.stringify (v' :: l'))).
    rewrite <- app_assoc. cbn [app JSON.parse_elements].
    rewrite (Hv Pv f) by (try lia; apply ends_number_cons; tauto).
    cbn [JSON.skip_ws]. change (JSON.is_ws 44) with false. cbv iota.
    change (N.eqb 44 44) with true. cbv iota.
    rewrite (IH Hl Pl) by (try discriminate; lia). reflexivity.
Qed.

Lemma members_survive (o : list (jsstring * json)) :
  Forall (fun kv => survives (snd kv)) o -> Forall (fun kv => plain (snd kv)) o ->
  o <> [] ->
  forall fuel rest,
    (list_sum (map (fun kv => S (weight (snd kv))) o) <= fuel)%nat ->
    JSON.parse_members fuel (JSON.join (map member o) ++ 125%N :: rest) = JSON.Ok o rest.
Proof.
  induction o as [|[k v] o IH]; intros Hs Hp Hne fuel rest Hfuel; [congruence|].
  inversion Hs as [|? ? Hv Hl]; subst. inversion Hp as [|? ? Pv Pl]; subst.
  cbn [snd] in Hv, Pv. rewrite list_sum_cons in Hfuel; cbn [snd] in Hfuel.
  destruct fuel as [|f]; [lia|].
  destruct o as [|kv' o'].
  - cbn [map JSON.join]. unfold member. cbn [fst snd].
    rewrite <- app_assoc. cbn [app].
    apply parse_members_last.
    apply (Hv Pv f); [lia|]. apply ends_number_cons; tauto.
  - change (JSON.join (map member ((k, v) :: kv' :: o')))
      with (member (k, v) ++ 44%N :: JSON.join (map member (kv' :: o'))).
    unfold member at 1. cbn [fst snd]. rewrite <- !app_assoc. cbn [app].
    rewrite parse_members_more with (v := v).
    + rewrite (IH Hl Pl) by (try discriminate; lia). reflexivity.
    + apply (Hv Pv f); [lia|]. apply ends_number_cons; tauto.
Qed.

Lemma values_survive (v : json) : survives v.
Proof.
  induction v as [ | b | n | s | l IHl | o IHo ] using json_induction;
    intros Hp fuel rest Hfuel Hrest.
  - destruct fuel as [|f]; [simpl in Hfuel; lia|]. reflexivity.
  - destruct fuel as [|f]; [simpl in Hfuel; lia|]. destruct b; reflexivity.
  - destruct fuel as [|f]; [simpl in Hfuel; lia|].
    inversion Hp as [ | | z Hz | | | ]; subst.
    apply parse_value_integer; [apply safe_integer_prints; exact Hz|exact Hrest].
  - destruct fuel as [|f]; [simpl in Hfuel; lia|]. apply parse_value_quoted.
  - inversion Hp as [ | | | | l' Pl | ]; subst.
    cbn [weight] in Hfuel. destruct fuel as [|f]; [lia|].
    destruct l as [|x l'].
    + reflexivity.
    + cbn [JSON.stringify app]. rewrite <- app_assoc. cbn [app].
      assert (Px : plain x) by (inversion Pl; assumption).
      destruct (stringify_head x Px) as (c & r & Hhead & Hws & Hc & _).
      assert (Hshape : exists r', JSON.join (map JSON.stringify (x :: l')) ++ 93%N :: rest
                                  = c :: r').
      { destruct l' as [|y l'']; cbn [map JSON.join]; rewrite Hhead;
          eexists; reflexivity. }
      destruct Hshape as [r' Hshape].
      rewrite (parse_value_array f _ c r' Hshape Hws Hc).
      rewrite (elements_survive (x :: l') IHl Pl) by (try discriminate; lia).
      reflexivity.
  - inversion Hp as [ | | | | | o' Hnd Po ]; subst.
    cbn [weight] in Hfuel. destruct fuel as [|f]; [lia|].
    destruct o as [|[k x] o'].
    + reflexivity.
    + cbn [JSON.stringify app]. rewrite <- app_assoc. cbn [app].
      change (map (fun kv => JSON.quote (fst kv) ++ 58%N :: JSON.stringify (snd kv)))
        with (map member).
      assert (Hshape : exists more, JSON.join (map member ((k, x) :: o')) ++ 125%N :: rest
                                    = JSON.quote k ++ more).
      { destruct o' as [|y o''].
        - cbn [map JSON.join]. unfold member. cbn [fst snd].
          rewrite <- app_assoc. eexists. reflexivity.
        - change (map member ((k, x) :: y :: o''))
            with (member (k, x) :: member y :: map member o'').
          rewrite join_cons2. unfold member at 1. cbn [fst snd].
          rewrite <- !app_assoc. eexists. reflexivity. }
      destruct Hshape as [more Hshape].
      pose proof (members_survive ((k, x) :: o') IHo Po ltac:(discriminate) f rest
                    ltac:(lia)) as Hm.
      rewrite Hshape in *. rewrite parse_value_object, Hm.
      rewrite (fold_define_nodup ((k, x) :: o') []) by exact Hnd. reflexivity.
Qed.

End RoundTrip.

Lemma join_length (parts : list jsstring) :
  (list_sum (map (fun p => S (length p)) parts) <= S (length (JSON.join parts)))%nat.
Proof.
  induction parts as [|p r IH]; [simpl; lia|].
  destruct r as [|q r'].
  - simpl. lia.
  - change (JSON.join (p :: q :: r')) with (p ++ 44%N :: JSON.join (q :: r')).
    rewrite !list_sum_cons in *. rewrite length_app. cbn [length]. lia.
Qed.

Lemma list_sum_le {A : Type} (f g : A -> nat) (l : list A) :
  Forall (fun x => (f x <= g x)%nat) l ->
  (list_sum (map f l) <= list_sum (map g l))%nat.
Proof. induction 1; simpl; lia. Qed.

Lemma digits_nonempty (n : N) : (1 <= length (digits_of_N n))%nat.
Proof.
  unfold digits_of_N. destruct (to_uint_well_formed n) as [Hnil _].
  destruct (N.to_uint n); try discriminate; cbn [chars_of_uint length]; lia.
Qed.

Lemma weight_length (v : json) : (weight v <= length (JSON.stringify v))%nat.
Proof.
  induction v as [ | b | n | s | l IHl | o IHo ] using json_induction.
  - simpl. lia.
  - destruct b; simpl; lia.
  - cbn [weight JSON.stringify]. destruct n as [z|m e]; unfold Number_toString.
    + pose proof (digits_nonempty (Z.abs_N z)) as Hd.
      rewrite length_app. destruct (Z.abs z <? 10 ^ 21)%Z; [lia|].
      unfold exponent_form. rewrite !length_app.
      cbn [js list_ascii_of_string map length]. lia.
    + pose proof (digits_nonempty (Z.abs_N m)) as Hd.
      rewrite length_app.
      repeat match goal with
             | |- context [if ?b then _ else _] => destruct b
             end;
        rewrite ?length_app; unfold exponent_form; rewrite ?length_app;
        cbn [js list_ascii_of_string map length]; lia.
  - simpl. lia.
  - cbn [weight JSON.stringify length]. rewrite length_app. cbn [length].
    pose proof (join_length (map JSON.stringify l)) as Hj.
    rewrite map_map in Hj.
    pose proof (list_sum_le (fun x => S (weight x)) (fun x => S (length (JSON.stringify x)))
                  l) as Hle.
    assert (Hall : Forall (fun x => (S (weight x) <= S (length (JSON.stringify x)))%nat) l).
    { eapply Forall_impl; [|exact IHl]. intros x Hx. simpl in Hx. lia. }
    specialize (Hle Hall). lia.
  - cbn [weight JSON.stringify length]. rewrite length_app. cbn [length].
    pose proof (join_length
                  (map (fun kv => JSON.quote (fst kv) ++ 58%N :: JSON.stringify (snd kv)) o))
      as Hj.
    rewrite map_map in Hj.
    pose proof (list_sum_le (fun kv : jsstring * json => S (weight (snd kv)))
                  (fun kv => S (length (JSON.quote (fst kv) ++ 58%N
                                          :: JSON.stringify (snd kv)))) o) as Hle.
    assert (Hall : Forall (fun kv : jsstring * json =>
                     (S (weight (snd kv))
                      <= S (length (JSON.quote (fst kv) ++ 58%N
                                      :: JSON.stringify (snd kv))))%nat) o).
    { eapply Forall_impl; [|exact IHo]. intros kv Hx. cbn beta in Hx.
      rewrite length_app. cbn [length]. lia. }
    specialize (Hle Hall). lia.
Qed.

(** [JSON.parse] reads back what [JSON.stringify] wrote. *)
Lemma parse_stringify (v : json) :
  plain v -> JSON.parse (JSON.stringify v) = Return v.
Proof.
  intros Hp. unfold JSON.parse.
  pose proof (values_survive v Hp (2 * length (JSON.stringify v) + 1) [] ) as H.
  rewrite app_nil_r in H. rewrite H.
  - reflexivity.
  - pose proof (weight_length v). lia.
  - exact I.
Qed.

(** ** What the client writes, the daemon reads *)

Lemma literal_request (id method : jsstring) (token : option jsstring)
    (params : option json) :
  plain_or_undefined params ->
  plain (request_of id token method params).
Proof.
  intros Hp. unfold request_of.
  destruct params as [v|], token as [t|]; cbn [literal option_map];
    (apply plain_obj;
     [ cbn [map fst]; repeat constructor; simpl; intuition discriminate
     | repeat constructor; exact Hp ]).
Qed.

Lemma request_of_fields (id method : jsstring) (token : option jsstring)
    (params : option json) :
  daemon.id (request_of id token method params) = Some (JStr id)
  /\ daemon.method (request_of id token method params) = Some (JStr method)
  /\ daemon.params (request_of id token method params) = params
  /\ daemon.token (request_of id token method params) = option_map JStr token.
Proof.
  destruct params as [v|], token as [t|]; repeat split; reflexivity.
Qed.

(** X11. The line that a call of the proxy writes is one line, and the
    daemon reads it as the request that the call made: same id, same
    method, same parameters, same token; a parameter object that is
    [undefined] is left out of the line and is absent from the request. *)
Theorem the_daemon_reads_the_request_that_was_written
    (id method : jsstring) (token : option jsstring) (params : option json) :
  plain_or_undefined params ->
  exists line req,
    ipc.request_line id (option_map JStr token) method params = line ++ [LF]
    /\ request_line line req
    /\ daemon.id req = Some (JStr id)
    /\ daemon.method req = Some (JStr method)
    /\ daemon.params req = params
    /\ daemon.token req = option_map JStr token.
Proof.
  intros Hp. pose proof (literal_request id method token params Hp) as Hplain.
  exists (JSON.stringify (request_of id token method params)),
         (request_of id token method params).
  split; [reflexivity|]. split; [|apply request_of_fields].
  split; [|split].
  - apply one_line_not_In. apply stringify_one_line.
  - apply parse_stringify. exact Hplain.
  - discriminate.
Qed.

Lemma the_daemon_reads_the_request_that_was_written_witness :
  exists line req,
    ipc.request_line (js "k3x") (option_map JStr (Some example_secret)) (js "sendMessage")
      (Some (JObj [(js "chatId", JStr (js "1@c.us")); (js "text", JStr (js "hi"))]))
    = line ++ [LF]
    /\ request_line line req
    /\ daemon.id req = Some (JStr (js "k3x"))
    /\ daemon.method req = Some (JStr (js "sendMessage"))
    /\ daemon.params req
       = Some (JObj [(js "chatId", JStr (js "1@c.us")); (js "text", JStr (js "hi"))])
    /\ daemon.token req = option_map JStr (Some example_secret).
Proof.
  apply (the_daemon_reads_the_request_that_was_written (js "k3x") (js "sendMessage")
           (Some example_secret)
           (Some (JObj [(js "chatId", JStr (js "1@c.us")); (js "text", JStr (js "hi"))]))).
  apply plain_obj.
  - repeat constructor; simpl; intuition discriminate.
  - repeat constructor.
Defined.

(** ** What the daemon writes, the client reads *)

Lemma response_plain (r : daemon.RpcResponse) :
  plain_or_undefined (daemon.response_id r) ->
  match r with
  | daemon.Result _ v => plain_or_undefined v
  | daemon.Error _ _ => True
  end ->
  plain (daemon.object_of r).
Proof.
  destruct r as [[i|] [v|] | [i|] e]; intros Hi H; cbn [daemon.object_of literal];
    apply plain_obj;
    try (cbn [map fst]; repeat constructor; simpl; intuition discriminate);
    repeat constructor; try exact H; try exact Hi.
Qed.

Lemma answers_response (id : jsstring) (r : daemon.RpcResponse) :
  plain (daemon.object_of r) ->
  ipc.answers id (JSON.stringify (daemon.object_of r))
  = match daemon.response_id r with
    | Some (JStr i) => if jsstring_eqb i id then Some (daemon.object_of r) else None
    | _ => None
    end.
Proof.
  intros Hp. unfold ipc.answers.
  pose proof (parse_stringify _ Hp) as Hparse.
  rewrite (parse_not_blank _ _ Hparse), Hparse.
  destruct r as [[i|] [v|] | [i|] e]; reflexivity.
Qed.

Lemma scan_line (id text : jsstring) :
  one_line text -> ipc.scan id [] [text ++ [LF]] = ipc.answers id text.
Proof.
  intros H. cbn [ipc.scan app].
  rewrite split_nl_line by (apply one_line_not_In; exact H).
  cbn [split_nl pop find]. destruct (ipc.answers id text) eqn:E; [exact E|reflexivity].
Qed.

Section Settled.

Variable h : host.

Lemma settle_response (r : daemon.RpcResponse) :
  ipc.settle h (daemon.object_of r)
  = Settled match r with
            | daemon.Result _ v => Return (ipc.reviveDates h (value_of v))
            | daemon.Error _ e =>
                if is_empty e then Return VUndefined else Throw (new_Error e)
            end.
Proof.
  destruct r as [[i|] [v|] | [i|] e]; try reflexivity;
    unfold ipc.settle; cbn [daemon.object_of literal get lookup];
    change (jsstring_eqb (js "error") (js "id")) with false;
    change (jsstring_eqb (js "error") (js "error")) with true;
    change (jsstring_eqb (js "result") (js "id")) with false;
    change (jsstring_eqb (js "result") (js "error")) with false;
    cbv iota; cbn [truthy ToString]; destruct (is_empty e); reflexivity.
Qed.

End Settled.

(** ** One request, served *)

Ltac crunch :=
  cbn [daemon.log daemon.set_buf daemon.set_pending daemon.set_immediates
       loopback.accept daemon.exit_code daemon.destroyed daemon.set_destroyed
       daemon.journal daemon.pending daemon.status daemon.immediates].

Section Served.

Variable SECRET_TOKEN : jsstring.
Variable array_token : json -> completion exn bool.
Variable session : daemon.session_call -> completion exn (option json).

Lemma handleRequest_prompt (req : daemon.RpcRequest) :
  prompt (daemon.handleRequest SECRET_TOKEN array_token req).
Proof.
  assert (Hnull : req = JNull \/ req <> JNull)
    by (destruct req; (left; reflexivity) || (right; discriminate)).
  destruct Hnull as [-> | Hreq]; [apply prompt_ret|].
  rewrite handleRequest_not_null by exact Hreq.
  destruct (daemon.token req) as [t|]; [|apply prompt_ret].
  destruct (negb (truthy (Some t))); [apply prompt_ret|].
  destruct (daemon.token_matches SECRET_TOKEN array_token t) as [[|]|e];
    try apply prompt_ret.
  unfold daemon.dispatch.
  destruct (daemon.method req) as [[|b|n|m|l|o]|];
    try (unfold daemon.unknown; destruct (String_of _); apply prompt_ret).
  repeat match goal with
         | |- context [if jsstring_eqb m ?x then _ else _] =>
             destruct (jsstring_eqb m x)
         end;
    first [ apply prompt_ret
          | apply prompt_immediate
          | apply prompt_status; intros st; eexists; reflexivity
          | unfold daemon.awaiting; apply prompt_await;
            intros [v|err]; eexists; reflexivity ].
Qed.

Lemma calls_app (a b : list daemon.action) :
  proxy.calls (a ++ b) = proxy.calls a ++ proxy.calls b.
Proof.
  induction a as [|x a IH]; [reflexivity|].
  destruct x; simpl; rewrite IH; reflexivity.
Qed.

Lemma skipn_exact {A : Type} (a b : list A) : skipn (length a) (a ++ b) = b.
Proof. induction a as [|x a IH]; [reflexivity|exact IH]. Qed.

Lemma nth_error_last {A : Type} (l : list A) (x : A) :
  nth_error (l ++ [x]) (length l) = Some x.
Proof. induction l as [|y l IH]; [reflexivity|exact IH]. Qed.

Lemma remove_nth_last {A : Type} (l : list A) (x : A) :
  daemon.remove_nth (length l) (l ++ [x]) = l.
Proof. induction l as [|y l IH]; [reflexivity|]. simpl. rewrite IH. reflexivity. Qed.

(** What serving one request does to the daemon. *)
Lemma serve_spec (p : daemon.process) (line : jsstring) (req : daemon.RpcRequest) :
  daemon.exit_code p = None ->
  request_line line req ->
  let q := proxy.serve SECRET_TOKEN array_token session p (line ++ [LF]) in
  let P := daemon.handleRequest SECRET_TOKEN array_token req in
  daemon.written (daemon.journal q)
  = daemon.written (daemon.journal p)
    ++ [daemon.line_of (daemon.reply req (proxy.eval session (daemon.status p) P))]
  /\ proxy.calls (daemon.journal q)
     = proxy.calls (daemon.journal p) ++ proxy.invoked session (daemon.status p) P
  /\ daemon.handled (daemon.journal q) = daemon.handled (daemon.journal p) ++ [req]
  /\ daemon.immediates q
     = daemon.immediates p ++ proxy.scheduled session (daemon.status p) P
  /\ daemon.pending q = daemon.pending p
  /\ daemon.status q = daemon.status p
  /\ vitals q = vitals p.
Proof.
  intros Hrun (Hnl & Hparse & Hreq) q P.
  pose proof (handleRequest_prompt req) as Hprompt. fold P in Hprompt.
  unfold proxy.serve in q. cbv zeta in q.
  assert (Hstep : daemon.step SECRET_TOKEN array_token (loopback.accept p) (daemon.Data (line ++ [LF]))
                  = match daemon.run req P
                            (daemon.log [daemon.Handle req]
                               (daemon.set_buf [] (loopback.accept p))) with
                    | (s', Some c) => daemon.respond req c s'
                    | (s', None) => s'
                    end).
  { unfold daemon.step. cbn [loopback.accept daemon.exit_code daemon.destroyed].
    rewrite Hrun. apply (on_data_line SECRET_TOKEN array_token _ line req); try assumption.
    reflexivity. }
  destruct Hprompt as [c | k Hk | t c | call k Hk].
  - eassert (Hq : q = _).
    { subst q. rewrite Hstep. cbn [daemon.run]. rewrite respond_not_null by exact Hreq. crunch.
      rewrite <- !app_assoc, skipn_exact. cbn [app proxy.calls fold_left].
      unfold daemon.step. crunch. rewrite Hrun. reflexivity. }
    clearbody q. subst q. cbn [proxy.eval proxy.invoked proxy.scheduled]. crunch.
    rewrite !written_app, !handled_app, !calls_app.
    cbn [daemon.written daemon.handled proxy.calls]. rewrite !app_nil_r.
    repeat split.
  - destruct (Hk (daemon.status p)) as [c Hc].
    eassert (Hq : q = _).
    { subst q. rewrite Hstep. cbn [daemon.run]. crunch. rewrite Hc.
      cbn [daemon.run]. rewrite respond_not_null by exact Hreq. crunch.
      rewrite <- !app_assoc, skipn_exact. cbn [app proxy.calls fold_left].
      unfold daemon.step. crunch. rewrite Hrun. reflexivity. }
    clearbody q. subst q. cbn [proxy.eval proxy.invoked proxy.scheduled]. rewrite Hc.
    cbn [proxy.eval proxy.invoked proxy.scheduled]. crunch.
    rewrite !written_app, !handled_app, !calls_app.
    cbn [daemon.written daemon.handled proxy.calls]. rewrite !app_nil_r.
    repeat split.
  - eassert (Hq : q = _).
    { subst q. rewrite Hstep. cbn [daemon.run]. rewrite respond_not_null by exact Hreq. crunch.
      rewrite <- !app_assoc, skipn_exact. cbn [app proxy.calls fold_left].
      unfold daemon.step. crunch. rewrite Hrun. reflexivity. }
    clearbody q. subst q. cbn [proxy.eval proxy.invoked proxy.scheduled]. crunch.
    rewrite !written_app, !handled_app, !calls_app.
    cbn [daemon.written daemon.handled proxy.calls]. rewrite !app_nil_r.
    repeat split.
  - destruct (Hk (session call)) as [c Hc].
    eassert (Hq : q = _).
    { subst q. rewrite Hstep. cbn [daemon.run]. crunch.
      rewrite <- !app_assoc, skipn_exact. cbn [app proxy.calls fold_left].
      unfold daemon.step. crunch.
      rewrite Hrun, nth_error_last, remove_nth_last, Hc.
      cbn [daemon.run]. rewrite respond_not_null by exact Hreq. crunch. rewrite Hrun. reflexivity. }
    clearbody q. subst q. cbn [proxy.eval proxy.invoked proxy.scheduled]. rewrite Hc.
    cbn [proxy.eval proxy.invoked proxy.scheduled]. crunch.
    rewrite !written_app, !handled_app, !calls_app.
    cbn [daemon.written daemon.handled proxy.calls app]. rewrite !app_nil_r.
    repeat split.
Qed.

End Served.

(** ** A call of the proxy returns what the handler answers *)

Lemma request_line_read (id method : jsstring) (token : option jsstring)
    (params : option json) :
  plain_or_undefined params ->
  request_line
    (JSON.stringify
       (JObj (literal [(js "id", Some (JStr id)); (js "method", Some (JStr method));
                       (js "params", params); (js "token", option_map JStr token)])))
    (request_of id token method params).
Proof.
  intros Hp. pose proof (literal_request id method token params Hp) as Hplain.
  split; [|split].
  - apply one_line_not_In. apply stringify_one_line.
  - apply parse_stringify. exact Hplain.
  - discriminate.
Qed.

Section Transparent.

Variable h : host.
Variable SECRET_TOKEN : jsstring.
Variable array_token : json -> completion exn bool.
Variable session : daemon.session_call -> completion exn (option json).
Hypothesis session_plain : plain_session session.

Lemma reply_id (req : daemon.RpcRequest) (st : jsstring)
    (P : daemon.prog daemon.RpcResponse) :
  answering (daemon.id req) P ->
  daemon.response_id (daemon.reply req (proxy.eval session st P)) = daemon.id req.
Proof.
  induction 1 as [r Hr | e | call k Hk IH | t k Hk IH | k Hk IH]; cbn [proxy.eval].
  - exact Hr.
  - reflexivity.
  - apply IH.
  - exact IH.
  - apply IH.
Qed.

Lemma answer_plain (req : daemon.RpcRequest) (st : jsstring) :
  plain_or_undefined (daemon.id req) ->
  plain (daemon.object_of
           (daemon.reply req
              (proxy.eval session st (daemon.handleRequest SECRET_TOKEN array_token req)))).
Proof.
  intros Hid.
  assert (Herror : forall m, plain (daemon.object_of (daemon.Error (daemon.id req) m)))
    by (intros m; apply response_plain; [exact Hid|exact I]).
  assert (Hnull : req = JNull \/ req <> JNull)
    by (destruct req; (left; reflexivity) || (right; discriminate)).
  destruct Hnull as [-> | Hreq]; [apply Herror|].
  rewrite handleRequest_not_null by exact Hreq.
  destruct (daemon.token req) as [t|]; [|apply Herror].
  destruct (negb (truthy (Some t))); [apply Herror|].
  destruct (daemon.token_matches SECRET_TOKEN array_token t) as [[|]|e];
    try apply Herror.
  unfold daemon.dispatch.
  destruct (daemon.method req) as [[|b|n|m|l|o]|];
    try (unfold daemon.unknown; destruct (String_of _); apply Herror).
  repeat match goal with
         | |- context [if jsstring_eqb m ?x then _ else _] =>
             destruct (jsstring_eqb m x)
         end;
    try apply Herror;
    unfold daemon.awaiting; cbn [proxy.eval];
    try match goal with
        | |- context [session ?c] =>
            let E := fresh "E" in
            destruct (session c) as [[v|]|err] eqn:E;
            [pose proof (session_plain _ _ E)| |]
        end;
    cbn [daemon.reply]; try apply Herror;
    (apply response_plain; [exact Hid|]);
    cbn [plain_or_undefined daemon.nullish_or];
    try exact I; try apply plain_str; try apply plain_null; try assumption.
  destruct v; try apply plain_null; assumption.
Qed.

Lemma callPort_answered
    (p : daemon.process) (net : option json -> ipc.endpoint)
    (id method : jsstring) (port : option json) (token : option jsstring)
    (params : option json) (timeoutMs : Z) :
  daemon.exit_code p = None ->
  net port = proxy.peer SECRET_TOKEN array_token session p ->
  plain_or_undefined params ->
  let req := request_of id token method params in
  let request := ipc.request_line id (option_map JStr token) method params in
  let handler := daemon.handleRequest SECRET_TOKEN array_token req in
  plain (daemon.object_of
           (daemon.reply req (proxy.eval session (daemon.status p) handler))) ->
  ipc.callPort h net id port (option_map JStr token) method params timeoutMs
  = ([request],
     Settled
       match daemon.reply req (proxy.eval session (daemon.status p) handler) with
       | daemon.Result _ v => Return (ipc.reviveDates h (value_of v))
       | daemon.Error _ e => if is_empty e then Return VUndefined else Throw (new_Error e)
       end).
Proof.
  intros Hrun Hnet Hparams req request handler Hplain.
  pose proof (request_line_read id method token params Hparams) as Hline.
  destruct (serve_spec SECRET_TOKEN array_token session p _ req Hrun Hline)
    as (Hw & _).
  fold handler in Hw.
  unfold ipc.callPort. rewrite Hnet. unfold proxy.peer.
  fold request. unfold request at 2, ipc.request_line. rewrite Hw, skipn_exact.
  unfold daemon.line_of. rewrite scan_line by apply stringify_one_line.
  rewrite answers_response by exact Hplain.
  rewrite (reply_id req (daemon.status p) handler)
    by apply handleRequest_answering.
  replace (daemon.id req) with (Some (JStr id))
    by (symmetry; apply (request_of_fields id method token params)).
  rewrite jsstring_eqb_refl, settle_response. reflexivity.
Qed.

Lemma callPort_served
    (p : daemon.process) (net : option json -> ipc.endpoint)
    (id method : jsstring) (port : option json) (token : option jsstring)
    (params : option json) (timeoutMs : Z) :
  daemon.exit_code p = None ->
  net port = proxy.peer SECRET_TOKEN array_token session p ->
  plain_or_undefined params ->
  let req := request_of id token method params in
  let request := ipc.request_line id (option_map JStr token) method params in
  let handler := daemon.handleRequest SECRET_TOKEN array_token req in
  ipc.callPort h net id port (option_map JStr token) method params timeoutMs
  = ([request],
     Settled
       match daemon.reply req (proxy.eval session (daemon.status p) handler) with
       | daemon.Result _ v => Return (ipc.reviveDates h (value_of v))
       | daemon.Error _ e => if is_empty e then Return VUndefined else Throw (new_Error e)
       end)
  /\ proxy.calls (daemon.journal (proxy.serve SECRET_TOKEN array_token session p request))
     = proxy.calls (daemon.journal p)
       ++ proxy.invoked session (daemon.status p) handler.
Proof.
  intros Hrun Hnet Hparams req request handler. split.
  - apply callPort_answered; try assumption. apply answer_plain.
    replace (daemon.id req) with (Some (JStr id))
      by (symmetry; apply (request_of_fields id method token params)).
    apply plain_str.
  - pose proof (request_line_read id method token params Hparams) as Hline.
    destruct (serve_spec SECRET_TOKEN array_token session p _ req Hrun Hline) as (_ & Hc & _).
    exact Hc.
Qed.

(** X12. A call of the proxy to a daemon that serves returns what the
    handler of the daemon answers: the result, with its dates revived,
    or the error as an [Error] with the same message; and the Session
    of the daemon is invoked as the handler invokes it. An error whose
    message is empty arrives as a success without a value. *)
Theorem a_call_returns_what_the_handler_answers
    (p : daemon.process) (net : option json -> ipc.endpoint)
    (id method : jsstring) (port : option json) (token : option jsstring)
    (params : option json) (timeoutMs : Z) :
  daemon.exit_code p = None ->
  net port = proxy.peer SECRET_TOKEN array_token session p ->
  plain_or_undefined params ->
  let req := request_of id token method params in
  let request := ipc.request_line id (option_map JStr token) method params in
  let handler := daemon.handleRequest SECRET_TOKEN array_token req in
  ipc.callPort h net id port (option_map JStr token) method params timeoutMs
  = ([request],
     Settled
       match daemon.reply req (proxy.eval session (daemon.status p) handler) with
       | daemon.Result _ v => Return (ipc.reviveDates h (value_of v))
       | daemon.Error _ e => if is_empty e then Return VUndefined else Throw (new_Error e)
       end)
  /\ proxy.calls (daemon.journal (proxy.serve SECRET_TOKEN array_token session p request))
     = proxy.calls (daemon.journal p)
       ++ proxy.invoked session (daemon.status p) handler.
Proof. exact (callPort_served p net id method port token params timeoutMs). Qed.

End Transparent.

Lemma example_session_plain : plain_session example_session.
Proof.
  intros call v H. injection H as <-. apply plain_arr. constructor.
Qed.

Lemma a_call_returns_what_the_handler_answers_witness :
  let req := request_of (js "k3x") (Some example_secret) (js "getThreads") None in
  let request :=
    ipc.request_line (js "k3x") (option_map JStr (Some example_secret)) (js "getThreads")
      None in
  let handler := daemon.handleRequest example_secret no_array_token req in
  ipc.callPort utc_host
    (fun _ => proxy.peer example_secret no_array_token example_session example_daemon)
    (js "k3x") (Some (JNum (NInt 50123))) (option_map JStr (Some example_secret))
    (js "getThreads") None 60000
  = ([request],
     Settled
       match daemon.reply req
               (proxy.eval example_session (daemon.status example_daemon) handler) with
       | daemon.Result _ v => Return (ipc.reviveDates utc_host (value_of v))
       | daemon.Error _ e => if is_empty e then Return VUndefined else Throw (new_Error e)
       end)
  /\ proxy.calls (daemon.journal
                    (proxy.serve example_secret no_array_token example_session
                       example_daemon request))
     = proxy.calls (daemon.journal example_daemon)
       ++ proxy.invoked example_session (daemon.status example_daemon) handler.
Proof.
  apply (a_call_returns_what_the_handler_answers utc_host example_secret no_array_token
           example_session).
  - intros call v H. injection H as <-. apply plain_arr. constructor.
  - reflexivity.
  - reflexivity.
  - exact I.
Defined.

(** ** The methods of the proxy *)

Section Methods.

Variable h : host.
Variable SECRET_TOKEN : jsstring.
Variable array_token : json -> completion exn bool.
Variable session : daemon.session_call -> completion exn (option json).
Variable p : daemon.process.
Variable net : option json -> ipc.endpoint.
Variable c : ipc.IpcClient.

Hypothesis session_plain : plain_session session.
Hypothesis secret_not_empty : SECRET_TOKEN <> [].
Hypothesis running : daemon.exit_code p = None.
Hypothesis connected : net (ipc.port c) = proxy.peer SECRET_TOKEN array_token session p.
Hypothesis token_known : ipc.token c = Some (JStr SECRET_TOKEN).

Lemma authenticated (id method : jsstring) (params : option json) :
  daemon.handleRequest SECRET_TOKEN array_token
    (request_of id (Some SECRET_TOKEN) method params)
  = daemon.dispatch (request_of id (Some SECRET_TOKEN) method params).
Proof.
  apply handleRequest_authenticated; [exact secret_not_empty|].
  apply (request_of_fields id method (Some SECRET_TOKEN) params).
Qed.

Lemma rpc_spec (id method : jsstring) (params : option json) (timeoutMs : option Z) :
  plain_or_undefined params ->
  let req := request_of id (Some SECRET_TOKEN) method params in
  let request := ipc.request_line id (Some (JStr SECRET_TOKEN)) method params in
  ipc.rpc h net c id method params timeoutMs
  = ([request],
     Settled
       match daemon.reply req
               (proxy.eval session (daemon.status p) (daemon.dispatch req)) with
       | daemon.Result _ v => Return (ipc.reviveDates h (value_of v))
       | daemon.Error _ e => if is_empty e then Return VUndefined else Throw (new_Error e)
       end)
  /\ proxy.calls (daemon.journal (proxy.serve SECRET_TOKEN array_token session p request))
     = proxy.calls (daemon.journal p)
       ++ proxy.invoked session (daemon.status p) (daemon.dispatch req).
Proof.
  intros Hp req request. unfold ipc.rpc. rewrite token_known.
  pose proof (callPort_served h SECRET_TOKEN array_token session session_plain
                p net id method (ipc.port c) (Some SECRET_TOKEN) params
                (match timeoutMs with Some t => t | None => 30000%Z end)
                running connected Hp) as H.
  cbv zeta in H. rewrite authenticated in H. exact H.
Qed.

End Methods.

Section Relay.

Variable h : host.
Variable SECRET_TOKEN : jsstring.
Variable array_token : json -> completion exn bool.
Variable session : daemon.session_call -> completion exn (option json).
Variable p : daemon.process.
Variable net : option json -> ipc.endpoint.
Variable c : ipc.IpcClient.

Hypothesis session_plain : plain_session session.
Hypothesis secret_not_empty : SECRET_TOKEN <> [].
Hypothesis running : daemon.exit_code p = None.
Hypothesis connected : net (ipc.port c) = proxy.peer SECRET_TOKEN array_token session p.
Hypothesis token_known : ipc.token c = Some (JStr SECRET_TOKEN).

(** X13. [sendMessage] of the proxy makes the Session of the daemon send
    that text to that chat, once, and nothing else; it resolves when
    the Session succeeds, and rejects with the message of the Session's
    error when it fails (an error with an empty message apart, which
    reads as success). *)
Theorem sendMessage_is_relayed (id chatId text : jsstring) :
  let call := daemon.sendMessage (Some (JStr chatId)) (Some (JStr text)) in
  let sent := ipc.sendMessage h net c id (JStr chatId) (JStr text) in
  snd sent = Settled (relayed (fun _ => Return VUndefined) (session call))
  /\ proxy.calls (daemon.journal
                    (fold_left (proxy.serve SECRET_TOKEN array_token session) (fst sent) p))
     = proxy.calls (daemon.journal p) ++ [call].
Proof.
  intros call sent. subst sent. unfold ipc.sendMessage, ipc.discard.
  destruct (rpc_spec h SECRET_TOKEN array_token session p net c session_plain secret_not_empty
              running connected token_known id (js "sendMessage")
              (Some (JObj [(js "chatId", JStr chatId); (js "text", JStr text)])) None)
    as [Hr Hc].
  { apply plain_obj; [repeat constructor; simpl; intuition discriminate
                     |repeat constructor]. }
  rewrite Hr. cbn [fst snd fold_left]. rewrite Hc.
  change (daemon.dispatch _)
    with (daemon.awaiting (Some (JStr id)) call (fun _ => Some JNull)).
  unfold daemon.awaiting. cbn [proxy.eval proxy.invoked].
  split.
  - unfold relayed. destruct (session call) as [v|err]; cbn [proxy.eval daemon.reply].
    + reflexivity.
    + destruct (is_empty (message_or_string err)); reflexivity.
  - destruct (session call); reflexivity.
Qed.


End Relay.

(** ** Threads by recency *)

Section Sorting.

Variable A : Type.
Variable key : A -> Z.

Let cmp (a b : A) : Z := (key b - key a)%Z.

Lemma sorted_insert_permutation (x : A) (l : list A) :
  Permutation (sorted_insert cmp x l) (x :: l).
Proof.
  induction l as [|y r IH]; cbn [sorted_insert]; [apply Permutation_refl|].
  destruct (cmp x y <=? 0)%Z; [apply Permutation_refl|].
  apply perm_trans with (y :: x :: r); [apply perm_skip; exact IH|apply perm_swap].
Qed.

Lemma sorted_insert_sorted (x : A) (l : list A) :
  StronglySorted (fun a b => (key b <= key a)%Z) l ->
  StronglySorted (fun a b => (key b <= key a)%Z) (sorted_insert cmp x l).
Proof.
  induction 1 as [|y r Hr IH Hy]; cbn [sorted_insert].
  - constructor; constructor.
  - unfold cmp at 1. destruct (Z.leb_spec (key y - key x) 0) as [Hle|Hgt].
    + constructor; [constructor; assumption|].
      constructor; [lia|]. rewrite Forall_forall in *. intros z Hz.
      specialize (Hy z Hz). lia.
    + constructor; [exact IH|].
      rewrite Forall_forall in *. intros z Hz.
      apply (Permutation_in _ (sorted_insert_permutation x r)) in Hz.
      destruct Hz as [<-|Hz]; [lia|apply Hy; exact Hz].
Qed.

Lemma sorted_insert_stable (t : Z) (x : A) (l : list A) :
  StronglySorted (fun a b => (key b <= key a)%Z) l ->
  filter (fun a => (key a =? t)%Z) (sorted_insert cmp x l)
  = filter (fun a => (key a =? t)%Z) (x :: l).
Proof.
  induction 1 as [|y r Hr IH Hy]; cbn [sorted_insert]; [reflexivity|].
  unfold cmp at 1. destruct (Z.leb_spec (key y - key x) 0) as [Hle|Hgt]; [reflexivity|].
  cbn [filter] in *. rewrite IH.
  destruct (Z.eqb_spec (key x) t) as [Hx|Hx], (Z.eqb_spec (key y) t) as [Hy'|Hy'];
    try reflexivity.
  lia.
Qed.

Lemma Array_sort_spec (l : list A) :
  Permutation (Array_sort cmp l) l
  /\ StronglySorted (fun a b => (key b <= key a)%Z) (Array_sort cmp l)
  /\ forall t, filter (fun a => (key a =? t)%Z) (Array_sort cmp l)
               = filter (fun a => (key a =? t)%Z) l.
Proof.
  induction l as [|x l (Hp & Hs & Hf)]; cbn [Array_sort fold_right].
  - split; [apply Permutation_refl|]. split; [constructor|reflexivity].
  - fold (Array_sort cmp l). split; [|split].
    + apply perm_trans with (x :: Array_sort cmp l);
        [apply sorted_insert_permutation|apply perm_skip; exact Hp].
    + apply sorted_insert_sorted. exact Hs.
    + intros t. rewrite sorted_insert_stable by exact Hs.
      cbn [filter]. rewrite Hf. reflexivity.
Qed.

End Sorting.

(** X15. [sortThreadsByRecency] returns the same threads, the most
    recent first; a thread without a date counts as one of time 0 (the
    first of January 1970), and threads of the same time keep the order
    they had. *)
Theorem sortThreadsByRecency_sorts (threads : list message_parser.Thread) :
  Permutation (message_parser.sortThreadsByRecency threads) threads
  /\ StronglySorted not_older (message_parser.sortThreadsByRecency threads)
  /\ forall t, of_time t (message_parser.sortThreadsByRecency threads)
               = of_time t threads.
Proof. exact (Array_sort_spec _ message_parser.time_or_zero threads). Qed.

(** ** Previews and senders *)

(** X16. The preview of a message is short: at most 46 code units
    ([You: ], 40 units of the text and the ellipsis), whatever the text
    is. The one preview that is as long as its source is that of a
    document, which shows the whole file name. *)
Theorem getMessagePreview_is_short (m : message_parser.Message) :
  (length (message_parser.getMessagePreview (Some m)) <= 46)%nat
  \/ exists f, message_parser.type m = js "document"
               /\ message_parser.filename m = Some f
               /\ message_parser.getMessagePreview (Some m)
                  = (if message_parser.fromMe m then js "You: " else [])
                    ++ message_parser.PAGE ++ js " " ++ f.
Proof.
  unfold message_parser.getMessagePreview.
  set (prefix := if message_parser.fromMe m then js "You: " else []).
  assert (Hprefix : (length prefix <= 5)%nat).
  { subst prefix. destruct (message_parser.fromMe m); simpl; lia. }
  cbv zeta.
  repeat match goal with
         | |- context [if jsstring_eqb (message_parser.type m) ?t then _ else _] =>
             destruct (jsstring_eqb (message_parser.type m) t) eqn:?
         end;
    try (left; rewrite ?length_app; cbn [length js list_ascii_of_string map
                                           message_parser.CAMERA message_parser.MOVIE_CAMERA
                                           message_parser.MUSICAL_NOTE message_parser.PALETTE
                                           message_parser.PUSHPIN message_parser.NO_ENTRY
                                           message_parser.SPEECH]; lia).
  - left. rewrite length_app.
    set (b := match message_parser.body m with Some b => b | None => [] end).
    destruct (40 <? length b)%nat eqn:E.
    + rewrite length_app, length_firstn. cbn [length message_parser.ELLIPSIS]. lia.
    + apply Nat.ltb_ge in E. lia.
  - destruct (message_parser.filename m) as [[|c r]|] eqn:Ef;
      cbn [message_parser.truthy_string].
    + left. rewrite length_app. cbn. lia.
    + right. exists (c :: r). split; [|split; reflexivity].
      apply jsstring_eqb_eq. assumption.
    + left. rewrite length_app. cbn. lia.
Qed.

Lemma strip_us_suffix (user : jsstring) (c : N) :
  c = 99%N \/ c = 103%N ->
  message_parser.strip_us (user ++ [64%N; c; 46%N; 117%N; 115%N]) = user.
Proof.
  intros Hc. unfold message_parser.strip_us.
  rewrite length_app. cbn [length].
  replace (length user + 5 - 5)%nat with (length user) by lia.
  rewrite skipn_app, skipn_all, Nat.sub_diag. cbn [skipn app].
  rewrite firstn_app, firstn_all, Nat.sub_diag. cbn [firstn]. rewrite app_nil_r.
  destruct Hc as [-> | ->]; reflexivity.
Qed.

(** X17. The sender of a message from somebody else who has no name is
    shown by the id without its suffix: [name@c.us] and [name@g.us] are
    shown as [name]. *)
Theorem getSenderDisplay_strips_the_suffix (m : message_parser.Message) (user : jsstring) :
  message_parser.fromMe m = false ->
  message_parser.truthy_string (message_parser.senderName m) = None ->
  message_parser.from m = user ++ js "@c.us" \/ message_parser.from m = user ++ js "@g.us" ->
  message_parser.getSenderDisplay m = user.
Proof.
  intros Hme Hname Hfrom. unfold message_parser.getSenderDisplay.
  rewrite Hme, Hname.
  destruct Hfrom as [-> | ->]; apply strip_us_suffix; tauto.
Qed.

(** ** A daemon that serves is found, and stopped *)

Lemma valid_descriptor (st : state.DaemonState) :
  state.valid (state.object_of st) = true ->
  (Z.abs (state.pid st) < 10 ^ 21)%Z /\ (Z.abs (state.port st) < 10 ^ 21)%Z
  /\ state.token st <> [].
Proof.
  intros Hvalid. unfold state.valid, state.object_of in Hvalid. simpl in Hvalid.
  repeat (apply andb_prop in Hvalid as [Hvalid ?]).
  repeat match goal with
         | H : (_ <? _)%Z = true |- _ => apply Z.ltb_lt in H
         | H : (_ <=? _)%Z = true |- _ => apply Z.leb_le in H
         end.
  assert (E21 : (10 ^ 21 = 1000000000000000000000)%Z) by reflexivity.
  split; [rewrite E21; lia|]. split; [rewrite E21; lia|].
  clear E21. intros E. rewrite E in *. discriminate.
Qed.

Section Found.

Variable h : host.
Variable SECRET_TOKEN : jsstring.
Variable array_token : json -> completion exn bool.
Variable session : daemon.session_call -> completion exn (option json).

Lemma serving_state (st : state.DaemonState) (p : daemon.process) :
  serving SECRET_TOKEN st p ->
  ipc.readDaemonState (daemon.files p) = Return (state.object_of st)
  /\ dir_writable (daemon.files p) = true
  /\ SECRET_TOKEN <> [].
Proof.
  intros (Hrun & Hlisten & Himm & Hvalid & Htok & d0 & Hwrite).
  destruct (valid_descriptor st Hvalid) as (Hpid & Hport & Hne).
  split; [|split].
  - destruct (writeDaemonState_content d0 _ st Hwrite) as [m Hfile].
    apply (readDaemonState_parsed _ _ _ Hfile).
    exact (parse_stringify_state st Hpid Hport).
  - unfold state.writeDaemonState, fs_mkdir, fs_writeFile in Hwrite.
    destruct (dir_writable d0); [|discriminate].
    injection Hwrite as Hw. rewrite <- Hw. reflexivity.
  - rewrite <- Htok. exact Hne.
Qed.

Lemma authenticated_request (id method : jsstring) (params : option json) :
  SECRET_TOKEN <> [] ->
  daemon.handleRequest SECRET_TOKEN array_token
    (request_of id (Some SECRET_TOKEN) method params)
  = daemon.dispatch (request_of id (Some SECRET_TOKEN) method params).
Proof.
  intros Hne. apply handleRequest_authenticated; [exact Hne|].
  apply (request_of_fields id method (Some SECRET_TOKEN) params).
Qed.

(** The liveness probe against a daemon that serves. *)
Lemma probe_served (st : state.DaemonState) (p : daemon.process) (id : jsstring) :
  serving SECRET_TOKEN st p ->
  ipc.tryConnectDaemon h
    (proxy.endpoint_of SECRET_TOKEN array_token session (state.port st) p)
    (daemon.files p) id
  = ([ipc.request_line id (Some (JStr SECRET_TOKEN)) (js "ping") None],
     Settled (Return (Some {| ipc.port := Some (JNum (NInt (state.port st)));
                              ipc.token := Some (JStr SECRET_TOKEN) |}))).
Proof.
  intros Hs. destruct (serving_state st p Hs) as (Hread & _ & Hne).
  destruct Hs as (Hrun & Hlisten & Himm & Hvalid & Htok & _).
  unfold ipc.tryConnectDaemon. rewrite Hread.
  cbn [truthy negb state.object_of get lookup].
  change (jsstring_eqb (js "port") (js "pid")) with false.
  change (jsstring_eqb (js "port") (js "port")) with true.
  change (jsstring_eqb (js "token") (js "pid")) with false.
  change (jsstring_eqb (js "token") (js "port")) with false.
  change (jsstring_eqb (js "token") (js "startedAt")) with false.
  change (jsstring_eqb (js "token") (js "token")) with true.
  cbv iota. rewrite Htok.
  rewrite (callPort_answered h SECRET_TOKEN array_token session p _ id (js "ping")
             (Some (JNum (NInt (state.port st)))) (Some SECRET_TOKEN) None 1500 Hrun).
  - rewrite authenticated_request by exact Hne. reflexivity.
  - unfold proxy.endpoint_of. rewrite Z.eqb_refl, Hlisten, Hrun. reflexivity.
  - exact I.
  - rewrite authenticated_request by exact Hne.
    apply response_plain; apply plain_str.
Qed.

(** X18. While a daemon serves, [connectClient] returns a proxy bound to
    the port and the token of its state file, whatever a Session of
    the command's own would do: no such Session is booted. *)
Theorem a_serving_daemon_is_found
    (st : state.DaemonState) (p : daemon.process) (id : jsstring)
    (events : list connect.session_event) :
  serving SECRET_TOKEN st p ->
  connect.connectClient h
    (proxy.endpoint_of SECRET_TOKEN array_token session (state.port st) p)
    (daemon.files p) id events
  = Settled (Return (connect.Proxy {| ipc.port := Some (JNum (NInt (state.port st)));
                                      ipc.token := Some (JStr SECRET_TOKEN) |})).
Proof.
  intros Hs. unfold connect.connectClient.
  rewrite (probe_served st p id Hs). reflexivity.
Qed.

End Found.

Section Stopped.

Variable h : host.
Variable SECRET_TOKEN : jsstring.
Variable array_token : json -> completion exn bool.
Variable session : daemon.session_call -> completion exn (option json).

Lemma vitals_fields (p q : daemon.process) :
  vitals q = vitals p ->
  daemon.listening q = daemon.listening p
  /\ daemon.session_alive q = daemon.session_alive p
  /\ daemon.files q = daemon.files p
  /\ daemon.exit_code q = daemon.exit_code p.
Proof. unfold vitals. intros H. injection H as H1 H2 H3 H4. repeat split; assumption. Qed.

(** The daemon after an authenticated [stop] has arrived and the
    callbacks of [setImmediate] have run. *)
Lemma stop_served (p : daemon.process) (id : jsstring) :
  SECRET_TOKEN <> [] ->
  daemon.exit_code p = None ->
  daemon.immediates p = [] ->
  let q := daemon.steps SECRET_TOKEN array_token (loopback.accept p)
             [daemon.Data (ipc.request_line id (Some (JStr SECRET_TOKEN)) (js "stop") None);
              daemon.Check] in
  daemon.exit_code q = Some 0%Z
  /\ daemon.listening q = false
  /\ daemon.session_alive q = false
  /\ daemon.files q = state.removeDaemonState (daemon.files p)
  /\ proxy.calls (daemon.journal q) = proxy.calls (daemon.journal p)
  /\ daemon.written (daemon.journal q)
     = daemon.written (daemon.journal p)
       ++ [daemon.line_of (daemon.Result (Some (JStr id)) (Some (JStr (js "stopping"))))].
Proof.
  intros Hne Hrun Himm q.
  pose proof (request_line_read id (js "stop") (Some SECRET_TOKEN) None I)
    as (Hnl & Hparse & Hreq).
  cbn [option_map] in Hnl, Hparse.
  eassert (Hq : q = _).
  { subst q. unfold daemon.steps. cbn [fold_left]. unfold daemon.step at 2.
    cbn [loopback.accept daemon.exit_code daemon.destroyed]. rewrite Hrun.
    unfold ipc.request_line.
    rewrite (on_data_line SECRET_TOKEN array_token (loopback.accept p) _ _ eq_refl Hnl
               Hparse).
    rewrite authenticated_request by exact Hne.
    change (daemon.dispatch (request_of id (Some SECRET_TOKEN) (js "stop") None))
      with (daemon.SetImmediate daemon.Shutdown
              (daemon.Ret (Return (daemon.Result (Some (JStr id))
                                     (Some (JStr (js "stopping"))))))).
    cbn [daemon.run]. rewrite respond_not_null by exact Hreq. crunch.
    unfold daemon.step. crunch. rewrite Hrun, Himm. cbn [app].
    unfold daemon.shutdown. crunch. reflexivity. }
  clearbody q. subst q.
  cbn [daemon.exit_code daemon.listening daemon.session_alive daemon.files daemon.journal].
  rewrite !written_app, !calls_app.
  cbn [daemon.written proxy.calls app]. rewrite !app_nil_r.
  repeat split.
Qed.

(** X19. [daemon stop], run while a daemon serves, stops it: the
    daemon answers the probe and the [stop] request, closes its
    listener, destroys its Session, removes the state file and exits
    with code 0, without having invoked any operation of the Session;
    the command reports the pid of the state file and succeeds. *)
Theorem daemon_stop_stops_a_serving_daemon
    (st : state.DaemonState) (p : daemon.process) (id : jsstring) :
  serving SECRET_TOKEN st p ->
  let r := daemon_stop.run h SECRET_TOKEN array_token session (state.port st) p id in
  fst r = daemon_stop.Done (js "Daemon (pid " ++ Number_toString (NInt (state.pid st))
                            ++ js ") stopped.")
  /\ daemon_stop.exitCode (fst r) = Some 0%Z
  /\ daemon.exit_code (snd r) = Some 0%Z
  /\ daemon.listening (snd r) = false
  /\ daemon.session_alive (snd r) = false
  /\ ipc.readDaemonState (daemon.files (snd r)) = Return JNull
  /\ proxy.calls (daemon.journal (snd r)) = proxy.calls (daemon.journal p)
  /\ daemon.written (daemon.journal (snd r))
     = daemon.written (daemon.journal p)
       ++ [daemon.line_of (daemon.Result (Some (JStr id)) (Some (JStr (js "pong"))));
           daemon.line_of (daemon.Result (Some (JStr (js "stop-req")))
                             (Some (JStr (js "stopping"))))].
Proof.
  intros Hs r.
  destruct (serving_state SECRET_TOKEN st p Hs) as (Hread & Hdir & Hne).
  pose proof (probe_served h SECRET_TOKEN array_token session st p id Hs) as Hprobe.
  destruct Hs as (Hrun & Hlisten & Himm & Hvalid & Htok & _).
  pose proof (request_line_read id (js "ping") (Some SECRET_TOKEN) None I) as Hline.
  destruct (serve_spec SECRET_TOKEN array_token session p _ _ Hrun Hline)
    as (Hw & Hc & _ & Hi & _ & _ & Hv).
  rewrite authenticated_request in Hw, Hc, Hi by exact Hne.
  change (daemon.dispatch (request_of id (Some SECRET_TOKEN) (js "ping") None))
    with (@daemon.Ret daemon.RpcResponse
            (Return (daemon.Result (Some (JStr id)) (Some (JStr (js "pong"))))))
    in Hw, Hc, Hi.
  cbn [proxy.eval proxy.invoked proxy.scheduled daemon.reply] in Hw, Hc, Hi.
  rewrite app_nil_r in Hc, Hi.
  apply vitals_fields in Hv. destruct Hv as (Hl1 & Ha1 & Hf1 & Hx1).
  pose (p1 := proxy.serve SECRET_TOKEN array_token session p
                (ipc.request_line id (Some (JStr SECRET_TOKEN)) (js "ping") None)).
  change (proxy.serve SECRET_TOKEN array_token session p _) with p1 in Hw, Hc, Hi, Hl1, Ha1, Hf1, Hx1.
  assert (Hr : r = (daemon_stop.Done (js "Daemon (pid "
                                       ++ Number_toString (NInt (state.pid st))
                                       ++ js ") stopped."),
                    daemon.steps SECRET_TOKEN array_token (loopback.accept p1)
                      [daemon.Data (ipc.request_line (js "stop-req")
                                      (Some (JStr SECRET_TOKEN)) (js "stop") None);
                       daemon.Check])).
  { subst r. unfold daemon_stop.run. rewrite Hread.
    cbn [truthy negb state.object_of]. rewrite Hprobe.
    cbn [fold_left]. fold (state.object_of st).
    unfold daemon_stop.sendStop.
    change (get (state.object_of st) (js "port")) with (Some (JNum (NInt (state.port st)))).
    change (get (state.object_of st) (js "token")) with (Some (JStr (state.token st))).
    change (get (state.object_of st) (js "pid")) with (Some (JNum (NInt (state.pid st)))).
    unfold proxy.endpoint_of. fold p1.
    rewrite Z.eqb_refl, Hl1, Hx1, Hlisten, Hrun. cbn [andb proxy.peer fold_left].
    rewrite Htok. reflexivity. }
  clearbody r. subst r. cbn [fst snd daemon_stop.exitCode].
  destruct (stop_served p1 (js "stop-req") Hne) as (Hx & Hl & Ha & Hf & Hc2 & Hw2).
  { rewrite Hx1. exact Hrun. }
  { rewrite Hi. exact Himm. }
  rewrite Hx, Hl, Ha, Hf, Hc2, Hw2, Hc, Hw, Hf1. rewrite <- app_assoc.
  repeat split.
  unfold state.removeDaemonState, fs_unlink, ipc.readDaemonState, fs_readFile.
  destruct (daemon_json (daemon.files p)) eqn:E; [rewrite Hdir; reflexivity|].
  cbn [snd]. rewrite E. reflexivity.
Qed.

End Stopped.

Section NoDaemon.

Variable h : host.
Variable SECRET_TOKEN : jsstring.
Variable array_token : json -> completion exn bool.
Variable session : daemon.session_call -> completion exn (option json).
Variable listen_port : Z.

Lemma gone_refuses (p : daemon.process) (v : option json) :
  gone p ->
  proxy.endpoint_of SECRET_TOKEN array_token session listen_port p v
  = ipc.Refused loopback.ECONNREFUSED.
Proof.
  intros Hg. unfold proxy.endpoint_of.
  destruct v as [[ | | [q|] | | | ]|]; try reflexivity.
  destruct Hg as [Hx | Hl].
  - destruct (daemon.exit_code p); [|congruence].
    rewrite andb_false_r. reflexivity.
  - rewrite Hl, andb_false_r. reflexivity.
Qed.

(** X20. [daemon stop] without a daemon. When the state file reads as a
    descriptor and nobody answers, the command removes the file, so
    that the next read finds none, and succeeds; when the file is
    missing or is no JSON text, the command says that the daemon is not
    running and touches nothing: a corrupt file stays where it is. *)
Theorem daemon_stop_without_a_daemon (p : daemon.process) (id : jsstring) (s : json) :
  gone p ->
  ipc.readDaemonState (daemon.files p) = Return s ->
  let r := daemon_stop.run h SECRET_TOKEN array_token session listen_port p id in
  daemon_stop.exitCode (fst r) = Some 0%Z
  /\ daemon.journal (snd r) = daemon.journal p
  /\ (truthy (Some s) = false ->
      r = (daemon_stop.Done (js "Daemon is not running."), p))
  /\ (truthy (Some s) = true ->
      fst r = daemon_stop.Done (js "Daemon was not running (cleaned up stale state file).")
      /\ (dir_writable (daemon.files p) = true ->
          ipc.readDaemonState (daemon.files (snd r)) = Return JNull)).
Proof.
  intros Hg Hread r. subst r. unfold daemon_stop.run. rewrite Hread.
  destruct (truthy (Some s)) eqn:Et; cbn [negb].
  - unfold ipc.tryConnectDaemon. rewrite Hread, Et. cbn [negb].
    unfold ipc.callPort. rewrite gone_refuses by exact Hg.
    cbn [fold_left fst snd daemon_stop.exitCode with_files daemon.journal daemon.files].
    split; [reflexivity|]. split; [reflexivity|]. split; [discriminate|].
    intros _. split; [reflexivity|]. intros Hdir.
    unfold fs_unlink, ipc.readDaemonState, fs_readFile.
    destruct (daemon_json (daemon.files p)) eqn:E; [rewrite Hdir; reflexivity|].
    cbn [snd]. rewrite E. reflexivity.
  - cbn [fst snd daemon_stop.exitCode].
    split; [reflexivity|]. split; [reflexivity|]. split; [reflexivity|discriminate].
Qed.

End NoDaemon.

(** ** [daemon status] *)

Section Status.

Variable h : host.
Variable toLocaleString : option json -> jsstring.

Lemma readDaemonState_returns (d : disk) : exists s, ipc.readDaemonState d = Return s.
Proof.
  unfold ipc.readDaemonState, fs_readFile.
  destruct (daemon_json d) as [f|]; simpl; [|eexists; reflexivity].
  destruct (JSON.parse (content f)); simpl; eexists; reflexivity.
Qed.

(** X21. [daemon status] ends in an error in one case only: a daemon
    answers the probe, and the [startedAt] of the state file is an
    array or an object of which no string can be made; the message is
    that of the error of the conversion. With a [startedAt] that is a string, as
    the daemon writes it, or any other primitive, the command ends with
    exit code 0 or, when the probe never settles, stays in its first
    phase. It reports a daemon as running exactly when the state file
    reads as a descriptor, the probe succeeds and the date is made, and
    then shows the pid and the port of the file. *)
Theorem daemon_status_fails_only_on_startedAt (net : option json -> ipc.endpoint)
    (d : disk) (id : jsstring) :
  exists s,
    ipc.readDaemonState d = Return s
    /\ (forall message,
          daemon_status.run h net toLocaleString d id = daemon_status.Failed message
          <-> (exists c, snd (ipc.tryConnectDaemon h net d id) = Settled (Return (Some c)))
              /\ exists v err,
                   get s (js "startedAt") = Some v
                   /\ match v with JArr _ | JObj _ => True | _ => False end
                   /\ ToString v = Throw err
                   /\ message = message_or_string err)
    /\ (daemon_status.run h net toLocaleString d id = daemon_status.Checking
        <-> snd (ipc.tryConnectDaemon h net d id) = Pending)
    /\ (forall pid port started,
          daemon_status.run h net toLocaleString d id
          = daemon_status.Done true pid port started
          <-> (exists c, snd (ipc.tryConnectDaemon h net d id) = Settled (Return (Some c)))
              /\ pid = get s (js "pid") /\ port = get s (js "port")
              /\ daemon_status.started toLocaleString (get s (js "startedAt"))
                 = Return (toLocaleString (get s (js "startedAt")))
              /\ started = Some (toLocaleString (get s (js "startedAt"))))
    /\ (match get s (js "startedAt") with
        | Some (JArr _) | Some (JObj _) => False
        | _ => True
        end ->
        daemon_status.exitCode (daemon_status.run h net toLocaleString d id) <> Some 1%Z)
    /\ (daemon_status.exitCode (daemon_status.run h net toLocaleString d id) = Some 1%Z
        <-> exists message,
              daemon_status.run h net toLocaleString d id = daemon_status.Failed message).
Proof.
  unfold daemon_status.run.
  destruct (tryConnectDaemon_spec h net d id) as (s & Hread & Htry).
  exists s. split; [exact Hread|].
  rewrite Hread, Htry. destruct (truthy (Some s)) eqn:Et; cbn [negb].
  - destruct (ping h net s id) as [[v|e]|].
    + unfold daemon_status.started.
      destruct (get s (js "startedAt")) as [[|b|n|t|l|o]|] eqn:Es;
        try (split; [|split; [|split; [|split]]];
             [ intros message; split; [discriminate|];
               intros (_ & v' & err' & Hv & Hkind & _); inversion Hv; subst; contradiction
             | split; discriminate
             | intros pid port started; split;
               [ intros H; injection H as <- <- <-; split; [eexists; reflexivity|];
                 repeat split
               | intros (_ & -> & -> & _ & ->); reflexivity ]
             | intros _; discriminate
             | split; [discriminate|intros [message H]; discriminate] ]).
      * destruct (ToString (JArr l)) as [text|err] eqn:Ea; cbn [bind].
        -- split; [|split; [|split; [|split]]].
           ++ intros message; split; [discriminate|].
              intros (_ & v' & err' & Hv & _ & Hv' & _). injection Hv as <-. congruence.
           ++ split; discriminate.
           ++ intros pid port started; split.
              ** intros H; injection H as <- <- <-; split; [eexists; reflexivity|].
                 repeat split.
              ** intros (_ & -> & -> & _ & ->); reflexivity.
           ++ intros [].
           ++ split; [discriminate|intros [message H]; discriminate].
        -- split; [|split; [|split; [|split]]].
           ++ intros message; split.
              ** intros H. injection H as <-. split; [eexists; reflexivity|].
                 exists (JArr l), err. repeat split. exact Ea.
              ** intros (_ & v' & err' & Hv & _ & Hv' & ->). injection Hv as <-.
                 congruence.
           ++ split; discriminate.
           ++ intros pid port started; split; [discriminate|].
              intros (_ & _ & _ & H & _). discriminate.
           ++ intros [].
           ++ split; [intros _; eexists; reflexivity|reflexivity].
      * destruct (ToString (JObj o)) as [text|err] eqn:Ea; cbn [bind].
        -- split; [|split; [|split; [|split]]].
           ++ intros message; split; [discriminate|].
              intros (_ & v' & err' & Hv & _ & Hv' & _). injection Hv as <-. congruence.
           ++ split; discriminate.
           ++ intros pid port started; split.
              ** intros H; injection H as <- <- <-; split; [eexists; reflexivity|].
                 repeat split.
              ** intros (_ & -> & -> & _ & ->); reflexivity.
           ++ intros [].
           ++ split; [discriminate|intros [message H]; discriminate].
        -- split; [|split; [|split; [|split]]].
           ++ intros message; split.
              ** intros H. injection H as <-. split; [eexists; reflexivity|].
                 exists (JObj o), err. repeat split. exact Ea.
              ** intros (_ & v' & err' & Hv & _ & Hv' & ->). injection Hv as <-.
                 congruence.
           ++ split; discriminate.
           ++ intros pid port started; split; [discriminate|].
              intros (_ & _ & _ & H & _). discriminate.
           ++ intros [].
           ++ split; [intros _; eexists; reflexivity|reflexivity].
    + split; [|split; [|split; [|split]]].
      * intros message; split; [discriminate|]. intros ([c Hc] & _). discriminate.
      * split; discriminate.
      * intros pid port started; split; [discriminate|]. intros ([c Hc] & _). discriminate.
      * intros _; discriminate.
      * split; [discriminate|intros [message H]; discriminate].
    + split; [|split; [|split; [|split]]].
      * intros message; split; [discriminate|]. intros ([c Hc] & _). discriminate.
      * split; reflexivity.
      * intros pid port started; split; [discriminate|]. intros ([c Hc] & _). discriminate.
      * intros _; discriminate.
      * split; [discriminate|intros [message H]; discriminate].
  - split; [|split; [|split; [|split]]].
    + intros message; split; [discriminate|]. intros ([c Hc] & _). discriminate.
    + split; discriminate.
    + intros pid port started; split; [discriminate|]. intros ([c Hc] & _). discriminate.
    + intros _; discriminate.
    + split; [discriminate|intros [message H]; discriminate].
Qed.

End Status.

(** A state file whose [startedAt] is an object with a property
    [toString], while a daemon answers on the port of the file: the
    command ends in the error phase, with exit code 1. *)
Example daemon_status_fails :
  let d := {| daemon_json :=
                Some {| content := jsq "{'pid':4242,'port':50123,'startedAt':{'toString':1},'token':'"
                                     ++ example_secret ++ jsq "'}";
                        mode := 384 |};
              dir_writable := true |} in
  daemon_status.run utc_host
    (loopback.only example_secret no_array_token 50123 example_daemon)
    (fun _ => js "1/1/2024, 12:00:00 AM") d (js "k3j9")
  = daemon_status.Failed (js "Cannot convert object to primitive value").
Proof. vm_compute. reflexivity. Qed.

(** ** The commands *)

Lemma with_client_orderly (connect : completion exn commands.Client)
    (rest : commands.Client -> commands.act unit) :
  (forall client, forallb inner (fst (rest client)) = true) ->
  orderly connect (commands.with_client connect rest).
Proof.
  intros Hrest. unfold commands.with_client.
  destruct connect as [client|err].
  - apply orderly_released with (client := client); [reflexivity|].
    specialize (Hrest client). destruct (rest client) as [evs [[]|e]]; cbn [fst] in Hrest.
    + exact Hrest.
    + rewrite forallb_app, Hrest. reflexivity.
  - apply orderly_unreachable. reflexivity.
Qed.

Ltac settle_calls :=
  repeat match goal with
         | |- context [commands.getThreads ?c] =>
             destruct (commands.getThreads c) as [?|?]
         | |- context [commands.findChatByName ?c ?n] =>
             destruct (commands.findChatByName c n) as [[?|]|?]
         | |- context [commands.getMessages ?c ?i ?l] =>
             destruct (commands.getMessages c i l) as [?|?]
         | |- context [commands.sendMessage ?c ?i ?t] =>
             destruct (commands.sendMessage c i t) as [[]|?]
         | |- context [commands.sendFile ?c ?i ?p ?t] =>
             destruct (commands.sendFile c i p t) as [[]|?]
         | |- context [commands.replyToMessage ?c ?i ?t] =>
             destruct (commands.replyToMessage c i t) as [[]|?]
         | |- context [nth_error ?l ?n] => destruct (nth_error l n) as [?|]
         | |- context [message_parser.truthy_string ?f] =>
             destruct (message_parser.truthy_string f) as [?|]
         end.

Ltac run_command :=
  cbn [commands.then_ commands.call commands.setState commands.sleep commands.ret
       fst snd app].

(** X22. Every run of [chats], [open], [send] and [reply] is orderly:
    a command that refuses its arguments does not connect; a command
    that cannot connect calls nothing; and a command that connected
    destroys its handle once, as the last thing it does with it,
    whether it succeeded, found no chat, or failed on the way. *)
Theorem commands_release_their_handle
    (connect : completion exn commands.Client)
    (path_resolve path_basename : jsstring -> jsstring)
    (chatName indexStr : jsstring) (parts : list jsstring) (file : option jsstring)
    (limit : Z) :
  orderly connect (commands.Chats connect)
  /\ orderly connect (commands.Open chatName limit connect)
  /\ orderly connect (commands.Send path_resolve path_basename chatName parts file connect)
  /\ orderly connect (commands.Reply chatName indexStr parts connect).
Proof.
  split; [|split; [|split]].
  - apply with_client_orderly. intros client. run_command.
    settle_calls; reflexivity.
  - apply with_client_orderly. intros client. run_command.
    settle_calls; run_command; settle_calls; reflexivity.
  - unfold commands.Send. cbv zeta.
    destruct (message_parser.truthy_string file) as [f|] eqn:Ef.
    + apply with_client_orderly. intros client. run_command.
      settle_calls; run_command; rewrite ?Ef; run_command; settle_calls; reflexivity.
    + destruct (join_words parts) as [|c r] eqn:Eb; [apply orderly_refused|].
      apply with_client_orderly. intros client. run_command.
      settle_calls; run_command; rewrite ?Ef; run_command; settle_calls; reflexivity.
  - unfold commands.Reply. cbv zeta.
    destruct (is_empty (join_words parts)); [apply orderly_refused|].
    destruct (commands.valid_index (parseInt10 indexStr)) as [i|];
      [|apply orderly_refused].
    apply with_client_orderly. intros client. run_command.
    settle_calls; run_command; settle_calls; run_command; settle_calls; reflexivity.
Qed.

(** ** What [send] and [reply] send *)

(** X23. [reply] with the index [i] answers the message that [open]
    lists under [i] when it is asked for max(i, 20) messages, with the
    words of the reply joined by spaces; it sends that one reply and
    nothing else. When that list has no message [i], it sends nothing. *)
Theorem reply_answers_what_open_lists
    (client : commands.Client) (chatName indexStr : jsstring) (parts : list jsstring)
    (i : Z) (thread : message_parser.Thread) (messages : list message_parser.Message) :
  join_words parts <> [] ->
  parseInt10 indexStr = Some i ->
  (1 <= i)%Z ->
  commands.final (commands.Open chatName (Z.max i 20) (Return client)) connecting
    = commands.Opened thread messages ->
  filter is_sending (commands.Reply chatName indexStr parts (Return client))
  = match nth_error messages (Z.to_nat (i - 1)) with
    | Some target =>
        [commands.ReplyToMessage (message_parser.message_id target) (join_words parts)]
    | None => []
    end.
Proof.
  intros Htext Hindex Hi Hopen.
  unfold commands.Reply. cbv zeta. rewrite Hindex.
  destruct (join_words parts) as [|c r] eqn:Et; [congruence|]. cbn [is_empty].
  cbn [commands.valid_index].
  destruct (Z.ltb_spec i 1) as [Hlt|_]; [lia|].
  unfold commands.Open, commands.with_client in *.
  revert Hopen. run_command.
  destruct (commands.findChatByName client chatName) as [[th|]|e]; run_command;
    try discriminate.
  destruct (commands.getMessages client (message_parser.id th) (Z.max i 20))
    as [ms|e]; run_command; try discriminate.
  cbn [commands.final]. intros H. injection H as -> ->.
  destruct (nth_error messages (Z.to_nat (i - 1))) as [target|]; run_command;
    [|reflexivity].
  destruct (commands.replyToMessage client _ _) as [[]|e]; reflexivity.
Qed.

(** X24. [send] sends one thing at most, to the chat that
    [findChatByName] gave for the name: the file, with the words as its
    caption, when a file is given, and the words as a text otherwise.
    It sends nothing when no chat is found or when the search fails. *)
Theorem send_sends_once_to_the_chat_found
    (client : commands.Client) (path_resolve path_basename : jsstring -> jsstring)
    (chatName : jsstring) (parts : list jsstring) (file : option jsstring) :
  filter is_sending
    (commands.Send path_resolve path_basename chatName parts file (Return client))
  = match message_parser.truthy_string file, join_words parts,
          commands.findChatByName client chatName with
    | Some f, text, Return (Some thread) =>
        [commands.SendFile (message_parser.id thread) (path_resolve f) text]
    | None, c :: r, Return (Some thread) =>
        [commands.SendMessage (message_parser.id thread) (c :: r)]
    | _, _, _ => []
    end.
Proof.
  unfold commands.Send, commands.with_client. cbv zeta.
  destruct (message_parser.truthy_string file) as [f|] eqn:Ef.
  - run_command.
    destruct (commands.findChatByName client chatName) as [[th|]|e]; run_command;
      rewrite ?Ef; run_command; try reflexivity.
    destruct (commands.sendFile client _ _ _) as [[]|e]; reflexivity.
  - destruct (join_words parts) as [|c r] eqn:Et; [reflexivity|].
    run_command.
    destruct (commands.findChatByName client chatName) as [[th|]|e]; run_command;
      rewrite ?Ef; run_command; try reflexivity.
    destruct (commands.sendMessage client _ _) as [[]|e]; reflexivity.
Qed.

(** ** A daemon that has started *)

(** X25. The daemon writes its state file only when its Session is
    ready and its server listens: a start that fails in the boot of the
    Session or in [listen] is rejected with that error and leaves the
    state file as it was. When the start succeeds, the daemon serves:
    its state file is a valid descriptor with its pid, its port and its
    secret, and a command that connects gets a proxy bound to that port
    and that secret. *)
Theorem a_daemon_that_started_is_found
    (h : host) (calls : daemon.session_call -> completion exn (option json))
    (SECRET_TOKEN : jsstring) (array_token : json -> completion exn bool)
    (session events : list connect.session_event)
    (listen : completion exn Z) (pid : Z) (now : jsstring) (d : disk) (id : jsstring) :
  hex64 SECRET_TOKEN ->
  (Z.abs pid < 2 ^ 53)%Z ->
  (forall port, listen = Return port -> 0 < port <= 65535)%Z ->
  let started := server.main SECRET_TOKEN session listen pid now d in
  (forall err, server.boot session = Throw err -> started = (Throw err, d))
  /\ (forall err, server.boot session = Return tt -> listen = Throw err ->
                  started = (Throw err, d))
  /\ (snd started <> d ->
      server.boot session = Return tt /\ exists port, listen = Return port)
  /\ (forall p,
        fst started = Return p ->
        server.boot session = Return tt
        /\ snd started = daemon.files p
        /\ exists port,
             listen = Return port
             /\ serving SECRET_TOKEN
                  {| state.pid := pid; state.port := port; state.startedAt := now;
                     state.token := SECRET_TOKEN |} p
             /\ connect.connectClient h
                  (proxy.endpoint_of SECRET_TOKEN array_token calls port p)
                  (daemon.files p) id events
                = Settled (Return (connect.Proxy
                                     {| ipc.port := Some (JNum (NInt port));
                                        ipc.token := Some (JStr SECRET_TOKEN) |}))).
Proof.
  intros [Hlen Hhex] Hpid Hport started. subst started. unfold server.main.
  split; [|split; [|split]].
  - intros err ->. reflexivity.
  - intros err -> ->. reflexivity.
  - destruct (server.boot session) as [[]|e]; [|intros H; exfalso; apply H; reflexivity].
    destruct listen as [port|e]; [|intros H; exfalso; apply H; reflexivity].
    intros _. split; [reflexivity|]. exists port. reflexivity.
  - intros p Hmain.
    destruct (server.boot session) as [[]|e]; [|discriminate].
    split; [reflexivity|].
    destruct listen as [port|e]; [|discriminate].
    destruct (state.writeDaemonState d _) as [[[]|e] d'] eqn:Hwrite; [|discriminate].
    cbn [fst snd] in *. injection Hmain as <-.
    split; [reflexivity|].
    exists port. split; [reflexivity|].
    assert (Hs : serving SECRET_TOKEN
                   {| state.pid := pid; state.port := port; state.startedAt := now;
                      state.token := SECRET_TOKEN |}
                   {| daemon.status := js "ready"; daemon.listening := true;
                      daemon.session_alive := true; daemon.files := d';
                      daemon.exit_code := None; daemon.immediates := [];
                      daemon.buf := []; daemon.destroyed := false; daemon.pending := [];
                      daemon.journal := [] |}).
    { unfold serving. cbn [daemon.exit_code daemon.listening daemon.immediates daemon.files
                           state.token].
      repeat split; try reflexivity.
      - unfold state.valid, state.object_of. simpl get. cbv iota.
        specialize (Hport port eq_refl).
        rewrite Hhex. apply Nat.eqb_eq in Hlen. rewrite Hlen.
        replace (Z.abs pid <? 2 ^ 53)%Z with true by (symmetry; apply Z.ltb_lt; exact Hpid).
        replace (0 <? port)%Z with true by (symmetry; apply Z.ltb_lt; lia).
        replace (port <=? 65535)%Z with true by (symmetry; apply Z.leb_le; lia).
        reflexivity.
      - exists d. exact Hwrite. }
    split; [exact Hs|].
    pose proof (probe_served h SECRET_TOKEN array_token calls _ _ id Hs) as Hprobe.
    cbn [state.port] in Hprobe.
    unfold connect.connectClient. rewrite Hprobe. reflexivity.
Qed.

(** ** The search of a chat by its name *)

Lemma startsWith_nil (s : jsstring) : startsWith s [] = true.
Proof. destruct s; reflexivity. Qed.

Lemma includes_nil (s : jsstring) : includes s [] = true.
Proof. destruct s; reflexivity. Qed.

Lemma startsWith_refl (s : jsstring) : startsWith s s = true.
Proof.
  induction s as [|c s IH]; [reflexivity|].
  cbn [startsWith]. rewrite N.eqb_refl, IH. reflexivity.
Qed.

Lemma includes_refl (s : jsstring) : includes s s = true.
Proof. destruct s; cbn [includes]; rewrite startsWith_refl; reflexivity. Qed.

Lemma startsWith_spec (s sub : jsstring) :
  startsWith s sub = true <-> exists rest, s = sub ++ rest.
Proof.
  revert s. induction sub as [|x sub IH]; intros s.
  - rewrite startsWith_nil. split; [intros _; exists s; reflexivity|reflexivity].
  - destruct s as [|y s]; cbn [startsWith].
    + split; [discriminate|intros [rest H]; discriminate].
    + rewrite andb_true_iff, N.eqb_eq, IH. split.
      * intros [-> [rest ->]]. exists rest. reflexivity.
      * intros [rest H]. injection H as -> ->. split; [reflexivity|exists rest; reflexivity].
Qed.

Lemma includes_spec (s sub : jsstring) :
  includes s sub = true <-> exists before rest, s = before ++ sub ++ rest.
Proof.
  induction s as [|c s IH].
  - cbn [includes]. rewrite orb_false_r, startsWith_spec. split.
    + intros [rest H]. exists [], rest. exact H.
    + intros [before [rest H]]. destruct before; [exists rest; exact H|discriminate].
  - cbn [includes]. rewrite orb_true_iff, startsWith_spec, IH. split.
    + intros [[rest H]|[before [rest H]]].
      * exists [], rest. exact H.
      * exists (c :: before), rest. rewrite H. reflexivity.
    + intros [[|b before] [rest H]].
      * left. exists rest. exact H.
      * right. injection H as -> H. exists before, rest. exact H.
Qed.

Section Search.

Variable toLowerCase : jsstring -> jsstring.
Variable Score : Type.
Variable one : Score.
Variable fuse_search : list message_parser.Thread -> jsstring
                       -> list (message_parser.Thread * option Score).
Variable getChats : nat -> completion exn (list message_parser.Thread).

Let findChatByName := client.findChatByName toLowerCase Score one fuse_search getChats.
Let loaded := client.loaded getChats.

(** X26. When the name asked for is part of the name of a loaded chat,
    cases apart, [findChatByName] returns a chat whose name contains
    it, the first one whose name is equal to it if there is one, and
    the fuzzy search is not consulted: whatever Fuse.js would find, and
    without another fetch of the chats. *)
Theorem findChatByName_finds_a_chat_that_contains_the_name
    (query : jsstring) (st st' : client.state) (threads : list message_parser.Thread)
    (t : message_parser.Thread) :
  loaded st = (Return threads, st') ->
  In t threads ->
  includes (toLowerCase (message_parser.name t)) (toLowerCase query) = true ->
  exists found,
    findChatByName query st = (Return (Some found), st')
    /\ In found threads
    /\ (exists before rest,
          toLowerCase (message_parser.name found)
          = before ++ toLowerCase query ++ rest)
    /\ forall e, In e threads ->
         toLowerCase (message_parser.name e) = toLowerCase query ->
         toLowerCase (message_parser.name found) = toLowerCase query.
Proof.
  intros Hload Hin Hinc. subst findChatByName loaded. unfold client.findChatByName.
  rewrite Hload.
  destruct (find (fun t0 => jsstring_eqb (toLowerCase (message_parser.name t0))
                              (toLowerCase query)) threads) as [exact|] eqn:Hexact.
  - apply find_some in Hexact. destruct Hexact as [He Heq].
    apply jsstring_eqb_eq in Heq. exists exact.
    split; [reflexivity|]. split; [exact He|]. split.
    + exists [], []. rewrite Heq, app_nil_r. reflexivity.
    + intros _ _ _. exact Heq.
  - destruct (find (fun t0 => includes (toLowerCase (message_parser.name t0))
                                (toLowerCase query)) threads) as [partial|] eqn:Hpartial.
    + apply find_some in Hpartial. destruct Hpartial as [Hp Hpin].
      exists partial. split; [reflexivity|]. split; [exact Hp|]. split.
      * apply includes_spec. exact Hpin.
      * intros e He Heq. pose proof (find_none _ _ Hexact e He) as Hno.
        cbv beta in Hno. rewrite Heq, jsstring_eqb_refl in Hno. discriminate.
    + pose proof (find_none _ _ Hpartial t Hin) as Hno. cbv beta in Hno.
      rewrite Hinc in Hno. discriminate.
Qed.

(** X27. The empty name finds a chat whenever one is loaded: the first
    chat of the list, unless a chat has an empty name. *)
Theorem the_empty_name_finds_the_first_chat
    (st st' : client.state) (t : message_parser.Thread)
    (rest : list message_parser.Thread) :
  toLowerCase [] = [] ->
  loaded st = (Return (t :: rest), st') ->
  exists found,
    findChatByName [] st = (Return (Some found), st')
    /\ In found (t :: rest)
    /\ ((forall e, In e (t :: rest) -> toLowerCase (message_parser.name e) <> []) ->
        found = t).
Proof.
  intros Hlower Hload. subst findChatByName loaded. unfold client.findChatByName.
  rewrite Hload, Hlower.
  destruct (find (fun t0 => jsstring_eqb (toLowerCase (message_parser.name t0)) [])
              (t :: rest)) as [exact|] eqn:Hexact.
  - apply find_some in Hexact. destruct Hexact as [He Heq].
    apply jsstring_eqb_eq in Heq. exists exact.
    split; [reflexivity|]. split; [exact He|].
    intros Hnames. destruct (Hnames exact He Heq).
  - cbn [find]. rewrite includes_nil. exists t.
    split; [reflexivity|]. split; [left; reflexivity|]. intros _. reflexivity.
Qed.

End Search.

(** ** The properties at the examples *)

Lemma sendMessage_is_relayed_witness :
  let call := daemon.sendMessage (Some (JStr (js "alice@c.us"))) (Some (JStr (js "hello"))) in
  let sent := ipc.sendMessage utc_host example_net example_proxy (js "k3x")
                (JStr (js "alice@c.us")) (JStr (js "hello")) in
  snd sent = Settled (relayed (fun _ => Return VUndefined) (example_session call))
  /\ proxy.calls (daemon.journal
                    (fold_left (proxy.serve example_secret no_array_token example_session)
                       (fst sent) example_daemon))
     = proxy.calls (daemon.journal example_daemon) ++ [call].
Proof.
  apply (sendMessage_is_relayed utc_host example_secret no_array_token example_session
           example_daemon example_net example_proxy).
  - intros call v H. injection H as <-. apply plain_arr. constructor.
  - discriminate.
  - reflexivity.
  - reflexivity.
  - reflexivity.
Defined.


Lemma getSenderDisplay_strips_the_suffix_witness :
  message_parser.getSenderDisplay (example_message (js "1")) = js "alice".
Proof.
  apply (getSenderDisplay_strips_the_suffix (example_message (js "1")) (js "alice")).
  - reflexivity.
  - reflexivity.
  - left. reflexivity.
Defined.

Lemma a_serving_daemon_is_found_witness :
  connect.connectClient utc_host
    (proxy.endpoint_of example_secret no_array_token example_session 50123 example_daemon)
    example_disk (js "k3x") [connect.Qr]
  = Settled (Return (connect.Proxy example_proxy)).
Proof.
  apply (a_serving_daemon_is_found utc_host example_secret no_array_token example_session
           example_state
           example_daemon (js "k3x") [connect.Qr]).
  repeat split; try reflexivity.
  exists {| daemon_json := None; dir_writable := true |}. reflexivity.
Defined.

Lemma daemon_stop_stops_a_serving_daemon_witness :
  let r := daemon_stop.run utc_host example_secret no_array_token example_session 50123
             example_daemon (js "k3x") in
  fst r = daemon_stop.Done (js "Daemon (pid 4242) stopped.")
  /\ daemon_stop.exitCode (fst r) = Some 0%Z
  /\ daemon.exit_code (snd r) = Some 0%Z
  /\ daemon.listening (snd r) = false
  /\ daemon.session_alive (snd r) = false
  /\ ipc.readDaemonState (daemon.files (snd r)) = Return JNull
  /\ proxy.calls (daemon.journal (snd r)) = []
  /\ daemon.written (daemon.journal (snd r))
     = [daemon.line_of (daemon.Result (Some (JStr (js "k3x"))) (Some (JStr (js "pong"))));
        daemon.line_of (daemon.Result (Some (JStr (js "stop-req")))
                          (Some (JStr (js "stopping"))))].
Proof.
  apply (daemon_stop_stops_a_serving_daemon utc_host example_secret no_array_token
           example_session
           example_state example_daemon (js "k3x")).
  repeat split; try reflexivity.
  exists {| daemon_json := None; dir_writable := true |}. reflexivity.
Defined.

Lemma daemon_stop_without_a_daemon_witness :
  let r := daemon_stop.run utc_host example_secret no_array_token example_session 50123
             example_closed (js "k3x") in
  daemon_stop.exitCode (fst r) = Some 0%Z
  /\ daemon.journal (snd r) = []
  /\ (truthy (Some (state.object_of example_state)) = false ->
      r = (daemon_stop.Done (js "Daemon is not running."), example_closed))
  /\ (truthy (Some (state.object_of example_state)) = true ->
      fst r = daemon_stop.Done (js "Daemon was not running (cleaned up stale state file).")
      /\ (dir_writable example_disk = true ->
          ipc.readDaemonState (daemon.files (snd r)) = Return JNull)).
Proof.
  apply (daemon_stop_without_a_daemon utc_host example_secret no_array_token example_session
           50123
           example_closed (js "k3x") (state.object_of example_state)).
  - right. reflexivity.
  - vm_compute. reflexivity.
Defined.

Lemma reply_answers_what_open_lists_witness :
  filter is_sending
    (commands.Reply (js "Alice") (js "2") [js "see"; js "you"] (Return example_client))
  = [commands.ReplyToMessage (js "msg-2") (js "see you")].
Proof.
  apply (reply_answers_what_open_lists example_client (js "Alice") (js "2")
           [js "see"; js "you"] 2 example_thread
           [example_message (js "1"); example_message (js "2"); example_message (js "3")]).
  - discriminate.
  - reflexivity.
  - lia.
  - reflexivity.
Defined.

Lemma a_daemon_that_started_is_found_witness :
  server.boot [connect.Other; connect.Ready] = Return tt
  /\ exists port,
       port = 50123%Z
       /\ serving example_secret
            {| state.pid := 4242; state.port := port;
               state.startedAt := js "2024-01-01T00:00:00.000Z";
               state.token := example_secret |} example_daemon
       /\ connect.connectClient utc_host
            (proxy.endpoint_of example_secret no_array_token example_session port
               example_daemon)
            (daemon.files example_daemon) (js "k3x") [connect.Qr]
          = Settled (Return (connect.Proxy {| ipc.port := Some (JNum (NInt port));
                                              ipc.token := Some (JStr example_secret) |})).
Proof.
  destruct (a_daemon_that_started_is_found utc_host example_session example_secret
              no_array_token [connect.Other; connect.Ready] [connect.Qr] (Return 50123%Z)
              4242 (js "2024-01-01T00:00:00.000Z")
              {| daemon_json := None; dir_writable := true |} (js "k3x"))
    as (_ & _ & _ & Hstarted).
  - split; reflexivity.
  - reflexivity.
  - intros port H. injection H as <-. lia.
  - destruct (Hstarted example_daemon eq_refl) as (Hboot & _ & port & Hport & H).
    split; [exact Hboot|]. exists port. split; [congruence|exact H].
Defined.

Lemma findChatByName_finds_a_chat_that_contains_the_name_witness :
  exists found,
    client.findChatByName ascii_lower nat 1%nat (fun _ _ => []) (fun _ => Return [])
      (js "ALI") example_loaded
    = (Return (Some found), example_loaded)
    /\ In found [example_group; example_thread]
    /\ (exists before rest,
          ascii_lower (message_parser.name found) = before ++ ascii_lower (js "ALI") ++ rest)
    /\ forall e, In e [example_group; example_thread] ->
         ascii_lower (message_parser.name e) = ascii_lower (js "ALI") ->
         ascii_lower (message_parser.name found) = ascii_lower (js "ALI").
Proof.
  apply (findChatByName_finds_a_chat_that_contains_the_name ascii_lower nat 1%nat
           (fun _ _ => []) (fun _ => Return []) (js "ALI") example_loaded example_loaded
           [example_group; example_thread] example_thread).
  - reflexivity.
  - right. left. reflexivity.
  - reflexivity.
Defined.

Lemma the_empty_name_finds_the_first_chat_witness :
  exists found,
    client.findChatByName ascii_lower nat 1%nat (fun _ _ => []) (fun _ => Return [])
      [] example_loaded
    = (Return (Some found), example_loaded)
    /\ In found [example_group; example_thread]
    /\ ((forall e, In e [example_group; example_thread] ->
           ascii_lower (message_parser.name e) <> []) ->
        found = example_group).
Proof.
  apply (the_empty_name_finds_the_first_chat ascii_lower nat 1%nat
           (fun _ _ => []) (fun _ => Return []) example_loaded example_loaded
           example_group [example_thread]).
  - reflexivity.
  - reflexivity.
Defined.
